(** * WebGPU marching cubes: the orchestrator of [marching_cubes.ts]

    A shallow embedding of the host-side pipeline of [src/marching_cubes.ts]
    and of the draw call and the render loop of [src/app.ts].  The GPU device is a state: a table
    of buffer contents (bytes), indexed by buffer handle, and a log of the
    calls the host issued.  Host code is written in a state-and-error monad
    over that device, one monadic step per WebGPU call of the source; an
    [await] is the sequencing of the monad.

    What throws in the host is modelled: a buffer size that is negative or
    that the device cannot serve, a workgroup count, offset or vertex count
    outside its unsigned range, and a typed-array [set] that does not fit.
    Validation errors do not interrupt the host; WebGPU reports them out of
    band.  The model has the rules on buffer bindings, copies and the
    vertex fetch of a draw: a bind group that breaks them is created and
    logged all the same, and a submission with a command that breaks them
    is logged and not run.  The device limits on workgroup counts and
    binding sizes, and what the layouts derived from the absent shaders ask,
    are not checked.  Console output leaves no trace on the device and is
    left out. *)

From Stdlib Require Import ZArith Lia Sorted.
From stdpp Require Import base list list_numbers.

Local Open Scope Z_scope.

(** ** Little-endian words

    Typed arrays ([Uint32Array], [Int32Array], [Float32Array]) store one
    32-bit element in four bytes, least significant first.  A byte is a [Z]
    in [0, 256); a stored word wraps modulo [2^32]. *)

Definition u32_le (w : Z) : list Z :=
  [ Z.land w 255;
    Z.land (Z.shiftr w 8) 255;
    Z.land (Z.shiftr w 16) 255;
    Z.land (Z.shiftr w 24) 255 ].

Definition u32_of_le (b0 b1 b2 b3 : Z) : Z :=
  Z.lor b0 (Z.lor (Z.shiftl b1 8) (Z.lor (Z.shiftl b2 16) (Z.shiftl b3 24))).

Fixpoint words_of_bytes (bs : list Z) : list Z :=
  match bs with
  | b0 :: b1 :: b2 :: b3 :: rest => u32_of_le b0 b1 b2 b3 :: words_of_bytes rest
  | _ => []
  end.

Definition bytes_of_words (ws : list Z) : list Z := concat (map u32_le ws).

(** [blit off data old]: the bytes of [old] with [data] written from byte
    [off] on; a write never changes the length of a buffer, what falls
    outside it is dropped. *)
Definition blit (off : nat) (data old : list Z) : list Z :=
  take (length old) (take off old ++ data ++ drop (off + length data) old).

Definition sumZ (l : list Z) : Z := foldr Z.add 0 l.

(** JS [Math.ceil(a / b)] on integers, for a positive [b]. *)
Definition ceil_div (a b : Z) : Z := (a + b - 1) / b.

(** ** The volume

    Modelled from the spec: the [Volume] of the absent [volume.ts].  [dims]
    are the samples along x, y and z; [texture] stands for the sampled scalar
    field, which only the kernels read. *)
Record Volume := { dims : Z * Z * Z; texture : list Z }.

Definition dualGridDims (v : Volume) : Z * Z * Z :=
  let '(x, y, z) := dims v in (x - 1, y - 1, z - 1).

Definition dualGridNumVoxels (v : Volume) : Z :=
  let '(x, y, z) := dualGridDims v in x * y * z.

(** Every axis of the dual grid has a number of voxels that an unsigned
    32-bit integer holds. *)
Definition dualGrid_in_range (v : Volume) : Prop :=
  let '(x, y, z) := dualGridDims v in
  0 <= x < 2 ^ 32 /\ 0 <= y < 2 ^ 32 /\ 0 <= z < 2 ^ 32.

(** ** Constants and kernels of the modules that [marching_cubes.ts] imports

    The block size of [exclusive_scan.ts], the table of [mc_case_table.ts]
    and the per-voxel functions of the WGSL kernels are parameters of the
    development, as is the rounding of a JS number to a 32-bit float. *)
Class Platform := {
  (** block size of the scan primitive ([exclusive_scan.ts]) *)
  ScanBlockSize : Z;
  (** the triangulation table, an [Int32Array] ([mc_case_table.ts]) *)
  MC_CASE_TABLE : list Z;
  (** JS numbers, and the bit pattern a [Float32Array] stores for one *)
  number : Type;
  float32_bits : number -> Z;
  (** [mark_active_voxel.wgsl]: does the surface at the isovalue with the
      given bit pattern cross voxel [i] of the volume *)
  voxel_crosses : Volume -> Z -> Z -> bool;
  (** [compute_num_verts.wgsl]: number of vertices voxel [i] emits *)
  voxel_num_verts : Volume -> Z -> Z -> Z
}.

(** ** The device *)

Module GPUBufferUsage.
Definition MAP_READ : Z := 0x0001.
Definition MAP_WRITE : Z := 0x0002.
Definition COPY_SRC : Z := 0x0004.
Definition COPY_DST : Z := 0x0008.
Definition INDEX : Z := 0x0010.
Definition VERTEX : Z := 0x0020.
Definition UNIFORM : Z := 0x0040.
Definition STORAGE : Z := 0x0080.
End GPUBufferUsage.

(** A [GPUBuffer] object: a handle into the device's memory with the
    read-only attributes of its descriptor. *)
Module GPUBuffer.
Record t := { id : nat; size : Z; usage : Z }.
End GPUBuffer.

Definition has_usage (flag : Z) (b : GPUBuffer.t) : bool :=
  Z.land (GPUBuffer.usage b) flag =? flag.

(** What a stage hands to the next, and [computeSurface] to its caller. *)
Record MarchingCubesResult := { count : Z; buffer : GPUBuffer.t }.

(** ** The draw call of the application ([app.ts]) *)

Module App.

Inductive GPUVertexFormat := float32x2 | float32x3 | float32x4.

Definition format_bytes (f : GPUVertexFormat) : Z :=
  match f with float32x2 => 8 | float32x3 => 12 | float32x4 => 16 end.

Record GPUVertexAttribute :=
  { format : GPUVertexFormat; offset : Z; shaderLocation : Z }.

Record GPUVertexBufferLayout :=
  { arrayStride : Z; attributes : list GPUVertexAttribute }.

(** [vertexState.buffers] *)
Definition vertexState_buffers : list GPUVertexBufferLayout :=
  [ {| arrayStride := 4 * 4;
       attributes := [ {| format := float32x4; offset := 0; shaderLocation := 0 |} ] |} ].

(** The bytes of a vertex buffer that
    [draw(vertexCount, instanceCount, firstVertex, firstInstance)] fetches
    through a per-vertex layout: up to the end of the last attribute of the
    last vertex. *)
Definition bytes_fetched (layout : GPUVertexBufferLayout) (vertexCount firstVertex : Z) : Z :=
  if vertexCount <=? 0 then 0
  else (firstVertex + vertexCount - 1) * arrayStride layout
       + foldr Z.max 0 (map (fun a => offset a + format_bytes (format a)) (attributes layout)).

(** [renderPass.setVertexBuffer(0, isosurface.buffer);
     renderPass.draw(isosurface.count, 1, 0, 0)] *)
Definition draw_reads (isosurface : MarchingCubesResult) : Z :=
  foldr Z.max 0 (map (fun layout => bytes_fetched layout (count isosurface) 0)
                     vertexState_buffers).

Definition draw_in_bounds (isosurface : MarchingCubesResult) : Prop :=
  draw_reads isosurface <= GPUBuffer.size (buffer isosurface).

End App.

(** ** Bind groups

    A buffer entry of a bind group: the type its layout declares, the
    buffer, and the size of the binding where the source gives one (the
    whole buffer otherwise; the source binds from offset 0 throughout). *)
Inductive GPUBufferBindingType := uniform | storage | read_only_storage.

Record BufferBinding := {
  binding_type : GPUBufferBindingType;
  binding_buffer : GPUBuffer.t;
  binding_size : option Z
}.

(** What WebGPU asks of a buffer binding: the buffer has the usage of the
    binding type, and the bound range is not empty, lies inside the buffer
    and, for a storage binding, is a multiple of 4 bytes long. *)
Definition binding_valid (e : BufferBinding) : bool :=
  let bound := default (GPUBuffer.size (binding_buffer e)) (binding_size e) in
  has_usage (match binding_type e with
             | uniform => GPUBufferUsage.UNIFORM
             | _ => GPUBufferUsage.STORAGE
             end) (binding_buffer e)
  && (0 <? bound) && (bound <=? GPUBuffer.size (binding_buffer e))
  && match binding_type e with
     | uniform => true
     | _ => bound mod 4 =? 0
     end.

(** Bind groups, in the three layouts that [create] declares. *)
Record VolumeInfoBG := { bg_texture : Volume; bg_volumeInfo : GPUBuffer.t }.
Record ComputeNumVertsBG :=
  { bg_caseTable : GPUBuffer.t; bg_activeIDs : GPUBuffer.t; bg_numVerts : GPUBuffer.t }.
Record PushConstantsBG := { bg_pushConstants : GPUBuffer.t; bg_size : Z }.

(** Their buffer entries; entry 0 of the volume-info group is the view of
    the volume's texture. *)
Definition volumeInfoBG_entries (bg : VolumeInfoBG) : list BufferBinding :=
  [ {| binding_type := uniform; binding_buffer := bg_volumeInfo bg; binding_size := None |} ].

Definition markActiveBG_entries (active : GPUBuffer.t) : list BufferBinding :=
  [ {| binding_type := storage; binding_buffer := active; binding_size := None |} ].

Definition computeNumVertsBG_entries (bg : ComputeNumVertsBG) : list BufferBinding :=
  [ {| binding_type := read_only_storage; binding_buffer := bg_caseTable bg;
       binding_size := None |};
    {| binding_type := storage; binding_buffer := bg_activeIDs bg; binding_size := None |};
    {| binding_type := storage; binding_buffer := bg_numVerts bg; binding_size := None |} ].

Definition pushConstantsBG_entries (bg : PushConstantsBG) : list BufferBinding :=
  [ {| binding_type := uniform; binding_buffer := bg_pushConstants bg;
       binding_size := Some (bg_size bg) |} ].

(** Commands recorded in a command encoder.  A dispatch is recorded with the
    pipeline it runs and the bind groups set for it; a draw with the
    uniform buffer of its bind group and the vertex buffer of slot 0.
    [setBindGroup] stands for a bind group set in a pass outside the loop
    of its dispatches, with the buffer entries of the group. *)
Inductive Command :=
| copyBufferToBuffer (src : GPUBuffer.t) (srcOffset : Z)
                     (dst : GPUBuffer.t) (dstOffset : Z) (n : Z)
| setBindGroup (index : Z) (entries : list BufferBinding)
| dispatchMarkActiveVoxel (bg0 : VolumeInfoBG) (bg1 : GPUBuffer.t) (x y z : Z)
| dispatchComputeNumVerts (bg0 : VolumeInfoBG) (bg1 : ComputeNumVertsBG)
                          (bg2 : PushConstantsBG) (dynamicOffset : Z) (x y z : Z)
| draw (bg0 : GPUBuffer.t) (vertexBuffer : GPUBuffer.t)
       (vertexCount instanceCount firstVertex firstInstance : Z).

(** The calls the host made, in program order. *)
Inductive Event :=
| EvCreateBuffer (b : GPUBuffer.t) (mappedAtCreation : bool)
| EvUnmap (b : GPUBuffer.t)
| EvSubmit (cmds : list Command)
| EvWorkDone
| EvScan (b : GPUBuffer.t) (n total : Z)
| EvCompact (flags offsets ids : GPUBuffer.t) (n : Z)
| EvMapRead (b : GPUBuffer.t)
| EvCreateBindGroup (entries : list BufferBinding).

Record GPUDevice := {
  maxBufferSize : Z;
  maxComputeWorkgroupsPerDimension : Z;
  minUniformBufferOffsetAlignment : Z;
  memory : list (list Z);
  log : list Event
}.

Definition update (d : GPUDevice) (mem : list (list Z)) (evs : list Event) : GPUDevice :=
  {| maxBufferSize := maxBufferSize d;
     maxComputeWorkgroupsPerDimension := maxComputeWorkgroupsPerDimension d;
     minUniformBufferOffsetAlignment := minUniformBufferOffsetAlignment d;
     memory := mem;
     log := log d ++ evs |}.

Definition bytes_at (mem : list (list Z)) (b : GPUBuffer.t) : list Z :=
  default [] (mem !! GPUBuffer.id b).

Definition write_at (mem : list (list Z)) (b : GPUBuffer.t) (off : Z) (data : list Z)
  : list (list Z) :=
  if off <? 0 then mem else alter (blit (Z.to_nat off) data) (GPUBuffer.id b) mem.

Inductive Error :=
| TypeError
| RangeError
| OutOfMemory (size : Z)
| ScanOutOfFuel.

Inductive Result (A : Type) :=
| Ok (a : A)
| Fail (e : Error).
Arguments Ok {A} a.
Arguments Fail {A} e.

(** Host code: a computation on the device that returns or throws. *)
Definition GPU (A : Type) : Type := GPUDevice -> Result (A * GPUDevice).

Definition ret {A} (a : A) : GPU A := fun d => Ok (a, d).

Definition bind {A B} (m : GPU A) (k : A -> GPU B) : GPU B :=
  fun d => match m d with
           | Ok (a, d') => k a d'
           | Fail e => Fail e
           end.

Notation "x <- m ;; k" := (bind m (fun x => k))
  (at level 100, m at next level, right associativity).
Notation "m ;;; k" := (bind m (fun _ => k))
  (at level 100, right associativity).

(** [device.limits]: the work groups one dispatch may have per dimension and
    the alignment of dynamic uniform-buffer offsets. *)
Definition deviceLimits : GPU (Z * Z) :=
  fun d => Ok ((maxComputeWorkgroupsPerDimension d, minUniformBufferOffsetAlignment d), d).

(** [device.createBuffer]: a fresh zero-filled buffer.  A negative size is a
    [TypeError]; a buffer mapped at creation whose size is no multiple of 4
    is a [RangeError]; a size over the device limit is the fatal allocation
    failure of the pipeline. *)
Definition createBuffer (size usage : Z) (mappedAtCreation : bool) : GPU GPUBuffer.t :=
  fun d =>
    if size <? 0 then Fail TypeError
    else if mappedAtCreation && negb (size mod 4 =? 0) then Fail RangeError
    else if maxBufferSize d <? size then Fail (OutOfMemory size)
    else
      let b := {| GPUBuffer.id := length (memory d);
                  GPUBuffer.size := size; GPUBuffer.usage := usage |} in
      Ok (b, update d (memory d ++ [replicate (Z.to_nat size) 0])
                      [EvCreateBuffer b mappedAtCreation]).

(** [new TypedArray(b.getMappedRange()).set(data); b.unmap()]: [set] throws
    a [RangeError] when the source is longer than the mapped range. *)
Definition setMappedRange (b : GPUBuffer.t) (data : list Z) : GPU unit :=
  fun d =>
    if GPUBuffer.size b <? Z.of_nat (length data) then Fail RangeError
    else Ok (tt, update d (write_at (memory d) b 0 data) [EvUnmap b]).

(** [b.unmap()] *)
Definition unmap (b : GPUBuffer.t) : GPU unit :=
  fun d => Ok (tt, update d (memory d) [EvUnmap b]).

(** [device.createBindGroup]: never throws; entries that break the rules
    make the bind group invalid, which the device reports out of band. *)
Definition createBindGroup (entries : list BufferBinding) : GPU unit :=
  fun d => Ok (tt, update d (memory d) [EvCreateBindGroup entries]).

Section Commands.
Context {P : Platform}.

(** The isovalue word that the kernels read from the volume-info block,
    which holds it from byte 16 on. *)
Definition isovalue_word (info : list Z) : Z :=
  match drop 16 info with
  | b0 :: b1 :: b2 :: b3 :: _ => u32_of_le b0 b1 b2 b3
  | _ => 0
  end.

(** Modelled from the spec: the items that one chunk of the vertex-count
    pass of the absent [compute_num_verts.wgsl] covers: 32 per workgroup,
    from the chunk base that the push-constant block at the dynamic offset
    holds, cut at the length of the ID list. *)
Definition chunk_items (pc : list Z) (dynamicOffset x : Z) (nIDs : Z) : list Z :=
  match drop (Z.to_nat dynamicOffset) pc with
  | b0 :: b1 :: b2 :: b3 :: _ =>
      filter (fun i => i < nIDs) (seqZ (u32_of_le b0 b1 b2 b3 * 32) (x * 32))
  | _ => []
  end.

(** Modelled from the spec: the flags that the classification kernel of the
    absent [mark_active_voxel.wgsl] writes, one per dual-grid voxel in voxel
    order: 1 where the surface crosses the voxel, else 0. *)
Definition flag_words (v : Volume) (iso : Z) : list Z :=
  map (fun i => if voxel_crosses v iso i then 1 else 0) (seqZ 0 (dualGridNumVoxels v)).

(** What a command does to the memory when the queue runs it.  A copy moves
    bytes between buffers.  Modelled from the spec: the dispatches of the
    absent WGSL kernels; the classification writes the flags into the buffer
    of its bind group 1, the vertex-count pass writes, for every item of its
    chunk, the vertex count of the voxel the ID list names at that item. *)
Definition exec (mem : list (list Z)) (c : Command) : list (list Z) :=
  match c with
  | copyBufferToBuffer src srcOffset dst dstOffset n =>
      write_at mem dst dstOffset
        (take (Z.to_nat n) (drop (Z.to_nat srcOffset) (bytes_at mem src)))
  | dispatchMarkActiveVoxel bg0 active x y z =>
      let iso := isovalue_word (bytes_at mem (bg_volumeInfo bg0)) in
      write_at mem active 0 (bytes_of_words (flag_words (bg_texture bg0) iso))
  | dispatchComputeNumVerts bg0 bg1 bg2 dynamicOffset x y z =>
      let v := bg_texture bg0 in
      let iso := isovalue_word (bytes_at mem (bg_volumeInfo bg0)) in
      let ids := words_of_bytes (bytes_at mem (bg_activeIDs bg1)) in
      foldl (fun m i =>
               write_at m (bg_numVerts bg1) (4 * i)
                 (u32_le (voxel_num_verts v iso (default 0 (ids !! Z.to_nat i)))))
            mem
            (chunk_items (bytes_at mem (bg_pushConstants bg2)) dynamicOffset x
                         (Z.of_nat (length ids)))
  | setBindGroup _ _ => mem
  | draw _ _ _ _ _ _ => mem
  end.

(** The arguments of [dispatchWorkgroups], [draw] and dynamic offsets are
    unsigned 32-bit integers and those of [copyBufferToBuffer] unsigned:
    the call that records a command with an argument outside its range
    throws a [TypeError]. *)
Definition in_u32 (x : Z) : bool := (0 <=? x) && (x <? 2 ^ 32).

Definition recordable (c : Command) : bool :=
  match c with
  | copyBufferToBuffer _ srcOffset _ dstOffset n =>
      (0 <=? srcOffset) && (0 <=? dstOffset) && (0 <=? n)
  | setBindGroup index _ => in_u32 index
  | dispatchMarkActiveVoxel _ _ x y z => in_u32 x && in_u32 y && in_u32 z
  | dispatchComputeNumVerts _ _ _ dynamicOffset x y z =>
      in_u32 dynamicOffset && in_u32 x && in_u32 y && in_u32 z
  | draw _ _ vertexCount instanceCount firstVertex firstInstance =>
      in_u32 vertexCount && in_u32 instanceCount && in_u32 firstVertex
      && in_u32 firstInstance
  end.

(** [copyBufferToBuffer] is valid when the source may be copied from and
    the destination copied to, offsets and size are multiples of 4, the
    range lies within both buffers, and the two buffers differ. *)
Definition copy_valid (c : Command) : bool :=
  match c with
  | copyBufferToBuffer src srcOffset dst dstOffset n =>
      has_usage GPUBufferUsage.COPY_SRC src && has_usage GPUBufferUsage.COPY_DST dst
      && (0 <=? srcOffset) && (0 <=? dstOffset) && (0 <=? n)
      && (srcOffset mod 4 =? 0) && (dstOffset mod 4 =? 0) && (n mod 4 =? 0)
      && (srcOffset + n <=? GPUBuffer.size src)
      && (dstOffset + n <=? GPUBuffer.size dst)
      && negb (GPUBuffer.id src =? GPUBuffer.id dst)%nat
  | _ => true
  end.

(** What the device asks of a recorded command: of a copy the above; of a
    bind group set in a pass that it is valid; of a dispatch that the bind
    groups set for it are valid and that the binding moved by a dynamic
    offset still lies inside its buffer; of a draw that its bind group is
    valid, that the vertex buffer has [VERTEX] and that the vertex fetch
    ends inside it. *)
Definition command_valid (c : Command) : bool :=
  match c with
  | copyBufferToBuffer _ _ _ _ _ => copy_valid c
  | setBindGroup _ entries => forallb binding_valid entries
  | dispatchMarkActiveVoxel bg0 bg1 _ _ _ =>
      forallb binding_valid (volumeInfoBG_entries bg0 ++ markActiveBG_entries bg1)
  | dispatchComputeNumVerts bg0 bg1 bg2 dynamicOffset _ _ _ =>
      forallb binding_valid
        (volumeInfoBG_entries bg0 ++ computeNumVertsBG_entries bg1
         ++ pushConstantsBG_entries bg2)
      && (dynamicOffset + bg_size bg2 <=? GPUBuffer.size (bg_pushConstants bg2))
  | draw bg0 vertexBuffer vertexCount _ firstVertex _ =>
      binding_valid {| binding_type := uniform; binding_buffer := bg0;
                       binding_size := None |}
      && has_usage GPUBufferUsage.VERTEX vertexBuffer
      && (foldr Z.max 0 (map (fun layout => App.bytes_fetched layout vertexCount firstVertex)
                             App.vertexState_buffers)
          <=? GPUBuffer.size vertexBuffer)
  end.

(** [device.queue.submit([commandEncoder.finish()])], with the commands the
    encoder recorded since it was created.  Recording throws where an
    argument is out of range.  A command buffer with an invalid command is
    invalid as a whole: the device rejects the submission and runs none of
    its commands. *)
Definition submit (cmds : list Command) : GPU unit :=
  fun d =>
    if negb (forallb recordable cmds) then Fail TypeError
    else if forallb command_valid cmds
         then Ok (tt, update d (foldl exec (memory d) cmds) [EvSubmit cmds])
         else Ok (tt, update d (memory d) [EvSubmit cmds]).

(** [await device.queue.onSubmittedWorkDone()] *)
Definition onSubmittedWorkDone : GPU unit :=
  fun d => Ok (tt, update d (memory d) [EvWorkDone]).

(** [await b.mapAsync(GPUMapMode.READ); new Uint32Array(b.getMappedRange())] *)
Definition mapRead (b : GPUBuffer.t) : GPU (list Z) :=
  fun d => Ok (words_of_bytes (bytes_at (memory d) b),
               update d (memory d) [EvMapRead b]).

End Commands.

(** ** Exclusive scan *)

Module ExclusiveScan.
Section Scan.
Context {P : Platform}.

(** Modelled from the spec: [getAlignedSize] of the absent [exclusive_scan.ts];
    the smallest multiple of the block size that is at least [n]. *)
Definition getAlignedSize (n : Z) : Z :=
  ceil_div n ScanBlockSize * ScanBlockSize.

(** Local exclusive prefix sum of one block, started at [acc], with the
    running total behind the last element. *)
Fixpoint block_scan (acc : Z) (l : list Z) : list Z * Z :=
  match l with
  | [] => ([], acc)
  | x :: l' => let (r, t) := block_scan (acc + x) l' in (acc :: r, t)
  end.

(** The input cut into blocks of [ScanBlockSize] elements (the last one may
    be shorter); [fuel] bounds the number of blocks. *)
Fixpoint blocks (fuel : nat) (l : list Z) : list (list Z) :=
  match fuel, l with
  | S f, _ :: _ =>
      take (Z.to_nat ScanBlockSize) l :: blocks f (drop (Z.to_nat ScanBlockSize) l)
  | _, _ => []
  end.

(** The follow-up pass: every element of a block gets the block's base. *)
Definition add_block_base (base : Z) (blk : list Z * Z) : list Z :=
  map (Z.add base) (fst blk).

(** Modelled from the spec: the recursion of [scan] in the absent
    [exclusive_scan.ts].  Every block computes its local exclusive prefix sum
    and its total; when there is more than one block the block totals are
    scanned by the same primitive and each block's base is added to its
    elements; a single block ends the recursion.  [None] when [fuel]
    recursion levels were not enough. *)
Fixpoint scan_rec (fuel : nat) (l : list Z) : option (list Z * Z) :=
  match fuel with
  | O => None
  | S f =>
      if (Z.of_nat (length l) <=? ScanBlockSize) then Some (block_scan 0 l)
      else
        let scanned := map (block_scan 0) (blocks (length l) l) in
        match scan_rec f (map snd scanned) with
        | None => None
        | Some (bases, total) =>
            Some (concat (zip_with add_block_base bases scanned), total)
        end
  end.

(** Modelled from the spec: [scan(buffer, n)] of the absent
    [exclusive_scan.ts] on the words of the buffer.  The first
    [getAlignedSize n] words are scanned in place, the rest is left as it is;
    the second component is the total handed back to the host. *)
Definition scan_words (buf : list Z) (n : Z) : option (list Z * Z) :=
  let m := Z.to_nat (getAlignedSize n) in
  match scan_rec (S (length buf)) (take m buf) with
  | None => None
  | Some (pre, total) => Some (pre ++ drop m buf, total)
  end.

(** Modelled from the spec: [scan(buffer, n)] of the absent
    [exclusive_scan.ts] as the host sees it; when it returns, the buffer is
    scanned in place and the total has been read back. *)
Definition scan (buffer : GPUBuffer.t) (n : Z) : GPU Z :=
  fun d =>
    match scan_words (words_of_bytes (bytes_at (memory d) buffer)) n with
    | None => Fail ScanOutOfFuel
    | Some (out, total) =>
        Ok (total, update d (write_at (memory d) buffer 0 (bytes_of_words out))
                            [EvScan buffer n total])
    end.

End Scan.
End ExclusiveScan.

(** ** Stream compaction *)

Module StreamCompactIDs.

(** Modelled from the spec: the scatter of the absent [stream_compact_ids.ts];
    every element [i < n] with a nonzero flag is written at
    [output[offsets[i]]], the output is otherwise untouched. *)
Definition compact_words (flags offsets output : list Z) (n : nat) : list Z :=
  foldl (fun out i =>
           match flags !! i, offsets !! i with
           | Some f, Some o =>
               if f =? 0 then out
               else if o <? 0 then out
               else <[Z.to_nat o := Z.of_nat i]> out
           | _, _ => out
           end) output (seq 0 n).

(** The indices of the nonzero flags of [fl], counted from [i], in ascending
    order: what a sequential compaction would list. *)
Fixpoint active_ids (i : nat) (fl : list Z) : list Z :=
  match fl with
  | [] => []
  | f :: fl' =>
      if f =? 0 then active_ids (S i) fl' else Z.of_nat i :: active_ids (S i) fl'
  end.

(** A flag is 0 or 1. *)
Definition is_flag (x : Z) : Prop := x = 0 \/ x = 1.

(** The spec's re-expansion of an ID list: a flag set at every listed index
    of an all-zero buffer of [m] flags. *)
Definition expand (ids : list Z) (m : nat) : list Z :=
  foldl (fun acc id => if id <? 0 then acc else <[Z.to_nat id := 1]> acc)
        (replicate m 0) ids.

(** Modelled from the spec: [compactActiveIDs] of the absent
    [stream_compact_ids.ts] as the host sees it. *)
Definition compactActiveIDs (isActive offsets ids : GPUBuffer.t) (n : Z) : GPU unit :=
  fun d =>
    let mem := memory d in
    Ok (tt, update d
              (write_at mem ids 0
                 (bytes_of_words
                    (compact_words (words_of_bytes (bytes_at mem isActive))
                                   (words_of_bytes (bytes_at mem offsets))
                                   (words_of_bytes (bytes_at mem ids))
                                   (Z.to_nat n))))
              [EvCompact isActive offsets ids n]).

End StreamCompactIDs.

(** ** Dispatch chunking *)

Module PushConstants.

(** Modelled from the spec: the [PushConstants] of the absent
    [push_constant_builder.ts].  The work groups are cut into chunks of at
    most the device's per-dimension limit; the backing buffer holds, one
    [stride] apart, a block per chunk: the chunk's base followed by the
    caller's constants. *)
Record t := {
  totalWorkGroups : Z;
  maxWorkgroupsPerDimension : Z;
  stride : Z;
  pushConstantsBuffer : GPUBuffer.t
}.

Definition numDispatches (pc : t) : Z :=
  ceil_div (totalWorkGroups pc) (maxWorkgroupsPerDimension pc).

Definition dispatchSize (pc : t) (i : Z) : Z :=
  if i + 1 <? numDispatches pc then maxWorkgroupsPerDimension pc
  else totalWorkGroups pc - i * maxWorkgroupsPerDimension pc.

Definition block (cap stride : Z) (appPushConstants : list Z) (i : Z) : list Z :=
  take (Z.to_nat stride)
       (u32_le (i * cap) ++ appPushConstants ++ replicate (Z.to_nat stride) 0).

Definition new (totalWorkGroups : Z) (appPushConstants : list Z) : GPU t :=
  limits <- deviceLimits ;;
  let cap := limits.1 in
  let stride := limits.2 in
  let nDispatches := ceil_div totalWorkGroups cap in
  buf <- createBuffer (nDispatches * stride) GPUBufferUsage.UNIFORM true ;;
  setMappedRange buf
    (concat (map (block cap stride appPushConstants) (seqZ 0 nDispatches))) ;;;
  ret {| totalWorkGroups := totalWorkGroups;
         maxWorkgroupsPerDimension := cap;
         stride := stride;
         pushConstantsBuffer := buf |}.

End PushConstants.

(** ** The orchestrator ([marching_cubes.ts]) *)

Record MarchingCubes := {
  volume : Volume;
  triCaseTable : GPUBuffer.t;
  volumeInfo : GPUBuffer.t;
  voxelActive : GPUBuffer.t;
  volumeInfoBG : VolumeInfoBG;
  markActiveBG : GPUBuffer.t
}.

Section Orchestrator.
Context {P : Platform}.
Import GPUBufferUsage.

Definition dims_words (v : Volume) : list Z :=
  let '(x, y, z) := dims v in [x; y; z].

(** [MarchingCubes.create]; compiling the shaders and declaring layouts and
    pipelines leaves no trace on the device memory and is not logged.
    [ExclusiveScan.create] and [StreamCompactIDs.create] of the absent
    modules are taken to create no buffer. *)
Definition create (volume : Volume) : GPU MarchingCubes :=
  triCaseTable <- createBuffer (4 * Z.of_nat (length MC_CASE_TABLE)) STORAGE true ;;
  setMappedRange triCaseTable (bytes_of_words MC_CASE_TABLE) ;;;
  volumeInfo <- createBuffer (8 * 4) (Z.lor UNIFORM COPY_DST) true ;;
  setMappedRange volumeInfo (bytes_of_words (dims_words volume)) ;;;
  voxelActive <-
    createBuffer (ExclusiveScan.getAlignedSize (dualGridNumVoxels volume) * 4)
                 (Z.lor STORAGE COPY_SRC) false ;;
  let volumeInfoBG := {| bg_texture := volume; bg_volumeInfo := volumeInfo |} in
  createBindGroup (volumeInfoBG_entries volumeInfoBG) ;;;
  createBindGroup (markActiveBG_entries voxelActive) ;;;
  ret {| volume := volume;
         triCaseTable := triCaseTable;
         volumeInfo := volumeInfo;
         voxelActive := voxelActive;
         volumeInfoBG := volumeInfoBG;
         markActiveBG := voxelActive |}.

Definition uploadIsovalue (mc : MarchingCubes) (isovalue : number) : GPU unit :=
  uploadIsovalue <- createBuffer 4 COPY_SRC true ;;
  setMappedRange uploadIsovalue (u32_le (float32_bits isovalue)) ;;;
  submit [copyBufferToBuffer uploadIsovalue 0 (volumeInfo mc) 16 4].

Definition computeActiveVoxels (mc : MarchingCubes) : GPU MarchingCubesResult :=
  let '(d0, d1, d2) := dualGridDims (volume mc) in
  let dispatchSize := (ceil_div d0 4, ceil_div d1 4, ceil_div d2 2) in
  activeVoxelOffsets <-
    createBuffer (GPUBuffer.size (voxelActive mc))
                 (Z.lor (Z.lor COPY_DST COPY_SRC) STORAGE) false ;;
  submit [dispatchMarkActiveVoxel (volumeInfoBG mc) (markActiveBG mc)
            (dispatchSize.1.1) (dispatchSize.1.2) (dispatchSize.2);
          copyBufferToBuffer (voxelActive mc) 0 activeVoxelOffsets 0
            (GPUBuffer.size activeVoxelOffsets)] ;;;
  onSubmittedWorkDone ;;;
  nActive <- ExclusiveScan.scan activeVoxelOffsets (dualGridNumVoxels (volume mc)) ;;
  activeVoxelIDs <- createBuffer (nActive * 4) (Z.lor STORAGE COPY_SRC) false ;;
  StreamCompactIDs.compactActiveIDs (voxelActive mc) activeVoxelOffsets activeVoxelIDs
    (dualGridNumVoxels (volume mc)) ;;;
  (* readback of flags and offsets for validation; the number of nonzero
     flags goes to the console *)
  debugActive <- createBuffer (dualGridNumVoxels (volume mc) * 4)
                              (Z.lor MAP_READ COPY_DST) false ;;
  debugOffset <- createBuffer (dualGridNumVoxels (volume mc) * 4)
                              (Z.lor MAP_READ COPY_DST) false ;;
  submit [copyBufferToBuffer (voxelActive mc) 0 debugActive 0 (GPUBuffer.size debugActive);
          copyBufferToBuffer activeVoxelOffsets 0 debugOffset 0 (GPUBuffer.size debugOffset)] ;;;
  onSubmittedWorkDone ;;;
  activeVoxels <- mapRead debugActive ;;
  offsets <- mapRead debugOffset ;;
  unmap debugActive ;;;
  unmap debugOffset ;;;
  (* readback of the ID list for validation *)
  debugBuf <- createBuffer (nActive * 4) (Z.lor MAP_READ COPY_DST) false ;;
  submit [copyBufferToBuffer activeVoxelIDs 0 debugBuf 0 (GPUBuffer.size activeVoxelIDs)] ;;;
  onSubmittedWorkDone ;;;
  activeVoxels <- mapRead debugBuf ;;
  unmap debugBuf ;;;
  ret {| count := nActive; buffer := activeVoxelIDs |}.

Definition computeVertexOffsets (mc : MarchingCubes) (activeVoxels : MarchingCubesResult)
  : GPU MarchingCubesResult :=
  vertexOffsets <-
    createBuffer (ExclusiveScan.getAlignedSize (count activeVoxels) * 4)
                 (Z.lor (Z.lor STORAGE COPY_DST) COPY_SRC) false ;;
  let bindGroup := {| bg_caseTable := triCaseTable mc;
                      bg_activeIDs := buffer activeVoxels;
                      bg_numVerts := vertexOffsets |} in
  createBindGroup (computeNumVertsBG_entries bindGroup) ;;;
  pushConstants <-
    PushConstants.new (ceil_div (count activeVoxels) 32) (u32_le (count activeVoxels)) ;;
  let pushConstantsBG :=
    {| bg_pushConstants := PushConstants.pushConstantsBuffer pushConstants;
       bg_size := 12 |} in
  createBindGroup (pushConstantsBG_entries pushConstantsBG) ;;;
  submit (setBindGroup 0 (volumeInfoBG_entries (volumeInfoBG mc))
          :: setBindGroup 1 (computeNumVertsBG_entries bindGroup)
          :: map (fun i =>
                    dispatchComputeNumVerts (volumeInfoBG mc) bindGroup pushConstantsBG
                      (i * PushConstants.stride pushConstants)
                      (PushConstants.dispatchSize pushConstants i) 1 1)
                 (seqZ 0 (PushConstants.numDispatches pushConstants))) ;;;
  onSubmittedWorkDone ;;;
  nVertices <- ExclusiveScan.scan vertexOffsets (count activeVoxels) ;;
  ret {| count := nVertices; buffer := vertexOffsets |}.

Definition computeVertices (mc : MarchingCubes)
    (activeVoxels vertexOffsets : MarchingCubesResult) : GPU GPUBuffer.t :=
  (* We'll output a vec3 per vertex *)
  vertices <- createBuffer (count vertexOffsets * 3 * 4) (Z.lor STORAGE VERTEX) false ;;
  ret vertices.

Definition computeSurface (mc : MarchingCubes) (isovalue : number)
  : GPU MarchingCubesResult :=
  uploadIsovalue mc isovalue ;;;
  activeVoxels <- computeActiveVoxels mc ;;
  vertexOffsets <- computeVertexOffsets mc activeVoxels ;;
  vertices <- computeVertices mc activeVoxels vertexOffsets ;;
  ret {| count := count vertexOffsets; buffer := vertices |}.

End Orchestrator.

(** ** What a stretch of host code does to the device *)

(** The buffers a command writes when it runs. *)
Definition dsts_of (c : Command) : list nat :=
  match c with
  | copyBufferToBuffer _ _ dst _ _ => [GPUBuffer.id dst]
  | setBindGroup _ _ => []
  | dispatchMarkActiveVoxel _ active _ _ _ => [GPUBuffer.id active]
  | dispatchComputeNumVerts _ bg1 _ _ _ _ _ => [GPUBuffer.id (bg_numVerts bg1)]
  | draw _ _ _ _ _ _ => []
  end.

Definition mkbuf (i : nat) (size usage : Z) : GPUBuffer.t :=
  {| GPUBuffer.id := i; GPUBuffer.size := size; GPUBuffer.usage := usage |}.

(** [evolves W k evs d d']: from [d] to [d'] the limits are the same, [k]
    buffers were created, the buffers of [d] outside [W] hold what they
    held, and [evs] was appended to the log. *)
Record evolves (W : list nat) (k : nat) (evs : list Event) (d d' : GPUDevice) : Prop := {
  ev_max : maxBufferSize d' = maxBufferSize d;
  ev_cap : maxComputeWorkgroupsPerDimension d' = maxComputeWorkgroupsPerDimension d;
  ev_stride : minUniformBufferOffsetAlignment d' = minUniformBufferOffsetAlignment d;
  ev_len : length (memory d') = (k + length (memory d))%nat;
  ev_frame : forall j, j ∉ W -> (j < length (memory d))%nat -> memory d' !! j = memory d !! j;
  ev_log : log d' = log d ++ evs
}.

Arguments ev_max {W k evs d d'} _.
Arguments ev_cap {W k evs d d'} _.
Arguments ev_stride {W k evs d d'} _.
Arguments ev_len {W k evs d d'} _.
Arguments ev_frame {W k evs d d'} _ _ _ _.
Arguments ev_log {W k evs d d'} _.

Section Traces.
Context {P : Platform}.
Import GPUBufferUsage.

(** The events of each stage, on a device that holds [base] buffers when the
    stage starts.  That a stage that returns has logged just these is shown
    with the stage below. *)
Definition uploadIsovalue_trace (mc : MarchingCubes) (base : nat) : list Event :=
  let up := mkbuf base 4 COPY_SRC in
  [ EvCreateBuffer up true; EvUnmap up;
    EvSubmit [copyBufferToBuffer up 0 (volumeInfo mc) 16 4] ].

Definition computeActiveVoxels_trace (mc : MarchingCubes) (base : nat) (nActive : Z)
  : list Event :=
  let n := dualGridNumVoxels (volume mc) in
  let g := dualGridDims (volume mc) in
  let offs := mkbuf base (GPUBuffer.size (voxelActive mc))
                    (Z.lor (Z.lor COPY_DST COPY_SRC) STORAGE) in
  let ids := mkbuf (1 + base) (nActive * 4) (Z.lor STORAGE COPY_SRC) in
  let debugActive := mkbuf (2 + base) (n * 4) (Z.lor MAP_READ COPY_DST) in
  let debugOffset := mkbuf (3 + base) (n * 4) (Z.lor MAP_READ COPY_DST) in
  let debugBuf := mkbuf (4 + base) (nActive * 4) (Z.lor MAP_READ COPY_DST) in
  [ EvCreateBuffer offs false;
    EvSubmit [ dispatchMarkActiveVoxel (volumeInfoBG mc) (markActiveBG mc)
                 (ceil_div g.1.1 4) (ceil_div g.1.2 4) (ceil_div g.2 2);
               copyBufferToBuffer (voxelActive mc) 0 offs 0 (GPUBuffer.size (voxelActive mc)) ];
    EvWorkDone;
    EvScan offs n nActive;
    EvCreateBuffer ids false;
    EvCompact (voxelActive mc) offs ids n;
    EvCreateBuffer debugActive false;
    EvCreateBuffer debugOffset false;
    EvSubmit [ copyBufferToBuffer (voxelActive mc) 0 debugActive 0 (n * 4);
               copyBufferToBuffer offs 0 debugOffset 0 (n * 4) ];
    EvWorkDone;
    EvMapRead debugActive;
    EvMapRead debugOffset;
    EvUnmap debugActive;
    EvUnmap debugOffset;
    EvCreateBuffer debugBuf false;
    EvSubmit [ copyBufferToBuffer ids 0 debugBuf 0 (nActive * 4) ];
    EvWorkDone;
    EvMapRead debugBuf;
    EvUnmap debugBuf ].

Definition computeVertexOffsets_trace (mc : MarchingCubes) (activeVoxels : MarchingCubesResult)
    (base : nat) (cap stride nVertices : Z) : list Event :=
  let vertexOffsets :=
    mkbuf base (ExclusiveScan.getAlignedSize (count activeVoxels) * 4)
          (Z.lor (Z.lor STORAGE COPY_DST) COPY_SRC) in
  let nDispatches := ceil_div (ceil_div (count activeVoxels) 32) cap in
  let pcBuffer := mkbuf (1 + base) (nDispatches * stride) UNIFORM in
  let pushConstants :=
    {| PushConstants.totalWorkGroups := ceil_div (count activeVoxels) 32;
       PushConstants.maxWorkgroupsPerDimension := cap;
       PushConstants.stride := stride;
       PushConstants.pushConstantsBuffer := pcBuffer |} in
  [ EvCreateBuffer vertexOffsets false;
    EvCreateBindGroup
      (computeNumVertsBG_entries
         {| bg_caseTable := triCaseTable mc;
            bg_activeIDs := buffer activeVoxels;
            bg_numVerts := vertexOffsets |});
    EvCreateBuffer pcBuffer true;
    EvUnmap pcBuffer;
    EvCreateBindGroup (pushConstantsBG_entries {| bg_pushConstants := pcBuffer; bg_size := 12 |});
    EvSubmit
      (setBindGroup 0 (volumeInfoBG_entries (volumeInfoBG mc))
       :: setBindGroup 1
            (computeNumVertsBG_entries
               {| bg_caseTable := triCaseTable mc;
                  bg_activeIDs := buffer activeVoxels;
                  bg_numVerts := vertexOffsets |})
       :: map (fun i =>
                 dispatchComputeNumVerts (volumeInfoBG mc)
                   {| bg_caseTable := triCaseTable mc;
                      bg_activeIDs := buffer activeVoxels;
                      bg_numVerts := vertexOffsets |}
                   {| bg_pushConstants := pcBuffer; bg_size := 12 |}
                   (i * stride) (PushConstants.dispatchSize pushConstants i) 1 1)
              (seqZ 0 nDispatches));
    EvWorkDone;
    EvScan vertexOffsets (count activeVoxels) nVertices ].

Definition computeSurface_trace (mc : MarchingCubes) (base : nat)
    (cap stride nActive nVertices : Z) : list Event :=
  let ids := mkbuf (2 + base) (nActive * 4) (Z.lor STORAGE COPY_SRC) in
  uploadIsovalue_trace mc base
  ++ computeActiveVoxels_trace mc (1 + base) nActive
  ++ computeVertexOffsets_trace mc {| count := nActive; buffer := ids |}
       (6 + base) cap stride nVertices
  ++ [ EvCreateBuffer (mkbuf (8 + base) (nVertices * 3 * 4) (Z.lor STORAGE VERTEX)) false ].

(** The workgroup counts of the classification dispatch are within the
    limit of the device. *)
Definition classification_within_limit (mc : MarchingCubes) (d : GPUDevice) : Prop :=
  let '(g0, g1, g2) := dualGridDims (volume mc) in
  ceil_div g0 4 <= maxComputeWorkgroupsPerDimension d
  /\ ceil_div g1 4 <= maxComputeWorkgroupsPerDimension d
  /\ ceil_div g2 2 <= maxComputeWorkgroupsPerDimension d.

(** Whether the device runs the first submission of the classification
    stage, which dispatches the kernel and copies the flags to the offsets
    buffer, on a device that holds [base] buffers when the stage starts. *)
Definition classification_accepted (mc : MarchingCubes) (base : nat) : bool :=
  let g := dualGridDims (volume mc) in
  let offs := mkbuf base (GPUBuffer.size (voxelActive mc))
                    (Z.lor (Z.lor COPY_DST COPY_SRC) STORAGE) in
  forallb command_valid
    [ dispatchMarkActiveVoxel (volumeInfoBG mc) (markActiveBG mc)
        (ceil_div g.1.1 4) (ceil_div g.1.2 4) (ceil_div g.2 2);
      copyBufferToBuffer (voxelActive mc) 0 offs 0 (GPUBuffer.size (voxelActive mc)) ].

(** The buffers one call creates for the stages, on a device that holds
    [base] buffers when the call starts. *)
Definition offsets_of (mc : MarchingCubes) (base : nat) : GPUBuffer.t :=
  mkbuf (1 + base) (GPUBuffer.size (voxelActive mc))
        (Z.lor (Z.lor COPY_DST COPY_SRC) STORAGE).

Definition ids_of (base : nat) (nActive : Z) : GPUBuffer.t :=
  mkbuf (2 + base) (nActive * 4) (Z.lor STORAGE COPY_SRC).

Definition vertexOffsets_of (base : nat) (nActive : Z) : GPUBuffer.t :=
  mkbuf (6 + base) (ExclusiveScan.getAlignedSize nActive * 4)
        (Z.lor (Z.lor STORAGE COPY_DST) COPY_SRC).

Definition vertices_of (base : nat) (nVertices : Z) : GPUBuffer.t :=
  mkbuf (8 + base) (nVertices * 3 * 4) (Z.lor STORAGE VERTEX).

End Traces.

(** ** Orchestrators on a device *)

(** The orchestrator that [create] returns on a device that held [b0]
    buffers before; that it does is shown with [create] below. *)
Definition created_at {P : Platform} (v : Volume) (b0 : nat) : MarchingCubes :=
  let info :=
    mkbuf (1 + b0) (8 * 4) (Z.lor GPUBufferUsage.UNIFORM GPUBufferUsage.COPY_DST) in
  let active :=
    mkbuf (2 + b0) (ExclusiveScan.getAlignedSize (dualGridNumVoxels v) * 4)
          (Z.lor GPUBufferUsage.STORAGE GPUBufferUsage.COPY_SRC) in
  {| volume := v;
     triCaseTable := mkbuf b0 (4 * Z.of_nat (length MC_CASE_TABLE)) GPUBufferUsage.STORAGE;
     volumeInfo := info;
     voxelActive := active;
     volumeInfoBG := {| bg_texture := v; bg_volumeInfo := info |};
     markActiveBG := active |}.

Section Validity.
Context {P : Platform}.

(** What [create] establishes and every [computeSurface] call keeps: the
    orchestrator is the record [create] built and its buffers exist on the
    device, the bind groups name them,
    the volume-info block starts with the dims, and the flag buffer has the
    aligned size with zeros behind the last voxel's flag. *)
Record mc_valid (mc : MarchingCubes) (d : GPUDevice) : Prop := {
  mv_created :
    exists b0, mc = created_at (volume mc) b0 /\ (3 + b0 <= length (memory d))%nat;
  mv_infoBG :
    volumeInfoBG mc = {| bg_texture := volume mc; bg_volumeInfo := volumeInfo mc |};
  mv_activeBG : markActiveBG mc = voxelActive mc;
  mv_table_lt : (GPUBuffer.id (triCaseTable mc) < length (memory d))%nat;
  mv_info_lt : (GPUBuffer.id (volumeInfo mc) < length (memory d))%nat;
  mv_active_lt : (GPUBuffer.id (voxelActive mc) < length (memory d))%nat;
  mv_distinct : GPUBuffer.id (volumeInfo mc) <> GPUBuffer.id (voxelActive mc);
  mv_info_dims :
    take 16 (bytes_at (memory d) (volumeInfo mc))
    = bytes_of_words (dims_words (volume mc)) ++ [0; 0; 0; 0];
  mv_info_len : length (bytes_at (memory d) (volumeInfo mc)) = 32%nat;
  mv_active_size :
    GPUBuffer.size (voxelActive mc)
    = ExclusiveScan.getAlignedSize (dualGridNumVoxels (volume mc)) * 4;
  mv_active_fits : 0 <= GPUBuffer.size (voxelActive mc) <= maxBufferSize d;
  mv_max : 32 <= maxBufferSize d;
  mv_active_len :
    length (bytes_at (memory d) (voxelActive mc))
    = Z.to_nat (GPUBuffer.size (voxelActive mc));
  mv_active_pad :
    forall (i : nat) x,
      (4 * Z.to_nat (dualGridNumVoxels (volume mc)) <= i)%nat ->
      bytes_at (memory d) (voxelActive mc) !! i = Some x -> x = 0
}.

(** The devices an orchestrator lives on: the one [create] returned it on,
    and the ones its [computeSurface] calls lead to. *)
Inductive reachable (mc : MarchingCubes) : GPUDevice -> Prop :=
| reach_create v d0 d :
    create v d0 = Ok (mc, d) -> reachable mc d
| reach_surface isovalue d res d' :
    reachable mc d -> computeSurface mc isovalue d = Ok (res, d') -> reachable mc d'.

(** A computation that returns, with a postcondition on what it returns. *)
Definition succeeds {A} (m : GPU A) (d : GPUDevice) (Q : A -> GPUDevice -> Prop) : Prop :=
  exists a d', m d = Ok (a, d') /\ Q a d'.

End Validity.

(** The buffers an event involves. *)
Definition buffers_of_command (c : Command) : list GPUBuffer.t :=
  match c with
  | copyBufferToBuffer src _ dst _ _ => [src; dst]
  | setBindGroup _ entries => map binding_buffer entries
  | dispatchMarkActiveVoxel bg0 active _ _ _ => [bg_volumeInfo bg0; active]
  | dispatchComputeNumVerts bg0 bg1 bg2 _ _ _ _ =>
      [bg_volumeInfo bg0; bg_caseTable bg1; bg_activeIDs bg1; bg_numVerts bg1;
       bg_pushConstants bg2]
  | draw bg0 vertexBuffer _ _ _ _ => [bg0; vertexBuffer]
  end.

Definition buffers_of_event (e : Event) : list GPUBuffer.t :=
  match e with
  | EvCreateBuffer b _ => [b]
  | EvUnmap b => [b]
  | EvSubmit cmds => concat (map buffers_of_command cmds)
  | EvWorkDone => []
  | EvScan b _ _ => [b]
  | EvCompact flags offsets ids _ => [flags; offsets; ids]
  | EvMapRead b => [b]
  | EvCreateBindGroup entries => map binding_buffer entries
  end.

Definition mentions (b : GPUBuffer.t) (e : Event) : Prop :=
  GPUBuffer.id b ∈ map GPUBuffer.id (buffers_of_event e).

(** ** A small platform to run the model on *)

Definition demo_platform : Platform := {|
  ScanBlockSize := 4;
  MC_CASE_TABLE := [0; 8; 3; -1; 0; 1; 9; -1];
  number := Z;
  float32_bits := fun x => x;
  voxel_crosses := fun v iso i => default 0 (texture v !! Z.to_nat i) <? iso;
  voxel_num_verts := fun v iso i => 3 * (1 + i mod 2)
|}.

Definition demo_device : GPUDevice := {|
  maxBufferSize := 1024;
  maxComputeWorkgroupsPerDimension := 2;
  minUniformBufferOffsetAlignment := 16;
  memory := [];
  log := []
|}.

(** 3 x 3 x 2 samples: 2 x 2 x 1 voxels. *)
Definition demo_volume : Volume := {| dims := (3, 3, 2); texture := [5; 1; 7; 2] |}.

(** 1 x 3 x 3 samples: the dual grid has no voxel along x. *)
Definition flat_volume : Volume := {| dims := (1, 3, 3); texture := [] |}.

Definition outcome {A} (r : Result (A * GPUDevice)) (a0 : A) : A * GPUDevice :=
  match r with
  | Ok x => x
  | Fail _ => (a0, demo_device)
  end.

Definition demo_created : MarchingCubes * GPUDevice :=
  Eval vm_compute in
    outcome (create (P := demo_platform) demo_volume demo_device)
            {| volume := demo_volume;
               triCaseTable := mkbuf 0 0 0; volumeInfo := mkbuf 0 0 0;
               voxelActive := mkbuf 0 0 0;
               volumeInfoBG := {| bg_texture := demo_volume; bg_volumeInfo := mkbuf 0 0 0 |};
               markActiveBG := mkbuf 0 0 0 |}.

Definition demo_mc : MarchingCubes := demo_created.1.
Definition demo_d1 : GPUDevice := demo_created.2.

(** Isovalue 3 cuts voxels 1 and 3 (samples 1 and 2 lie below it); isovalue
    0 cuts none. *)
Definition demo_surface : MarchingCubesResult * GPUDevice :=
  Eval vm_compute in
    outcome (computeSurface (P := demo_platform) demo_mc 3 demo_d1)
            {| count := 0; buffer := mkbuf 0 0 0 |}.

(** ** Later calls on one orchestrator *)

Section Calls.
Context {P : Platform}.

(** [follows mc d k d']: [d'] is [d] after [k] [computeSurface] calls on
    [mc], with any isovalues. *)
Inductive follows (mc : MarchingCubes) (d : GPUDevice) : nat -> GPUDevice -> Prop :=
| follows_now : follows mc d 0 d
| follows_call isovalue k d1 res d2 :
    follows mc d k d1 -> computeSurface mc isovalue d1 = Ok (res, d2) ->
    follows mc d (S k) d2.

End Calls.

(** ** Validation errors

    An event that the device answers with a validation error: a bind group
    with an invalid entry, a submission with an invalid command, a buffer
    mapped for reading that lacks [MAP_READ]. *)
Definition event_valid (e : Event) : bool :=
  match e with
  | EvSubmit cmds => forallb command_valid cmds
  | EvMapRead b => has_usage GPUBufferUsage.MAP_READ b
  | EvCreateBindGroup entries => forallb binding_valid entries
  | _ => true
  end.

(** The part of it that depends on no bind group: the copies of a
    submission and the map reads. *)
Definition transfers_valid (e : Event) : bool :=
  match e with
  | EvSubmit cmds => forallb copy_valid cmds
  | EvMapRead b => has_usage GPUBufferUsage.MAP_READ b
  | _ => true
  end.

(** ** The render loop of the application ([app.ts]) *)

Module Render.
Section Render.
Context {P : Platform}.
Import GPUBufferUsage.

(** [new TypedArray(b.getMappedRange(), byteOffset, length).set(data)] on a
    buffer mapped for writing, with the view's [length] given in bytes: the
    constructor throws a [RangeError] when the view does not fit in the
    mapped range, [set] when the source is longer than the view.  Writing
    into a mapped range is no call to the device. *)
Definition setMappedView (b : GPUBuffer.t) (byteOffset viewBytes : Z) (data : list Z)
  : GPU unit :=
  fun d =>
    if GPUBuffer.size b <? byteOffset + viewBytes then Fail RangeError
    else if viewBytes <? Z.of_nat (length data) then Fail RangeError
    else Ok (tt, update d (write_at (memory d) b byteOffset data) []).

(** The bytes a [Float32Array] holds for a list of numbers. *)
Definition float32_bytes (xs : list number) : list Z :=
  bytes_of_words (map float32_bits xs).

Record ViewParams := { viewParamsBuffer : GPUBuffer.t; uploadBuffer : GPUBuffer.t }.

(** [viewParamsBuffer], [uploadBuffer] and the [bindGroup] of the vertex
    shader's uniform *)
Definition createViewParams : GPU ViewParams :=
  viewParamsBuffer <- createBuffer ((4 * 4 + 4) * 4) (Z.lor UNIFORM COPY_DST) false ;;
  uploadBuffer <-
    createBuffer (GPUBuffer.size viewParamsBuffer) (Z.lor MAP_WRITE COPY_SRC) false ;;
  createBindGroup [ {| binding_type := uniform; binding_buffer := viewParamsBuffer;
                       binding_size := None |} ] ;;;
  ret {| viewParamsBuffer := viewParamsBuffer; uploadBuffer := uploadBuffer |}.

(** One iteration of the render loop for the matrix [projView]: the upload
    buffer is mapped and filled, then one command buffer is submitted that
    copies it to the uniform buffer of the vertex shader and draws the
    surface.  [await uploadBuffer.mapAsync(GPUMapMode.WRITE)] changes
    nothing on the device; the render pass writes the canvas only. *)
Definition frame (vp : ViewParams) (volume : Volume) (isosurface : MarchingCubesResult)
    (projView : list number) : GPU unit :=
  setMappedView (uploadBuffer vp) 0 (GPUBuffer.size (uploadBuffer vp))
    (float32_bytes projView) ;;;
  setMappedView (uploadBuffer vp) (16 * 4) (4 * 4) (bytes_of_words (dims_words volume)) ;;;
  unmap (uploadBuffer vp) ;;;
  submit [ copyBufferToBuffer (uploadBuffer vp) 0 (viewParamsBuffer vp) 0
             (GPUBuffer.size (viewParamsBuffer vp));
           draw (viewParamsBuffer vp) (buffer isosurface) (count isosurface) 1 0 0 ].

(** The [while (true)] loop, for the matrices of the frames that were
    rendered so far; a frame skipped while the document is hidden does
    nothing. *)
Fixpoint renderLoop (vp : ViewParams) (volume : Volume) (isosurface : MarchingCubesResult)
    (frames : list (list number)) : GPU unit :=
  match frames with
  | [] => ret tt
  | projView :: rest =>
      frame vp volume isosurface projView ;;; renderLoop vp volume isosurface rest
  end.

(** The application: the surface is extracted once, at the isovalue the
    source fixes (0.5), then rendered. *)
Definition run (volume : Volume) (isovalue : number) (frames : list (list number))
  : GPU (MarchingCubesResult * ViewParams) :=
  marching_cubes <- create volume ;;
  isosurface <- computeSurface marching_cubes isovalue ;;
  vp <- createViewParams ;;
  renderLoop vp volume isosurface frames ;;;
  ret (isosurface, vp).

(** The two buffers of the view parameters on a device: distinct, 80 bytes
    each, with the usages they were created with. *)
Record view_params_on (vp : ViewParams) (d : GPUDevice) : Prop := {
  vp_distinct : GPUBuffer.id (uploadBuffer vp) <> GPUBuffer.id (viewParamsBuffer vp);
  vp_size : GPUBuffer.size (viewParamsBuffer vp) = 80;
  vp_upload_size : GPUBuffer.size (uploadBuffer vp) = 80;
  vp_usage : GPUBuffer.usage (viewParamsBuffer vp) = Z.lor UNIFORM COPY_DST;
  vp_upload_usage : GPUBuffer.usage (uploadBuffer vp) = Z.lor MAP_WRITE COPY_SRC;
  vp_len : length (bytes_at (memory d) (viewParamsBuffer vp)) = 80%nat;
  vp_upload_len : length (bytes_at (memory d) (uploadBuffer vp)) = 80%nat
}.

(** Whether the device accepts the submission of a frame that draws
    [isosurface]. *)
Definition frame_accepted (vp : ViewParams) (isosurface : MarchingCubesResult) : bool :=
  forallb command_valid
    [ copyBufferToBuffer (uploadBuffer vp) 0 (viewParamsBuffer vp) 0
        (GPUBuffer.size (viewParamsBuffer vp));
      draw (viewParamsBuffer vp) (buffer isosurface) (count isosurface) 1 0 0 ].

End Render.
End Render.

(** A second call on the device of the first, at isovalue 6, which cuts
    voxels 0, 1 and 3. *)
Definition demo_surface_again : MarchingCubesResult * GPUDevice :=
  Eval vm_compute in
    outcome (computeSurface (P := demo_platform) demo_mc 6 demo_surface.2)
            {| count := 0; buffer := mkbuf 0 0 0 |}.

(** Two frames of the application on the small platform, whose numbers are
    their own bit patterns. *)
Definition demo_frames : list (list Z) :=
  [ [1; 0; 0; 0; 0; 1; 0; 0; 0; 0; 1; 0; 0; 0; 0; 1];
    [2; 0; 0; 0; 0; 2; 0; 0; 0; 0; 2; 0; 7; 8; 9; 1] ].

Definition demo_run : (MarchingCubesResult * Render.ViewParams) * GPUDevice :=
  Eval vm_compute in
    outcome (Render.run (P := demo_platform) demo_volume 3 demo_frames demo_device)
            ({| count := 0; buffer := mkbuf 0 0 0 |},
             {| Render.viewParamsBuffer := mkbuf 0 0 0;
                Render.uploadBuffer := mkbuf 0 0 0 |}).

(* ================================================================== *)
(** * Properties *)

(** ** The scan primitive computes exclusive prefix sums *)

Section ScanProperties.
Context {P : Platform}.
Import ExclusiveScan.

Lemma block_scan_snd (l : list Z) (acc : Z) :
  snd (block_scan acc l) = acc + sumZ l.
Proof.
  revert acc; induction l as [|x l IH]; intros acc; simpl; [lia|].
  specialize (IH (acc + x)). destruct (block_scan (acc + x) l); simpl in *. lia.
Qed.

Lemma block_scan_length (l : list Z) (acc : Z) :
  length (fst (block_scan acc l)) = length l.
Proof.
  revert acc; induction l as [|x l IH]; intros acc; simpl; [done|].
  specialize (IH (acc + x)). destruct (block_scan (acc + x) l); simpl in *. lia.
Qed.

Lemma block_scan_app (a b : list Z) (acc : Z) :
  fst (block_scan acc (a ++ b))
  = fst (block_scan acc a) ++ fst (block_scan (acc + sumZ a) b).
Proof.
  revert acc; induction a as [|x a IH]; intros acc; simpl.
  - by rewrite Z.add_0_r.
  - specialize (IH (acc + x)).
    destruct (block_scan (acc + x) (a ++ b)), (block_scan (acc + x) a); simpl in *.
    rewrite IH. by replace (acc + x + sumZ a) with (acc + (x + sumZ a)) by lia.
Qed.

Lemma block_scan_shift (l : list Z) (acc : Z) :
  fst (block_scan acc l) = map (Z.add acc) (fst (block_scan 0 l)).
Proof.
  revert acc. induction l as [|x l IH]; intros acc; simpl; [done|].
  pose proof (IH (acc + x)) as H1. pose proof (IH (0 + x)) as H2.
  destruct (block_scan (acc + x) l), (block_scan (0 + x) l); simpl in *.
  rewrite H1, H2, Z.add_0_r. f_equal.
  rewrite <- list_fmap_compose. apply list_fmap_ext. intros _ y _. simpl. lia.
Qed.

Lemma block_scan_lookup (l : list Z) (acc : Z) (i : nat) :
  (i < length l)%nat ->
  fst (block_scan acc l) !! i = Some (acc + sumZ (take i l)).
Proof.
  revert acc i; induction l as [|x l IH]; intros acc i Hi; simpl in *; [lia|].
  specialize (IH (acc + x)).
  destruct (block_scan (acc + x) l) as [r t]; simpl in *.
  destruct i as [|i]; simpl.
  - f_equal; lia.
  - rewrite IH by lia. f_equal; lia.
Qed.

Lemma sumZ_app (a b : list Z) : sumZ (a ++ b) = sumZ a + sumZ b.
Proof. induction a; simpl; lia. Qed.

Lemma sumZ_concat (ls : list (list Z)) : sumZ (concat ls) = sumZ (map sumZ ls).
Proof. induction ls; simpl; [done|]. rewrite sumZ_app. lia. Qed.

Lemma sumZ_replicate_0 (k : nat) : sumZ (replicate k 0) = 0.
Proof. induction k; simpl; lia. Qed.

Lemma blocks_concat (fuel : nat) (l : list Z) :
  0 < ScanBlockSize -> (length l <= fuel)%nat -> concat (blocks fuel l) = l.
Proof.
  intros HB. revert l. induction fuel as [|f IH]; intros l Hl.
  - destruct l; simpl in *; [done|lia].
  - destruct l as [|x l]; [done|].
    cbn [blocks concat]. rewrite IH.
    + apply take_drop.
    + rewrite length_drop. simpl in *. lia.
Qed.

Lemma blocks_length (fuel : nat) (l : list Z) :
  2 <= ScanBlockSize -> (2 * length (blocks fuel l) <= length l + 1)%nat.
Proof.
  intros HB. revert l. induction fuel as [|f IH]; intros l.
  - simpl. lia.
  - destruct l as [|x l]; [simpl; lia|].
    cbn [blocks length]. specialize (IH (drop (Z.to_nat ScanBlockSize) (x :: l))).
    rewrite length_drop in IH. simpl in *.
    destruct (decide (Z.to_nat ScanBlockSize <= S (length l))%nat); [lia|].
    assert (Hd : drop (Z.to_nat ScanBlockSize) (x :: l) = []).
    { apply drop_ge. simpl. lia. }
    rewrite Hd. destruct f; simpl; lia.
Qed.

Lemma scan_blocks_bases (blks : list (list Z)) (acc : Z) :
  concat (zip_with add_block_base
            (fst (block_scan acc (map snd (map (block_scan 0) blks))))
            (map (block_scan 0) blks))
  = fst (block_scan acc (concat blks)).
Proof.
  revert acc. induction blks as [|b blks IH]; intros acc; [done|].
  cbn [map concat].
  rewrite block_scan_app, <- IH.
  cbn [block_scan].
  rewrite block_scan_snd, Z.add_0_l.
  destruct (block_scan (acc + sumZ b) (map snd (map (block_scan 0) blks))) as [r t].
  cbn [fst zip_with concat]. f_equal.
  unfold add_block_base. symmetry. apply block_scan_shift.
Qed.

Lemma scan_rec_prefix_sums (fuel : nat) (l : list Z) :
  2 <= ScanBlockSize -> (length l < fuel)%nat ->
  scan_rec fuel l = Some (fst (block_scan 0 l), sumZ l).
Proof.
  intros HB. revert l. induction fuel as [|f IH]; intros l Hl; [lia|].
  cbn [scan_rec]. destruct (Z.leb_spec (Z.of_nat (length l)) ScanBlockSize) as [Hle|Hgt].
  - f_equal. rewrite <- (Z.add_0_l (sumZ l)), <- block_scan_snd. by destruct (block_scan 0 l).
  - pose proof (blocks_length (length l) l HB) as Hlen.
    rewrite IH by (rewrite !length_map; lia).
    f_equal. f_equal.
    + rewrite scan_blocks_bases, blocks_concat by lia. done.
    + transitivity (sumZ (map sumZ (blocks (length l) l))).
      * f_equal. rewrite <- list_fmap_compose. apply list_fmap_ext.
        intros _ b _. simpl. by rewrite block_scan_snd.
      * rewrite <- sumZ_concat, blocks_concat by lia. done.
Qed.

Lemma getAlignedSize_ge (n : Z) : 0 < ScanBlockSize -> n <= getAlignedSize n.
Proof.
  intros HB. unfold getAlignedSize, ceil_div.
  assert (Hb : ScanBlockSize <> 0) by lia.
  pose proof (Z.mod_pos_bound (n + ScanBlockSize - 1) ScanBlockSize HB).
  pose proof (Z.div_mod (n + ScanBlockSize - 1) ScanBlockSize Hb).
  lia.
Qed.

Lemma getAlignedSize_0 : 0 < ScanBlockSize -> getAlignedSize 0 = 0.
Proof.
  intros HB. unfold getAlignedSize, ceil_div.
  rewrite Z.div_small; lia.
Qed.

Lemma scan_words_eq (buf : list Z) (n : Z) :
  2 <= ScanBlockSize ->
  let m := Z.to_nat (getAlignedSize n) in
  scan_words buf n
  = Some (fst (block_scan 0 (take m buf)) ++ drop m buf, sumZ (take m buf)).
Proof.
  intros HB. cbv zeta. unfold scan_words.
  rewrite scan_rec_prefix_sums by (try done; rewrite length_take; lia). done.
Qed.

Lemma sumZ_zeros (l : list Z) :
  (forall (i : nat) x, l !! i = Some x -> x = 0) -> sumZ l = 0.
Proof.
  induction l as [|y l IHl]; intros Hl; simpl; [done|].
  rewrite (Hl O y eq_refl), IHl; [done|]. intros i x Hx. apply (Hl (S i) x Hx).
Qed.

Lemma sumZ_take_padding (buf : list Z) (n m : nat) :
  (n <= m)%nat ->
  (forall (i : nat) x, (n <= i)%nat -> buf !! i = Some x -> x = 0) ->
  sumZ (take m buf) = sumZ (take n buf).
Proof.
  intros Hnm Hpad.
  rewrite <- (take_drop n (take m buf)), sumZ_app, take_take, Nat.min_l by lia.
  rewrite (sumZ_zeros (drop n (take m buf))); [lia|].
  intros i x Hx. rewrite lookup_drop in Hx.
  apply lookup_take_Some in Hx as [Hx _]. apply (Hpad (n + i)%nat x); [lia|done].
Qed.

Lemma scan_prefix_lookup (buf : list Z) (m i : nat) :
  (i < m)%nat -> (m <= length buf)%nat ->
  (fst (block_scan 0 (take m buf)) ++ drop m buf) !! i = Some (sumZ (take i buf)).
Proof.
  intros Hi Hm. rewrite lookup_app_l by (rewrite block_scan_length, length_take; lia).
  rewrite block_scan_lookup by (rewrite length_take; lia).
  rewrite take_take, Nat.min_l by lia. done.
Qed.

(** C5: on a buffer that holds the aligned number of elements, with zeros
    behind the first [n], the scan succeeds, leaves at every index [i < n]
    the sum of the elements before [i], keeps the buffer's length, and hands
    back the sum of the first [n] elements. *)
Theorem scan_exclusive_prefix_sums (buf : list Z) (n : nat) :
  2 <= ScanBlockSize ->
  (Z.to_nat (getAlignedSize (Z.of_nat n)) <= length buf)%nat ->
  (forall (i : nat) x, (n <= i)%nat -> buf !! i = Some x -> x = 0) ->
  exists out,
    scan_words buf (Z.of_nat n) = Some (out, sumZ (take n buf))
    /\ length out = length buf
    /\ forall i, (i < n)%nat -> out !! i = Some (sumZ (take i buf)).
Proof.
  intros HB Hlen Hpad.
  assert (HB0 : 0 < ScanBlockSize) by lia.
  pose proof (getAlignedSize_ge (Z.of_nat n) HB0) as Hge.
  pose proof (scan_words_eq buf (Z.of_nat n) HB) as Hscan. cbv zeta in Hscan.
  set (m := Z.to_nat (getAlignedSize (Z.of_nat n))) in *.
  exists (fst (block_scan 0 (take m buf)) ++ drop m buf).
  split; [|split].
  - rewrite Hscan. do 2 f_equal. apply sumZ_take_padding; [lia|done].
  - rewrite length_app, block_scan_length, length_take, length_drop. lia.
  - intros i Hi. apply scan_prefix_lookup; lia.
Qed.

(** ** Stream compaction lists the active voxels in order *)

Import StreamCompactIDs.

Lemma active_ids_app (a b : list Z) (i : nat) :
  active_ids i (a ++ b) = active_ids i a ++ active_ids (i + length a) b.
Proof.
  revert i; induction a as [|x a IH]; intros i; simpl.
  - by rewrite Nat.add_0_r.
  - rewrite IH, Nat.add_succ_r. by destruct (x =? 0).
Qed.

Lemma active_ids_length (l : list Z) (i : nat) :
  Forall is_flag l -> Z.of_nat (length (active_ids i l)) = sumZ l.
Proof.
  intros Hl; revert i; induction Hl as [|x l [->| ->] _ IH]; intros i; simpl; [done| |].
  - apply IH.
  - rewrite Nat2Z.inj_succ, IH. lia.
Qed.

Lemma active_ids_lower (l : list Z) (i : nat) :
  Forall (fun x => Z.of_nat i <= x) (active_ids i l).
Proof.
  revert i; induction l as [|x l IH]; intros i; simpl; [constructor|].
  assert (Forall (fun x => Z.of_nat i <= x) (active_ids (S i) l)).
  { eapply Forall_impl; [apply IH|]. simpl. intros; lia. }
  destruct (x =? 0); [done|]. constructor; [lia|done].
Qed.

Lemma active_ids_sorted (l : list Z) (i : nat) :
  StronglySorted Z.lt (active_ids i l).
Proof.
  revert i; induction l as [|x l IH]; intros i; simpl; [constructor|].
  destruct (x =? 0); [apply IH|].
  constructor; [apply IH|].
  eapply Forall_impl; [apply (active_ids_lower l (S i))|]. simpl. intros; lia.
Qed.

Lemma sumZ_flags_nonneg (l : list Z) : Forall is_flag l -> 0 <= sumZ l.
Proof. induction 1 as [|x l [->| ->] _ IH]; simpl; lia. Qed.

Lemma compact_words_prefix (fl offs : list Z) (total : Z) (k : nat) :
  Forall is_flag fl ->
  (forall i, (i < k)%nat -> offs !! i = Some (sumZ (take i fl))) ->
  (k <= length fl)%nat -> sumZ (take k fl) <= total ->
  compact_words fl offs (replicate (Z.to_nat total) 0) k
  = active_ids 0 (take k fl)
    ++ replicate (Z.to_nat total - length (active_ids 0 (take k fl))) 0.
Proof.
  intros Hfl. induction k as [|k IH]; intros Hoffs Hk Htot.
  - simpl. by rewrite Nat.sub_0_r.
  - destruct (lookup_lt_is_Some_2 fl k ltac:(lia)) as [x Hx].
    assert (Hxf : is_flag x).
    { eapply Forall_lookup_1; [apply Hfl|apply Hx]. }
    rewrite (take_S_r _ _ _ Hx), sumZ_app in Htot. simpl in Htot.
    assert (Hnn : 0 <= sumZ (take k fl)).
    { apply sumZ_flags_nonneg, Forall_take, Hfl. }
    unfold compact_words in *. rewrite seq_S, foldl_app. simpl.
    rewrite IH; [|intros; apply Hoffs; lia|lia|destruct Hxf; lia].
    rewrite Hx, (Hoffs k) by lia.
    rewrite (take_S_r _ _ _ Hx), active_ids_app, length_take, Nat.min_l by lia.
    pose proof (active_ids_length (take k fl) 0 (Forall_take _ _ _ Hfl)) as Hlen.
    destruct Hxf as [->| ->]; simpl.
    + by rewrite app_nil_r.
    + destruct (Z.ltb_spec (sumZ (take k fl)) 0); [lia|].
      rewrite insert_app_r_alt by lia.
      replace (Z.to_nat (sumZ (take k fl)) - length (active_ids 0 (take k fl)))%nat
        with O by lia.
      rewrite length_app. simpl.
      destruct (Z.to_nat total - length (active_ids 0 (take k fl)))%nat as [|r] eqn:Hr; [lia|].
      simpl. rewrite <- app_assoc. simpl. do 3 f_equal. lia.
Qed.

Lemma expand_active_ids (l pre : list Z) (rest : nat) :
  Forall is_flag l ->
  foldl (fun acc id => if id <? 0 then acc else <[Z.to_nat id := 1]> acc)
        (pre ++ replicate (length l + rest) 0) (active_ids (length pre) l)
  = pre ++ l ++ replicate rest 0.
Proof.
  intros Hl. revert pre. induction Hl as [|x l Hx _ IH]; intros pre; [done|].
  simpl. destruct Hx as [->| ->]; simpl.
  - specialize (IH (pre ++ [0])). rewrite length_app, Nat.add_1_r in IH.
    rewrite <- !app_assoc in IH. apply IH.
  - destruct (Z.ltb_spec (Z.of_nat (length pre)) 0); [lia|].
    rewrite Nat2Z.id, insert_app_r_alt, Nat.sub_diag by lia. simpl.
    specialize (IH (pre ++ [1])). rewrite length_app, Nat.add_1_r in IH.
    rewrite <- !app_assoc in IH. apply IH.
Qed.

Lemma compact_words_correct (fl : list Z) (n : nat) :
  2 <= ScanBlockSize ->
  (Z.to_nat (getAlignedSize (Z.of_nat n)) <= length fl)%nat ->
  Forall is_flag fl ->
  (forall i x, (n <= i)%nat -> fl !! i = Some x -> x = 0) ->
  exists offs,
    scan_words fl (Z.of_nat n) = Some (offs, sumZ (take n fl))
    /\ compact_words fl offs (replicate (Z.to_nat (sumZ (take n fl))) 0) n
       = active_ids 0 (take n fl).
Proof.
  intros HB Hlen Hfl Hpad.
  assert (HB0 : 0 < ScanBlockSize) by lia.
  pose proof (getAlignedSize_ge (Z.of_nat n) HB0) as Hge.
  pose proof (scan_words_eq fl (Z.of_nat n) HB) as Hscan. cbv zeta in Hscan.
  set (m := Z.to_nat (getAlignedSize (Z.of_nat n))) in *.
  rewrite (sumZ_take_padding fl n m) in Hscan by (done || lia).
  eexists. split; [exact Hscan|].
  assert (Hn : (n <= length fl)%nat) by lia.
  rewrite compact_words_prefix;
    [|done|intros i Hi; apply scan_prefix_lookup; lia|done|lia].
  pose proof (active_ids_length (take n fl) 0 (Forall_take _ _ _ Hfl)) as Hl.
  replace (Z.to_nat (sumZ (take n fl)) - length (active_ids 0 (take n fl)))%nat
    with O by lia.
  apply app_nil_r.
Qed.

(** C6: for a 0/1 flag buffer with zero padding, the ID list that the
    compaction scatters through the scanned offsets is strictly increasing,
    has as many entries as the scan's total, and re-expands to the flag
    buffer. *)
Theorem compaction_sorted_and_roundtrip (fl : list Z) (n : nat) :
  2 <= ScanBlockSize ->
  (Z.to_nat (getAlignedSize (Z.of_nat n)) <= length fl)%nat ->
  Forall is_flag fl ->
  (forall i x, (n <= i)%nat -> fl !! i = Some x -> x = 0) ->
  exists offs total,
    scan_words fl (Z.of_nat n) = Some (offs, total)
    /\ let ids := compact_words fl offs (replicate (Z.to_nat total) 0) n in
       StronglySorted Z.lt ids
       /\ Z.of_nat (length ids) = total
       /\ expand ids (length fl) = fl.
Proof.
  intros HB Hlen Hfl Hpad.
  destruct (compact_words_correct fl n HB Hlen Hfl Hpad) as (offs & Hscan & Hids).
  exists offs, (sumZ (take n fl)). split; [done|]. simpl. rewrite Hids.
  assert (Hn : (n <= length fl)%nat).
  { pose proof (getAlignedSize_ge (Z.of_nat n)). lia. }
  split; [apply active_ids_sorted|split].
  - apply active_ids_length, Forall_take, Hfl.
  - unfold expand.
    assert (Hdrop : drop n fl = replicate (length fl - n) 0).
    { apply list_eq. intros i. rewrite lookup_drop.
      destruct (decide (i < length fl - n)%nat) as [Hi|Hi].
      - rewrite lookup_replicate_2 by done.
        destruct (lookup_lt_is_Some_2 fl (n + i) ltac:(lia)) as [x Hx].
        rewrite Hx. f_equal. apply (Hpad (n + i)%nat); [lia|done].
      - rewrite lookup_ge_None_2 by lia.
        symmetry. apply lookup_ge_None_2. rewrite length_replicate. lia. }
    rewrite <- (take_drop n fl) at 3. rewrite Hdrop.
    pose proof (expand_active_ids (take n fl) [] (length fl - n)
                  (Forall_take _ _ _ Hfl)) as He.
    simpl in He. rewrite <- He, length_take. do 2 f_equal. lia.
Qed.

End ScanProperties.

(** ** Bytes and buffers *)

Lemma testbit_255 n : 0 <= n -> Z.testbit 255 n = (n <? 8).
Proof.
  intros Hn. change 255 with (Z.ones 8).
  destruct (Z.ltb_spec n 8).
  - apply Z.ones_spec_low. lia.
  - apply Z.ones_spec_high. lia.
Qed.

Lemma u32_of_le_le (w : Z) :
  u32_of_le (Z.land w 255) (Z.land (Z.shiftr w 8) 255)
            (Z.land (Z.shiftr w 16) 255) (Z.land (Z.shiftr w 24) 255)
  = w mod 2 ^ 32.
Proof.
  unfold u32_of_le. rewrite <- Z.land_ones by lia.
  apply Z.bits_inj'. intros n Hn.
  rewrite !Z.lor_spec, !Z.land_spec.
  rewrite !Z.shiftl_spec by lia.
  rewrite !Z.land_spec.
  rewrite testbit_255 by lia.
  destruct (Z.ltb_spec n 8).
  - rewrite (Z.testbit_neg_r _ (n - 8)), (Z.testbit_neg_r _ (n - 16)), (Z.testbit_neg_r _ (n - 24)) by lia.
    rewrite Z.ones_spec_low by lia. by rewrite !orb_false_r, andb_true_r.
  - rewrite andb_false_r. simpl.
    destruct (Z.ltb_spec n 16).
    + rewrite (Z.testbit_neg_r _ (n - 16)), (Z.testbit_neg_r _ (n - 24)) by lia.
      rewrite Z.shiftr_spec, testbit_255 by lia.
      replace (n - 8 + 8) with n by lia.
      destruct (Z.ltb_spec (n - 8) 8); [|lia].
      rewrite Z.ones_spec_low by lia. by rewrite !orb_false_r.
    + rewrite (testbit_255 (n - 8)) by lia.
      destruct (Z.ltb_spec (n - 8) 8); [lia|]. rewrite andb_false_r. simpl.
      destruct (Z.ltb_spec n 24).
      * rewrite (Z.testbit_neg_r _ (n - 24)) by lia.
        rewrite Z.shiftr_spec, testbit_255 by lia.
        replace (n - 16 + 16) with n by lia.
        destruct (Z.ltb_spec (n - 16) 8); [|lia].
        rewrite Z.ones_spec_low by lia. by rewrite !orb_false_r.
      * rewrite (testbit_255 (n - 16)) by lia.
        destruct (Z.ltb_spec (n - 16) 8); [lia|]. rewrite andb_false_r. simpl.
        rewrite Z.shiftr_spec, testbit_255 by lia.
        replace (n - 24 + 24) with n by lia.
        destruct (Z.ltb_spec (n - 24) 8).
        -- rewrite Z.ones_spec_low by lia. done.
        -- rewrite Z.ones_spec_high by lia. by rewrite !andb_false_r.
Qed.

Lemma words_of_bytes_zeros (k : nat) :
  words_of_bytes (replicate (4 * k) 0) = replicate k 0.
Proof.
  induction k as [|k IH]; [done|].
  replace (4 * S k)%nat with (S (S (S (S (4 * k))))) by lia.
  cbn [replicate words_of_bytes]. by rewrite IH.
Qed.

Lemma bytes_of_words_zeros (k : nat) :
  bytes_of_words (replicate k 0) = replicate (4 * k) 0.
Proof.
  unfold bytes_of_words. induction k as [|k IH]; [done|].
  replace (4 * S k)%nat with (S (S (S (S (4 * k))))) by lia.
  cbn [replicate map concat]. by rewrite IH.
Qed.

Lemma length_blit (off : nat) (data old : list Z) :
  length (blit off data old) = length old.
Proof.
  unfold blit. rewrite length_take, !length_app, length_take, length_drop. lia.
Qed.

Lemma lookup_blit_lt (off : nat) (data old : list Z) (i : nat) :
  (i < off)%nat -> blit off data old !! i = old !! i.
Proof.
  intros Hi. unfold blit.
  destruct (decide (i < length old)%nat) as [Hl|Hl].
  - rewrite lookup_take_lt by done.
    rewrite lookup_app_l by (rewrite length_take; lia).
    by rewrite lookup_take_lt.
  - rewrite lookup_take_ge by lia. symmetry. apply lookup_ge_None_2. lia.
Qed.

Lemma lookup_blit_ge (off : nat) (data old : list Z) (i : nat) :
  (off + length data <= i)%nat -> blit off data old !! i = old !! i.
Proof.
  intros Hi. unfold blit.
  destruct (decide (i < length old)%nat) as [Hl|Hl].
  - rewrite lookup_take_lt by done.
    rewrite lookup_app_r by (rewrite length_take; lia).
    rewrite lookup_app_r by (rewrite length_take; lia).
    rewrite lookup_drop, length_take. f_equal. lia.
  - rewrite lookup_take_ge by lia. symmetry. apply lookup_ge_None_2. lia.
Qed.

Lemma blit_fits (off : nat) (data old : list Z) :
  (off + length data <= length old)%nat ->
  blit off data old = take off old ++ data ++ drop (off + length data) old.
Proof.
  intros Hfit. unfold blit. apply take_ge.
  rewrite !length_app, length_take, length_drop. lia.
Qed.

Lemma take_blit (off : nat) (data old : list Z) :
  take off (blit off data old) = take off old.
Proof.
  apply list_eq. intros i.
  destruct (decide (i < off)%nat).
  - rewrite !lookup_take_lt by done. by apply lookup_blit_lt.
  - by rewrite !lookup_take_ge by lia.
Qed.

Lemma drop_blit (off : nat) (data old : list Z) :
  drop (off + length data) (blit off data old) = drop (off + length data) old.
Proof.
  apply list_eq. intros i. rewrite !lookup_drop. apply lookup_blit_ge. lia.
Qed.

Lemma blit_all (data old : list Z) : length data = length old -> blit 0 data old = data.
Proof.
  intros Hl. rewrite blit_fits by lia.
  rewrite take_0, Nat.add_0_l, Hl, drop_all. by rewrite app_nil_r.
Qed.

Lemma drop_zero_tail (l : list Z) (k : nat) :
  (forall (i : nat) x, (k <= i)%nat -> l !! i = Some x -> x = 0) ->
  drop k l = replicate (length l - k) 0.
Proof.
  intros Hz. apply list_eq. intros i. rewrite lookup_drop.
  destruct (decide (k + i < length l)%nat) as [Hi|Hi].
  - destruct (lookup_lt_is_Some_2 l (k + i) Hi) as [x Hx].
    rewrite Hx, lookup_replicate_2 by lia. f_equal. apply (Hz (k + i)%nat); [lia|done].
  - rewrite !lookup_ge_None_2; [done| |lia]. rewrite length_replicate. lia.
Qed.

Lemma words_of_bytes_of_words (ws : list Z) :
  words_of_bytes (bytes_of_words ws) = map (fun w => w mod 2 ^ 32) ws.
Proof.
  unfold bytes_of_words. induction ws as [|w ws IH]; [done|].
  cbn [map concat u32_le app words_of_bytes]. by rewrite IH, u32_of_le_le.
Qed.

Lemma length_write_at mem b off data : length (write_at mem b off data) = length mem.
Proof. unfold write_at. destruct (off <? 0); [done|]. apply length_alter. Qed.

Lemma lookup_write_at_ne mem b off data (j : nat) :
  j <> GPUBuffer.id b -> write_at mem b off data !! j = mem !! j.
Proof.
  intros Hj. unfold write_at. destruct (off <? 0); [done|].
  by apply list_lookup_alter_ne.
Qed.

Lemma bytes_at_write_at mem b off data :
  0 <= off ->
  bytes_at (write_at mem b off data) b = blit (Z.to_nat off) data (bytes_at mem b).
Proof.
  intros Hoff. unfold write_at, bytes_at.
  destruct (Z.ltb_spec off 0); [lia|].
  rewrite list_lookup_alter_eq. destruct (mem !! GPUBuffer.id b); simpl; [done|].
  unfold blit. simpl. by rewrite take_nil.
Qed.

Lemma bytes_at_write_at_ne mem b b' off data :
  GPUBuffer.id b' <> GPUBuffer.id b ->
  bytes_at (write_at mem b off data) b' = bytes_at mem b'.
Proof. intros Hne. unfold bytes_at. by rewrite lookup_write_at_ne. Qed.

Section DeviceProperties.
Context {P : Platform}.

Lemma length_exec mem c : length (exec mem c) = length mem.
Proof.
  destruct c; simpl; try apply length_write_at; try done.
  match goal with |- context [foldl ?f mem ?l] => generalize l end.
  match goal with |- context [isovalue_word ?x] => generalize (isovalue_word x) end.
  match goal with |- context [words_of_bytes ?x] => generalize (words_of_bytes x) end.
  intros ids iso l. revert mem. induction l as [|i l IH]; intros mem; simpl; [done|].
  by rewrite IH, length_write_at.
Qed.

Lemma lookup_exec_ne mem c (j : nat) : j ∉ dsts_of c -> exec mem c !! j = mem !! j.
Proof.
  destruct c; simpl; intros Hj; try done;
    try (apply not_elem_of_cons in Hj as [Hj _]);
    try by apply lookup_write_at_ne.
  match goal with |- context [foldl ?f mem ?l] => generalize l end.
  match goal with |- context [isovalue_word ?x] => generalize (isovalue_word x) end.
  match goal with |- context [words_of_bytes ?x] => generalize (words_of_bytes x) end.
  intros ids iso l. revert mem. induction l as [|i l IH]; intros mem; simpl; [done|].
  by rewrite IH, lookup_write_at_ne.
Qed.

Lemma length_foldl_exec cmds mem : length (foldl exec mem cmds) = length mem.
Proof.
  revert mem; induction cmds as [|c cmds IH]; intros mem; simpl; [done|].
  by rewrite IH, length_exec.
Qed.

Lemma lookup_foldl_exec_ne cmds mem (j : nat) :
  j ∉ flat_map dsts_of cmds -> foldl exec mem cmds !! j = mem !! j.
Proof.
  revert mem; induction cmds as [|c cmds IH]; intros mem Hj; simpl; [done|].
  simpl in Hj. apply not_elem_of_app in Hj as [Hc Hj].
  by rewrite IH, lookup_exec_ne.
Qed.

(** *** Composition of effects *)

Lemma evolves_refl d : evolves [] 0 [] d d.
Proof. split; try done; try lia. by rewrite app_nil_r. Qed.

Lemma evolves_trans W1 W2 k1 k2 e1 e2 d d1 d2 :
  evolves W1 k1 e1 d d1 -> evolves W2 k2 e2 d1 d2 ->
  evolves (W1 ++ W2) (k1 + k2) (e1 ++ e2) d d2.
Proof.
  intros [] []. split; try congruence.
  - lia.
  - intros j Hj Hlt. apply not_elem_of_app in Hj as [Hj1 Hj2].
    rewrite ev_frame1 by (done || lia). by apply ev_frame0.
  - rewrite ev_log1, ev_log0. by rewrite app_assoc.
Qed.

Lemma evolves_update d mem evs W k :
  length mem = (k + length (memory d))%nat ->
  (forall j, j ∉ W -> (j < length (memory d))%nat -> mem !! j = memory d !! j) ->
  evolves W k evs d (update d mem evs).
Proof. intros Hlen Hframe. by split. Qed.

(** *** What each call does when it returns *)

Lemma bind_Ok {A B} (m : GPU A) (k : A -> GPU B) d b d' :
  bind m k d = Ok (b, d') -> exists a d1, m d = Ok (a, d1) /\ k a d1 = Ok (b, d').
Proof. unfold bind. destruct (m d) as [[a d1]|e]; [|done]. eauto. Qed.

Lemma bind_intro {A B} (m : GPU A) (k : A -> GPU B) d a d1 r :
  m d = Ok (a, d1) -> k a d1 = r -> bind m k d = r.
Proof. unfold bind. by intros -> ->. Qed.

Lemma deviceLimits_Ok d a d' :
  deviceLimits d = Ok (a, d') ->
  a = (maxComputeWorkgroupsPerDimension d, minUniformBufferOffsetAlignment d)
  /\ evolves [] 0 [] d d' /\ memory d' = memory d.
Proof. intros [= <- <-]. split; [done|]. split; [apply evolves_refl|done]. Qed.

Lemma createBuffer_Ok s u m d b d' :
  createBuffer s u m d = Ok (b, d') ->
  0 <= s <= maxBufferSize d
  /\ b = mkbuf (length (memory d)) s u
  /\ evolves [] 1 [EvCreateBuffer b m] d d'
  /\ memory d' = memory d ++ [replicate (Z.to_nat s) 0].
Proof.
  unfold createBuffer. destruct (Z.ltb_spec s 0); [done|].
  destruct (m && negb (s mod 4 =? 0)); [done|].
  destruct (Z.ltb_spec (maxBufferSize d) s); [done|].
  intros [= <- <-]. split; [lia|]. split; [done|]. split; [|done].
  apply evolves_update.
  - rewrite length_app. simpl. lia.
  - intros j _ Hj. by apply lookup_app_l.
Qed.

Lemma createBuffer_total s u m d :
  0 <= s <= maxBufferSize d -> (m = true -> s mod 4 = 0) ->
  exists b d', createBuffer s u m d = Ok (b, d').
Proof.
  intros Hs Hm. unfold createBuffer. destruct (Z.ltb_spec s 0); [lia|].
  assert (Hr : m && negb (s mod 4 =? 0) = false).
  { destruct m; [|done]. rewrite Hm by done. done. }
  rewrite Hr. destruct (Z.ltb_spec (maxBufferSize d) s); [lia|]. eauto.
Qed.

Lemma setMappedRange_Ok b data d u d' :
  setMappedRange b data d = Ok (u, d') ->
  Z.of_nat (length data) <= GPUBuffer.size b
  /\ evolves [GPUBuffer.id b] 0 [EvUnmap b] d d'
  /\ memory d' = write_at (memory d) b 0 data.
Proof.
  unfold setMappedRange.
  destruct (Z.ltb_spec (GPUBuffer.size b) (Z.of_nat (length data))); [done|].
  intros [= <- <-]. split; [lia|]. split; [|done].
  apply evolves_update.
  - rewrite length_write_at. lia.
  - intros j Hj _. apply lookup_write_at_ne. intros ->. apply Hj. left.
Qed.

Lemma setMappedRange_total b data d :
  Z.of_nat (length data) <= GPUBuffer.size b ->
  exists d', setMappedRange b data d = Ok (tt, d').
Proof.
  intros Hs. unfold setMappedRange.
  destruct (Z.ltb_spec (GPUBuffer.size b) (Z.of_nat (length data))); [lia|]. eauto.
Qed.

Lemma submit_Ok cmds d u d' :
  submit cmds d = Ok (u, d') ->
  forallb recordable cmds = true
  /\ evolves (flat_map dsts_of cmds) 0 [EvSubmit cmds] d d'
  /\ memory d' = if forallb command_valid cmds then foldl exec (memory d) cmds
                 else memory d.
Proof.
  unfold submit. destruct (forallb recordable cmds); [|done]. cbn [negb].
  destruct (forallb command_valid cmds); intros [= <- <-].
  - split; [done|]. split; [|done]. apply evolves_update.
    + rewrite length_foldl_exec. lia.
    + intros j Hj _. by apply lookup_foldl_exec_ne.
  - split; [done|]. split; [|done]. apply evolves_update; [lia|done].
Qed.

Lemma unmap_Ok b d u d' :
  unmap b d = Ok (u, d') -> evolves [] 0 [EvUnmap b] d d' /\ memory d' = memory d.
Proof.
  intros [= <- <-]. split; [|done]. apply evolves_update; [lia|done].
Qed.

Lemma createBindGroup_Ok entries d u d' :
  createBindGroup entries d = Ok (u, d') ->
  evolves [] 0 [EvCreateBindGroup entries] d d' /\ memory d' = memory d.
Proof.
  intros [= <- <-]. split; [|done]. apply evolves_update; [lia|done].
Qed.

Lemma onSubmittedWorkDone_Ok d u d' :
  onSubmittedWorkDone d = Ok (u, d') ->
  evolves [] 0 [EvWorkDone] d d' /\ memory d' = memory d.
Proof.
  intros [= <- <-]. split; [|done]. apply evolves_update; [lia|done].
Qed.

Lemma mapRead_Ok b d ws d' :
  mapRead b d = Ok (ws, d') ->
  evolves [] 0 [EvMapRead b] d d' /\ memory d' = memory d.
Proof.
  intros [= <- <-]. split; [|done]. apply evolves_update; [lia|done].
Qed.

Lemma scan_Ok b n d t d' :
  ExclusiveScan.scan b n d = Ok (t, d') ->
  evolves [GPUBuffer.id b] 0 [EvScan b n t] d d'
  /\ exists out,
       ExclusiveScan.scan_words (words_of_bytes (bytes_at (memory d) b)) n = Some (out, t)
       /\ memory d' = write_at (memory d) b 0 (bytes_of_words out).
Proof.
  unfold ExclusiveScan.scan.
  destruct ExclusiveScan.scan_words as [[out total]|] eqn:Hscan; [|done].
  intros [= <- <-]. split; [|eauto]. apply evolves_update.
  - rewrite length_write_at. lia.
  - intros j Hj _. apply lookup_write_at_ne. intros ->. apply Hj. left.
Qed.

Lemma scan_total b n d out t :
  ExclusiveScan.scan_words (words_of_bytes (bytes_at (memory d) b)) n = Some (out, t) ->
  exists d', ExclusiveScan.scan b n d = Ok (t, d').
Proof. intros Hs. unfold ExclusiveScan.scan. rewrite Hs. eauto. Qed.

Lemma compactActiveIDs_Ok fl offs ids n d u d' :
  StreamCompactIDs.compactActiveIDs fl offs ids n d = Ok (u, d') ->
  evolves [GPUBuffer.id ids] 0 [EvCompact fl offs ids n] d d'
  /\ memory d'
     = write_at (memory d) ids 0
         (bytes_of_words
            (StreamCompactIDs.compact_words
               (words_of_bytes (bytes_at (memory d) fl))
               (words_of_bytes (bytes_at (memory d) offs))
               (words_of_bytes (bytes_at (memory d) ids)) (Z.to_nat n))).
Proof.
  intros [= <- <-]. split; [|done]. apply evolves_update.
  - rewrite length_write_at. lia.
  - intros j Hj _. apply lookup_write_at_ne. intros ->. apply Hj. left.
Qed.

Lemma bytes_at_app_new mem x s u :
  bytes_at (mem ++ [x]) (mkbuf (length mem) s u) = x.
Proof. unfold bytes_at. simpl. by rewrite lookup_app_r, Nat.sub_diag by lia. Qed.

Lemma bytes_at_app_old mem x b :
  (GPUBuffer.id b < length mem)%nat -> bytes_at (mem ++ [x]) b = bytes_at mem b.
Proof. intros Hb. unfold bytes_at. by rewrite lookup_app_l. Qed.

Lemma bytes_at_frame W k evs d d' b :
  evolves W k evs d d' -> GPUBuffer.id b ∉ W -> (GPUBuffer.id b < length (memory d))%nat ->
  bytes_at (memory d') b = bytes_at (memory d) b.
Proof. intros E Hb Hlt. unfold bytes_at. by rewrite (ev_frame E). Qed.

(** One primitive call inverted: its effect, and what it says of memory. *)
Ltac prim_inv H E M :=
  first
    [ apply deviceLimits_Ok in H as (-> & E & M)
    | apply createBuffer_Ok in H as (? & -> & E & M)
    | apply setMappedRange_Ok in H as (? & E & M)
    | apply submit_Ok in H as (? & E & M)
    | apply unmap_Ok in H as (E & M)
    | apply createBindGroup_Ok in H as (E & M)
    | apply onSubmittedWorkDone_Ok in H as (E & M)
    | apply mapRead_Ok in H as (E & M)
    | apply scan_Ok in H as (E & M)
    | apply compactActiveIDs_Ok in H as (E & M) ].

(** [step H Eacc]: [H] says that a sequence of calls returned; peel its first
    call off and add its effect to the effect [Eacc] so far. *)
Ltac step H Eacc :=
  let a := fresh "a" in
  let dn := fresh "d" in
  let Hp := fresh "Hp" in
  let E := fresh "E" in
  let M := fresh "M" in
  let Enew := fresh "E" in
  apply bind_Ok in H as (a & dn & Hp & H);
  prim_inv Hp E M;
  pose proof (evolves_trans _ _ _ _ _ _ _ _ _ Eacc E) as Enew;
  cbn [app Nat.add flat_map dsts_of] in Enew;
  try rewrite (ev_len Eacc) in *;
  try rewrite (ev_max Eacc) in *;
  try rewrite (ev_cap Eacc) in *;
  try rewrite (ev_stride Eacc) in *;
  clear E; clear Eacc; rename Enew into Eacc.

(** Boolean validity conditions turned into arithmetic. *)
Ltac valid_bools :=
  cbn [forallb command_valid recordable app
       volumeInfoBG_entries markActiveBG_entries computeNumVertsBG_entries
       pushConstantsBG_entries];
  unfold copy_valid, binding_valid, in_u32;
  cbn [binding_type binding_buffer binding_size default from_option id
       bg_volumeInfo bg_caseTable bg_activeIDs bg_numVerts bg_pushConstants bg_size
       GPUBuffer.size GPUBuffer.id GPUBuffer.usage mkbuf];
  repeat match goal with
         | |- context [has_usage ?f (mkbuf ?i ?s ?u)] =>
             change (has_usage f (mkbuf i s u)) with true
         end;
  rewrite ?Z.add_0_l, ?Z.mod_mul by lia;
  cbn [andb];
  rewrite ?andb_true_r, ?andb_true_iff, ?Z.leb_le, ?Z.ltb_lt, ?Z.eqb_eq, ?negb_true_iff,
    ?Nat.eqb_neq;
  split_and?; try done; try lia.

Lemma computeVertices_Ok mc av vo d vs d' :
  computeVertices mc av vo d = Ok (vs, d') ->
  let vertices :=
    mkbuf (length (memory d)) (count vo * 3 * 4)
          (Z.lor GPUBufferUsage.STORAGE GPUBufferUsage.VERTEX) in
  vs = vertices
  /\ 0 <= count vo * 3 * 4 <= maxBufferSize d
  /\ evolves [] 1 [EvCreateBuffer vertices false] d d'
  /\ memory d' = memory d ++ [replicate (Z.to_nat (count vo * 3 * 4)) 0].
Proof.
  unfold computeVertices. intros H.
  apply bind_Ok in H as (b & d1 & H1 & [= <- <-]).
  apply createBuffer_Ok in H1 as (Hs & -> & E & M). done.
Qed.

Lemma uploadIsovalue_Ok mc iso d u d' :
  uploadIsovalue mc iso d = Ok (u, d') ->
  evolves [length (memory d); GPUBuffer.id (volumeInfo mc)] 1
          (uploadIsovalue_trace mc (length (memory d))) d d'
  /\ ((GPUBuffer.id (volumeInfo mc) < length (memory d))%nat ->
      has_usage GPUBufferUsage.COPY_DST (volumeInfo mc) = true ->
      20 <= GPUBuffer.size (volumeInfo mc) ->
      bytes_at (memory d') (volumeInfo mc)
      = blit 16 (u32_le (float32_bits iso)) (bytes_at (memory d) (volumeInfo mc))).
Proof.
  unfold uploadIsovalue. intros H.
  pose proof (evolves_refl d) as E.
  step H E. step H E.
  apply submit_Ok in H as (_ & E' & M').
  pose proof (evolves_trans _ _ _ _ _ _ _ _ _ E E') as E2.
  cbn [app Nat.add flat_map dsts_of] in E2.
  split; [exact E2|].
  intros Hvi Hu Hsz.
  assert (Hv : forallb command_valid
                 [copyBufferToBuffer (mkbuf (0 + length (memory d)) 4 GPUBufferUsage.COPY_SRC) 0
                    (volumeInfo mc) 16 4] = true).
  { valid_bools. }
  rewrite M', Hv. cbn [foldl exec].
  rewrite bytes_at_write_at by lia.
  rewrite M0, M. rewrite bytes_at_write_at, bytes_at_app_new by lia.
  rewrite bytes_at_write_at_ne by (simpl; lia).
  rewrite bytes_at_app_old by done. done.
Qed.

Lemma evolves_weaken W W' k evs d d' :
  evolves W k evs d d' ->
  (forall j, (j < length (memory d))%nat -> j ∈ W -> j ∈ W') ->
  evolves W' k evs d d'.
Proof.
  intros [] HW. split; try done.
  intros j Hj Hlt. apply ev_frame0; [|done]. intros Hin. apply Hj. by apply HW.
Qed.

Lemma elem_of_dsts_const {A} (f : A -> Command) (c : nat) (l : list A) (j : nat) :
  (forall x, dsts_of (f x) = [c]) -> j ∈ flat_map dsts_of (map f l) -> j = c.
Proof.
  intros Hf. induction l as [|x l IH]; cbn [map flat_map]; intros Hj.
  - by apply elem_of_nil in Hj.
  - apply elem_of_app in Hj as [Hj|Hj]; [|by apply IH].
    rewrite Hf in Hj. by apply list_elem_of_singleton in Hj.
Qed.

(** [Hin] says that a buffer older than [base] is among the buffers that
    commands of the call wrote, all of them created by it: absurd. *)
Ltac not_written Hin base :=
  match type of Hin with
  | _ ∈ _ :: _ => apply elem_of_cons in Hin as [Hin|Hin]; [lia|not_written Hin base]
  | _ ∈ _ ++ _ =>
      apply elem_of_app in Hin as [Hin|Hin]; [not_written Hin base|not_written Hin base]
  | _ ∈ [] => by apply elem_of_nil in Hin
  | _ ∈ flat_map _ _ => apply (elem_of_dsts_const _ base) in Hin; [lia|done]
  end.

Lemma computeVertexOffsets_Ok mc av d vo d' :
  computeVertexOffsets mc av d = Ok (vo, d') ->
  let vertexOffsets :=
    mkbuf (length (memory d)) (ExclusiveScan.getAlignedSize (count av) * 4)
          (Z.lor (Z.lor GPUBufferUsage.STORAGE GPUBufferUsage.COPY_DST)
                 GPUBufferUsage.COPY_SRC) in
  buffer vo = vertexOffsets
  /\ evolves [] 2
        (computeVertexOffsets_trace mc av (length (memory d))
           (maxComputeWorkgroupsPerDimension d) (minUniformBufferOffsetAlignment d)
           (count vo)) d d'
  /\ exists d0, ExclusiveScan.scan vertexOffsets (count av) d0 = Ok (count vo, d').
Proof.
  unfold computeVertexOffsets. intros H.
  pose proof (evolves_refl d) as E.
  step H E. step H E.
  apply bind_Ok in H as (pc & d2 & Hp & H). unfold PushConstants.new in Hp.
  step Hp E. cbn [fst snd] in Hp. step Hp E. step Hp E. injection Hp as <- <-.
  cbn [PushConstants.pushConstantsBuffer PushConstants.stride] in H.
  step H E. step H E. step H E.
  apply bind_Ok in H as (nVertices & dlast & Hs & [= <- <-]).
  pose proof Hs as Hs'. apply scan_Ok in Hs' as (E' & _).
  pose proof (evolves_trans _ _ _ _ _ _ _ _ _ E E') as E2.
  cbn [app Nat.add] in E2.
  split; [done|]. split; [|eauto].
  eapply evolves_weaken; [exact E2|].
  intros j Hj Hin. exfalso. cbn [GPUBuffer.id mkbuf] in Hin.
  not_written Hin (length (memory d)).
Qed.

Lemma classify_memory mc (mem mem' : list (list Z)) x y z :
  markActiveBG mc = voxelActive mc ->
  (GPUBuffer.id (voxelActive mc) < length mem)%nat ->
  (GPUBuffer.id (bg_volumeInfo (volumeInfoBG mc)) < length mem)%nat ->
  let sz := Z.to_nat (GPUBuffer.size (voxelActive mc)) in
  let offs := mkbuf (length mem) (GPUBuffer.size (voxelActive mc))
                    (Z.lor (Z.lor GPUBufferUsage.COPY_DST GPUBufferUsage.COPY_SRC)
                           GPUBufferUsage.STORAGE) in
  mem' = foldl exec (mem ++ [replicate sz 0])
           [ dispatchMarkActiveVoxel (volumeInfoBG mc) (markActiveBG mc) x y z;
             copyBufferToBuffer (voxelActive mc) 0 offs 0 (GPUBuffer.size (voxelActive mc)) ] ->
  let active :=
    blit 0 (bytes_of_words
              (flag_words (bg_texture (volumeInfoBG mc))
                 (isovalue_word (bytes_at mem (bg_volumeInfo (volumeInfoBG mc))))))
         (bytes_at mem (voxelActive mc)) in
  bytes_at mem' (voxelActive mc) = active
  /\ bytes_at mem' offs = blit 0 (take sz (bytes_at mem' (voxelActive mc))) (replicate sz 0).
Proof.
  intros Hbg Hva Hvi sz offs -> active. subst active offs sz.
  cbn [foldl exec]. rewrite Hbg.
  rewrite (bytes_at_write_at_ne _ _ (voxelActive mc)) by (simpl; lia).
  rewrite !bytes_at_write_at by lia.
  rewrite (bytes_at_write_at_ne _ _ (mkbuf _ _ _)) by (simpl; lia).
  rewrite bytes_at_app_new, !bytes_at_app_old by done.
  by rewrite drop_0.
Qed.

(** The classification stage, with [accepted] telling whether the device
    ran its first submission. *)
Lemma computeActiveVoxels_Ok mc d av d' :
  computeActiveVoxels mc d = Ok (av, d') ->
  let base := length (memory d) in
  let n := dualGridNumVoxels (volume mc) in
  let sz := Z.to_nat (GPUBuffer.size (voxelActive mc)) in
  let accepted := classification_accepted mc base in
  buffer av = mkbuf (1 + base) (count av * 4)
                    (Z.lor GPUBufferUsage.STORAGE GPUBufferUsage.COPY_SRC)
  /\ evolves [GPUBuffer.id (markActiveBG mc)] 5
        (computeActiveVoxels_trace mc base (count av)) d d'
  /\ (markActiveBG mc = voxelActive mc ->
      (GPUBuffer.id (voxelActive mc) < base)%nat ->
      (GPUBuffer.id (bg_volumeInfo (volumeInfoBG mc)) < base)%nat ->
      let flags :=
        flag_words (bg_texture (volumeInfoBG mc))
          (isovalue_word (bytes_at (memory d) (bg_volumeInfo (volumeInfoBG mc)))) in
      let active := blit 0 (bytes_of_words flags) (bytes_at (memory d) (voxelActive mc)) in
      bytes_at (memory d') (voxelActive mc)
      = (if accepted then active else bytes_at (memory d) (voxelActive mc))
      /\ exists out,
           ExclusiveScan.scan_words
             (words_of_bytes
                (if accepted then blit 0 (take sz active) (replicate sz 0)
                 else replicate sz 0)) n
           = Some (out, count av)).
Proof.
  unfold computeActiveVoxels. intros H. cbv zeta.
  unfold computeActiveVoxels_trace, classification_accepted.
  destruct (dualGridDims (volume mc)) as [[g0 g1] g2].
  cbn [fst snd] in H.
  pose proof (evolves_refl d) as E.
  step H E. step H E.
  pose proof (evolves_refl d1) as R.
  cbn [GPUBuffer.size mkbuf] in H.
  do 17 step H R. injection H as <- <-.
  rewrite (ev_len E) in *. cbn [Nat.add] in *.
  cbn [count buffer].
  pose proof (evolves_trans _ _ _ _ _ _ _ _ _ E R) as ER.
  cbn [app Nat.add flat_map dsts_of] in ER.
  split; [done|]. split.
  - eapply evolves_weaken; [exact ER|].
    intros j Hj Hin. cbn [GPUBuffer.id mkbuf] in Hin.
    repeat (apply elem_of_cons in Hin as [Hin|Hin]; [first [lia | subst j; left]|]).
    by apply elem_of_nil in Hin.
  - intros Hbg Hva Hvi.
    assert (Hfr : bytes_at (memory d18) (voxelActive mc) = bytes_at (memory d1) (voxelActive mc)).
    { eapply bytes_at_frame; [exact R| |rewrite (ev_len E); lia].
      cbn [app flat_map dsts_of GPUBuffer.id mkbuf].
      intros Hin.
      repeat (apply elem_of_cons in Hin as [Hin|Hin]; [lia|]).
      by apply elem_of_nil in Hin. }
    destruct M2 as (out & Hscan & _). rewrite Hfr. rewrite M1 in Hscan.
    destruct (forallb command_valid _) eqn:Hok.
    + destruct (classify_memory mc (memory d) (memory d1) (ceil_div g0 4) (ceil_div g1 4)
                  (ceil_div g2 2) Hbg Hva Hvi) as [Hact Hoffs].
      { by rewrite M0, M. }
      split; [exact Hact|]. exists out. rewrite <- Hact, <- Hoffs. exact Hscan.
    + rewrite M0, M in Hscan |- *.
      rewrite bytes_at_app_old by done. split; [done|].
      exists out. by rewrite bytes_at_app_new in Hscan.
Qed.

Lemma computeActiveVoxels_sizes mc d av d' :
  computeActiveVoxels mc d = Ok (av, d') ->
  0 <= GPUBuffer.size (voxelActive mc)
  /\ 0 <= count av * 4
  /\ 0 <= dualGridNumVoxels (volume mc) * 4.
Proof.
  unfold computeActiveVoxels. intros H.
  destruct (dualGridDims (volume mc)) as [[g0 g1] g2]. cbn [fst snd] in H.
  pose proof (evolves_refl d) as E.
  do 19 step H E. injection H as <- <-. cbn [count]. lia.
Qed.

Lemma computeSurface_stages mc iso d res d' :
  computeSurface mc iso d = Ok (res, d') ->
  exists d1 av d2 vo d3,
    uploadIsovalue mc iso d = Ok (tt, d1)
    /\ computeActiveVoxels mc d1 = Ok (av, d2)
    /\ computeVertexOffsets mc av d2 = Ok (vo, d3)
    /\ computeVertices mc av vo d3 = Ok (buffer res, d')
    /\ count res = count vo.
Proof.
  unfold computeSurface. intros H.
  apply bind_Ok in H as ([] & d1 & H1 & H).
  apply bind_Ok in H as (av & d2 & H2 & H).
  apply bind_Ok in H as (vo & d3 & H3 & H).
  apply bind_Ok in H as (vs & d4 & H4 & [= <- <-]).
  exists d1, av, d2, vo, d3. done.
Qed.

Lemma classification_accepted_valid mc d base :
  mc_valid mc d -> (length (memory d) <= base)%nat ->
  classification_accepted mc base = (0 <? GPUBuffer.size (voxelActive mc)).
Proof.
  intros [(b0 & Hmc & Hb0) _ _ _ _ _ _ _ _ Hsz Hfit _ _ _] Hbase.
  rewrite Hsz in *. rewrite Hmc. unfold classification_accepted, created_at.
  cbn [volume volumeInfoBG markActiveBG voxelActive].
  destruct (Z.ltb_spec 0 (ExclusiveScan.getAlignedSize (dualGridNumVoxels (volume mc)) * 4))
    as [Hpos|Hpos].
  - valid_bools.
  - cbn [forallb command_valid app volumeInfoBG_entries markActiveBG_entries].
    unfold binding_valid at 2.
    cbn [binding_type binding_buffer binding_size default from_option id GPUBuffer.size mkbuf].
    destruct (Z.ltb_spec 0 (ExclusiveScan.getAlignedSize (dualGridNumVoxels (volume mc)) * 4));
      [lia|].
    by rewrite !andb_false_r.
Qed.

Lemma computeSurface_Ok mc iso d res d' :
  computeSurface mc iso d = Ok (res, d') ->
  let base := length (memory d) in
  let n := dualGridNumVoxels (volume mc) in
  let sz := Z.to_nat (GPUBuffer.size (voxelActive mc)) in
  let info := blit 16 (u32_le (float32_bits iso)) (bytes_at (memory d) (volumeInfo mc)) in
  let active :=
    blit 0 (bytes_of_words (flag_words (volume mc) (isovalue_word info)))
         (bytes_at (memory d) (voxelActive mc)) in
  exists nActive,
    buffer res = mkbuf (8 + base) (count res * 3 * 4)
                       (Z.lor GPUBufferUsage.STORAGE GPUBufferUsage.VERTEX)
    /\ evolves [base; GPUBuffer.id (volumeInfo mc); GPUBuffer.id (markActiveBG mc)] 9
          (computeSurface_trace mc base (maxComputeWorkgroupsPerDimension d)
             (minUniformBufferOffsetAlignment d) nActive (count res)) d d'
    /\ bytes_at (memory d') (buffer res) = replicate (Z.to_nat (count res * 3 * 4)) 0
    /\ (mc_valid mc d ->
        bytes_at (memory d') (volumeInfo mc) = info
        /\ bytes_at (memory d') (voxelActive mc) = active
        /\ exists out,
             ExclusiveScan.scan_words
               (words_of_bytes (blit 0 (take sz active) (replicate sz 0))) n
             = Some (out, nActive)).
Proof.
  intros H. cbv zeta.
  apply computeSurface_stages in H as (d1 & av & d2 & vo & d3 & H1 & H2 & H3 & H4 & Hc).
  apply uploadIsovalue_Ok in H1 as (E1 & C1).
  apply computeActiveVoxels_Ok in H2 as (Hav & E2 & C2).
  apply computeVertexOffsets_Ok in H3 as (Hvo & E3 & _).
  apply computeVertices_Ok in H4 as (Hvs & _ & E4 & M4).
  pose proof (ev_len E1) as L1. pose proof (ev_len E2) as L2. pose proof (ev_len E3) as L3.
  rewrite L1 in L2. rewrite L2 in L3.
  exists (count av). split; [|split; [|split]].
  - rewrite Hvs, Hc, L3. reflexivity.
  - pose proof (evolves_trans _ _ _ _ _ _ _ _ _ E1
                  (evolves_trans _ _ _ _ _ _ _ _ _ E2
                     (evolves_trans _ _ _ _ _ _ _ _ _ E3 E4))) as E.
    cbn [app Nat.add] in E.
    rewrite (ev_cap E2), (ev_stride E2), (ev_cap E1), (ev_stride E1) in E.
    rewrite L3, L2, L1 in E.
    cbn [Nat.add] in E.
    unfold computeSurface_trace. destruct av as [nActive ids].
    cbn [buffer count] in *. rewrite L1 in Hav. cbn [Nat.add] in Hav.
    subst ids. rewrite Hc. exact E.
  - rewrite Hvs, M4, Hc. apply bytes_at_app_new.
  - intros V.
    pose proof (classification_accepted_valid mc d (length (memory d1)) V ltac:(lia)) as Hacc.
    destruct V.
    assert (Hinfo1 : bytes_at (memory d1) (volumeInfo mc)
                     = blit 16 (u32_le (float32_bits iso)) (bytes_at (memory d) (volumeInfo mc))).
    { destruct mv_created0 as (b0 & Hmc & _). apply C1; [done|by rewrite Hmc|rewrite Hmc; simpl; lia]. }
    assert (Hact1 : bytes_at (memory d1) (voxelActive mc) = bytes_at (memory d) (voxelActive mc)).
    { eapply bytes_at_frame; [exact E1| |done].
      rewrite !not_elem_of_cons. split_and!; [lia|congruence|apply not_elem_of_nil]. }
    destruct C2 as [Hact2 Hscan]; [done|lia|rewrite mv_infoBG0; simpl; lia|].
    rewrite mv_infoBG0 in Hact2, Hscan. cbn [bg_texture bg_volumeInfo] in Hact2, Hscan.
    rewrite Hinfo1, Hact1, Hacc in Hact2, Hscan.
    assert (Hact2' : bytes_at (memory d2) (voxelActive mc)
                     = blit 0 (bytes_of_words
                                 (flag_words (volume mc)
                                    (isovalue_word
                                       (blit 16 (u32_le (float32_bits iso))
                                          (bytes_at (memory d) (volumeInfo mc))))))
                         (bytes_at (memory d) (voxelActive mc))).
    { destruct (Z.ltb_spec 0 (GPUBuffer.size (voxelActive mc))); [done|].
      rewrite Hact2.
      rewrite (nil_length_inv (bytes_at (memory d) (voxelActive mc)))
        by (rewrite mv_active_len0; lia).
      reflexivity. }
    destruct Hscan as [out Hscan].
    assert (Hscan' : ExclusiveScan.scan_words
                       (words_of_bytes
                          (blit 0 (take (Z.to_nat (GPUBuffer.size (voxelActive mc)))
                                     (blit 0 (bytes_of_words
                                                (flag_words (volume mc)
                                                   (isovalue_word
                                                      (blit 16 (u32_le (float32_bits iso))
                                                         (bytes_at (memory d) (volumeInfo mc))))))
                                        (bytes_at (memory d) (voxelActive mc))))
                             (replicate (Z.to_nat (GPUBuffer.size (voxelActive mc))) 0)))
                       (dualGridNumVoxels (volume mc)) = Some (out, count av)).
    { destruct (Z.ltb_spec 0 (GPUBuffer.size (voxelActive mc))); [done|].
      rewrite <- Hscan. do 2 f_equal.
      replace (Z.to_nat (GPUBuffer.size (voxelActive mc))) with 0%nat by lia.
      reflexivity. }
    clear Hact2 Hscan. rename Hact2' into Hact2.
    split; [|split].
    + rewrite <- Hinfo1.
      rewrite (bytes_at_frame _ _ _ _ _ _ E4) by (try apply not_elem_of_nil; lia).
      rewrite (bytes_at_frame _ _ _ _ _ _ E3) by (try apply not_elem_of_nil; lia).
      apply (bytes_at_frame _ _ _ _ _ _ E2); [|lia].
      rewrite mv_activeBG0, not_elem_of_cons. split; [done|apply not_elem_of_nil].
    + rewrite <- Hact2.
      rewrite (bytes_at_frame _ _ _ _ _ _ E4) by (try apply not_elem_of_nil; lia).
      apply (bytes_at_frame _ _ _ _ _ _ E3); [apply not_elem_of_nil|lia].
    + exists out. exact Hscan'.
Qed.

Lemma length_bytes_of_words ws : length (bytes_of_words ws) = (4 * length ws)%nat.
Proof.
  unfold bytes_of_words. induction ws as [|w ws IH]; [done|].
  cbn [map concat]. rewrite length_app, IH. simpl. lia.
Qed.

Lemma length_flag_words v iso :
  length (flag_words v iso) = Z.to_nat (dualGridNumVoxels v).
Proof. unfold flag_words. by rewrite length_map, length_seqZ. Qed.

Lemma lookup_replicate_0 (k i : nat) (x : Z) : replicate k 0 !! i = Some x -> x = 0.
Proof. intros H. by apply lookup_replicate in H as [-> _]. Qed.

Lemma create_valid v d0 mc d :
  create v d0 = Ok (mc, d) ->
  mc_valid mc d /\ volume mc = v
  /\ maxComputeWorkgroupsPerDimension d = maxComputeWorkgroupsPerDimension d0.
Proof.
  unfold create. intros H.
  pose proof (evolves_refl d0) as E.
  do 5 step H E. cbv zeta in H. do 2 step H E. injection H as <- <-.
  pose proof (ev_len E) as L. rewrite M5, M4 in *.
  assert (L3 : length (memory d4) = S (S (length (memory d0)))).
  { rewrite M3, length_app in L. simpl in L. lia. }
  assert (L2 : length (memory d3) = S (S (length (memory d0)))).
  { by rewrite M2, length_write_at in L3. }
  assert (L1 : length (memory d2) = S (length (memory d0))).
  { rewrite M1, length_app in L2. simpl in L2. lia. }
  assert (Hinfo : bytes_at (memory d5) (mkbuf (S (length (memory d0))) (8 * 4)
                             (Z.lor GPUBufferUsage.UNIFORM GPUBufferUsage.COPY_DST))
                  = blit 0 (bytes_of_words (dims_words v)) (replicate 32 0)).
  { rewrite M3, bytes_at_app_old by (simpl; lia).
    rewrite M2, bytes_at_write_at by lia.
    rewrite M1, <- L1. by rewrite bytes_at_app_new. }
  assert (Hact : bytes_at (memory d5)
                   (mkbuf (S (S (length (memory d0))))
                      (ExclusiveScan.getAlignedSize (dualGridNumVoxels v) * 4)
                      (Z.lor GPUBufferUsage.STORAGE GPUBufferUsage.COPY_SRC))
                 = replicate (Z.to_nat (ExclusiveScan.getAlignedSize (dualGridNumVoxels v) * 4)) 0).
  { rewrite M3, <- L3. apply bytes_at_app_new. }
  split; [|split; [done|apply (ev_cap E)]].
  split; cbn [volume triCaseTable volumeInfo voxelActive volumeInfoBG
              markActiveBG GPUBuffer.id GPUBuffer.size mkbuf] in *;
    rewrite ?M5, ?M4; try done; try lia.
  - exists (length (memory d0)). split; [reflexivity|lia].
  - rewrite Hinfo. unfold dims_words. by destruct (dims v) as [[x y] z].
  - rewrite Hinfo. apply length_blit.
  - rewrite (ev_max E). lia.
  - rewrite (ev_max E). lia.
  - rewrite Hact. apply length_replicate.
  - intros i x _. rewrite Hact. apply lookup_replicate_0.
Qed.

Lemma create_log v d0 mc d :
  create v d0 = Ok (mc, d) ->
  mc = created_at v (length (memory d0))
  /\ log d
     = log d0
       ++ [ EvCreateBuffer (triCaseTable mc) true;
            EvUnmap (triCaseTable mc);
            EvCreateBuffer (volumeInfo mc) true;
            EvUnmap (volumeInfo mc);
            EvCreateBuffer (voxelActive mc) false;
            EvCreateBindGroup (volumeInfoBG_entries (volumeInfoBG mc)) ]
       ++ [ EvCreateBindGroup (markActiveBG_entries (voxelActive mc)) ].
Proof.
  unfold create. intros H.
  pose proof (evolves_refl d0) as E.
  do 5 step H E. cbv zeta in H. do 2 step H E. injection H as <- <-.
  split; [reflexivity|]. rewrite (ev_log E). reflexivity.
Qed.

Lemma computeSurface_valid mc iso d res d' :
  mc_valid mc d -> computeSurface mc iso d = Ok (res, d') -> mc_valid mc d'.
Proof.
  intros V H.
  destruct (computeSurface_Ok _ _ _ _ _ H) as (nActive & _ & E & _ & C).
  destruct (C V) as (Hinfo & Hact & _). clear C.
  pose proof (ev_len E) as L. destruct V.
  split; try done; try lia.
  - destruct mv_created0 as (b0 & Hmc & Hb0). exists b0. split; [done|lia].
  - rewrite Hinfo, take_blit. done.
  - rewrite Hinfo. by rewrite length_blit.
  - by rewrite (ev_max E).
  - by rewrite (ev_max E).
  - rewrite Hact. by rewrite length_blit.
  - intros i x Hi. rewrite Hact, lookup_blit_ge; [by apply mv_active_pad0|].
    rewrite length_bytes_of_words, length_flag_words. lia.
Qed.

Lemma reachable_valid mc d : reachable mc d -> mc_valid mc d.
Proof.
  induction 1 as [v d0 d Hc|iso d res d' _ IH Hs].
  - by apply create_valid in Hc as (V & _).
  - by eapply computeSurface_valid.
Qed.

(** *** Calls that are known to return *)

Lemma succeeds_bind {A B} (m : GPU A) (k : A -> GPU B) d Q :
  succeeds m d (fun a d1 => succeeds (k a) d1 Q) -> succeeds (bind m k) d Q.
Proof.
  intros (a & d1 & Hm & b & d2 & Hk & HQ). exists b, d2. split; [|done].
  by eapply bind_intro.
Qed.

Lemma succeeds_ret {A} (a : A) d (Q : A -> GPUDevice -> Prop) :
  Q a d -> succeeds (ret a) d Q.
Proof. intros HQ. by exists a, d. Qed.

Lemma succeeds_createBuffer s u m d (Q : GPUBuffer.t -> GPUDevice -> Prop) :
  0 <= s <= maxBufferSize d -> (m = true -> s mod 4 = 0) ->
  (forall d', evolves [] 1 [EvCreateBuffer (mkbuf (length (memory d)) s u) m] d d' ->
              memory d' = memory d ++ [replicate (Z.to_nat s) 0] ->
              Q (mkbuf (length (memory d)) s u) d') ->
  succeeds (createBuffer s u m) d Q.
Proof.
  intros Hs Hm HQ. destruct (createBuffer_total s u m d Hs Hm) as (b & d' & H).
  exists b, d'. split; [done|].
  apply createBuffer_Ok in H as (_ & -> & E & M). by apply HQ.
Qed.

Lemma succeeds_setMappedRange b data d (Q : unit -> GPUDevice -> Prop) :
  Z.of_nat (length data) <= GPUBuffer.size b ->
  (forall d', evolves [GPUBuffer.id b] 0 [EvUnmap b] d d' -> Q tt d') ->
  succeeds (setMappedRange b data) d Q.
Proof.
  intros Hs HQ. destruct (setMappedRange_total b data d Hs) as (d' & H).
  exists tt, d'. split; [done|].
  apply setMappedRange_Ok in H as (_ & E & _). by apply HQ.
Qed.

Lemma succeeds_submit cmds d (Q : unit -> GPUDevice -> Prop) :
  forallb recordable cmds = true ->
  (forall d', evolves (flat_map dsts_of cmds) 0 [EvSubmit cmds] d d' ->
              memory d' = (if forallb command_valid cmds then foldl exec (memory d) cmds
                           else memory d) ->
              Q tt d') ->
  succeeds (submit cmds) d Q.
Proof.
  intros Hr HQ.
  assert (Hs : exists d', submit cmds d = Ok (tt, d')).
  { unfold submit. rewrite Hr. cbn [negb]. destruct (forallb command_valid cmds); eauto. }
  destruct Hs as [d' Hs]. exists tt, d'. split; [done|].
  apply submit_Ok in Hs as (_ & E & M). by apply HQ.
Qed.

Lemma succeeds_unmap b d (Q : unit -> GPUDevice -> Prop) :
  (forall d', evolves [] 0 [EvUnmap b] d d' -> memory d' = memory d -> Q tt d') ->
  succeeds (unmap b) d Q.
Proof.
  intros HQ. eexists tt, _. split; [reflexivity|].
  by apply HQ; apply (unmap_Ok b d tt).
Qed.

Lemma succeeds_createBindGroup entries d (Q : unit -> GPUDevice -> Prop) :
  (forall d', evolves [] 0 [EvCreateBindGroup entries] d d' -> memory d' = memory d ->
              Q tt d') ->
  succeeds (createBindGroup entries) d Q.
Proof.
  intros HQ. eexists tt, _. split; [reflexivity|].
  by apply HQ; apply (createBindGroup_Ok entries d tt).
Qed.

Lemma succeeds_onSubmittedWorkDone d (Q : unit -> GPUDevice -> Prop) :
  (forall d', evolves [] 0 [EvWorkDone] d d' -> memory d' = memory d -> Q tt d') ->
  succeeds onSubmittedWorkDone d Q.
Proof.
  intros HQ. eexists tt, _. split; [reflexivity|].
  by apply HQ; apply (onSubmittedWorkDone_Ok d tt).
Qed.

Lemma succeeds_mapRead b d (Q : list Z -> GPUDevice -> Prop) :
  (forall ws d', evolves [] 0 [EvMapRead b] d d' -> memory d' = memory d -> Q ws d') ->
  succeeds (mapRead b) d Q.
Proof.
  intros HQ. eexists _, _. split; [reflexivity|].
  by apply HQ; eapply (mapRead_Ok b d).
Qed.

Lemma succeeds_compactActiveIDs fl offs ids n d (Q : unit -> GPUDevice -> Prop) :
  (forall d', evolves [GPUBuffer.id ids] 0 [EvCompact fl offs ids n] d d' -> Q tt d') ->
  succeeds (StreamCompactIDs.compactActiveIDs fl offs ids n) d Q.
Proof.
  intros HQ. eexists tt, _. split; [reflexivity|].
  by apply HQ; eapply (compactActiveIDs_Ok fl offs ids n d tt).
Qed.

Lemma succeeds_scan b n d out t (Q : Z -> GPUDevice -> Prop) :
  ExclusiveScan.scan_words (words_of_bytes (bytes_at (memory d) b)) n = Some (out, t) ->
  (forall d', evolves [GPUBuffer.id b] 0 [EvScan b n t] d d' -> Q t d') ->
  succeeds (ExclusiveScan.scan b n) d Q.
Proof.
  intros Hs HQ. destruct (scan_total b n d out t Hs) as (d' & H).
  exists t, d'. split; [done|].
  apply scan_Ok in H as (E & _). by apply HQ.
Qed.

Lemma isovalue_word_blit w (old : list Z) :
  length old = 32%nat -> isovalue_word (blit 16 (u32_le w) old) = w mod 2 ^ 32.
Proof.
  intros Hlen. rewrite blit_fits by (simpl; lia).
  unfold isovalue_word. rewrite drop_app_length' by (rewrite length_take; lia).
  cbn [u32_le app]. apply u32_of_le_le.
Qed.

Lemma uploadIsovalue_valid mc iso d :
  mc_valid mc d ->
  exists d1,
    uploadIsovalue mc iso d = Ok (tt, d1)
    /\ mc_valid mc d1
    /\ isovalue_word (bytes_at (memory d1) (volumeInfo mc)) = float32_bits iso mod 2 ^ 32
    /\ maxBufferSize d1 = maxBufferSize d
    /\ maxComputeWorkgroupsPerDimension d1 = maxComputeWorkgroupsPerDimension d.
Proof.
  intros V.
  assert (Hs : succeeds (uploadIsovalue mc iso) d (fun _ _ => True)).
  { unfold uploadIsovalue.
    apply succeeds_bind, succeeds_createBuffer; [destruct V; lia|done|intros d1 _ _].
    apply succeeds_bind, succeeds_setMappedRange; [simpl; lia|intros d2 _].
    apply succeeds_submit; done. }
  destruct Hs as ([] & d1 & H & _). exists d1. split; [done|].
  apply uploadIsovalue_Ok in H as (E & C).
  destruct V. specialize (C mv_info_lt0).
  destruct mv_created0 as (b0 & Hmc & Hb0).
  assert (C' : bytes_at (memory d1) (volumeInfo mc)
               = blit 16 (u32_le (float32_bits iso)) (bytes_at (memory d) (volumeInfo mc))).
  { apply C; [by rewrite Hmc|rewrite Hmc; simpl; lia]. }
  clear C. rename C' into C.
  assert (Hact : bytes_at (memory d1) (voxelActive mc) = bytes_at (memory d) (voxelActive mc)).
  { eapply bytes_at_frame; [exact E| |done].
    rewrite !not_elem_of_cons. split_and!; [lia|congruence|apply not_elem_of_nil]. }
  pose proof (ev_len E) as L.
  split; [|split; [|split]].
  - split; try done; try lia.
    + exists b0. split; [done|lia].
    + by rewrite C, take_blit.
    + by rewrite C, length_blit.
    + by rewrite (ev_max E).
    + by rewrite (ev_max E).
    + by rewrite Hact.
    + by rewrite Hact.
  - rewrite C. by apply isovalue_word_blit.
  - apply (ev_max E).
  - apply (ev_cap E).
Qed.

Lemma zero_flags_buffer (flags old : list Z) (k sz : nat) :
  flags = replicate k 0 -> length old = sz -> (4 * k <= sz)%nat ->
  (forall (i : nat) x, (4 * k <= i)%nat -> old !! i = Some x -> x = 0) ->
  blit 0 (bytes_of_words flags) old = replicate sz 0.
Proof.
  intros -> Hlen Hk Hpad. rewrite bytes_of_words_zeros.
  apply list_eq. intros i.
  destruct (decide (i < 4 * k)%nat) as [Hi|Hi].
  - rewrite blit_fits by (rewrite length_replicate; lia).
    rewrite take_0, app_nil_l, lookup_app_l by (rewrite length_replicate; lia).
    by rewrite !lookup_replicate_2 by lia.
  - rewrite lookup_blit_ge by (rewrite length_replicate; lia).
    destruct (decide (i < sz)%nat) as [Hl|Hl].
    + rewrite lookup_replicate_2 by lia.
      destruct (lookup_lt_is_Some_2 old i ltac:(lia)) as [x Hx].
      rewrite Hx. f_equal. apply (Hpad i); [lia|done].
    + rewrite !lookup_ge_None_2; [done| |lia].
      rewrite length_replicate. lia.
Qed.

Lemma flag_words_zero v iso :
  (forall i, 0 <= i < dualGridNumVoxels v -> voxel_crosses v iso i = false) ->
  flag_words v iso = replicate (Z.to_nat (dualGridNumVoxels v)) 0.
Proof.
  intros Hno. unfold flag_words. apply list_eq. intros i.
  rewrite list_lookup_fmap.
  destruct (decide (i < Z.to_nat (dualGridNumVoxels v))%nat) as [Hi|Hi].
  - rewrite lookup_replicate_2 by done.
    rewrite lookup_seqZ_lt by lia. simpl. rewrite Hno by lia. done.
  - rewrite lookup_seqZ_ge by lia. simpl. symmetry.
    apply lookup_ge_None_2. rewrite length_replicate. lia.
Qed.

Lemma scan_words_zeros (k : nat) (n : Z) :
  2 <= ScanBlockSize -> 0 <= n ->
  (Z.to_nat (ExclusiveScan.getAlignedSize n) <= k)%nat ->
  exists out, ExclusiveScan.scan_words (replicate k 0) n = Some (out, 0).
Proof.
  intros HB Hn Hk.
  pose proof (scan_words_eq (replicate k 0) n HB) as Hs. cbv zeta in Hs.
  eexists. rewrite Hs. do 2 f_equal.
  rewrite take_replicate. apply sumZ_replicate_0.
Qed.

Ltac join Eacc E :=
  let T := fresh "E" in
  pose proof (evolves_trans _ _ _ _ _ _ _ _ _ Eacc E) as T;
  clear Eacc E; rename T into Eacc.

Lemma blit_zeros (a : nat) : blit 0 (replicate a 0) (replicate a 0) = replicate a 0.
Proof.
  rewrite blit_fits by (rewrite !length_replicate; lia).
  rewrite take_0, length_replicate, drop_replicate, Nat.sub_diag. simpl.
  by rewrite app_nil_r.
Qed.

Lemma ceil_div_bounds (a b : Z) : 0 < b -> a <= b * ceil_div a b < a + b.
Proof.
  intros Hb. unfold ceil_div.
  pose proof (Z.mod_pos_bound (a + b - 1) b Hb).
  pose proof (Z.div_mod (a + b - 1) b ltac:(lia)). lia.
Qed.

Lemma ceil_div_in_u32 (a b : Z) :
  0 < b -> 0 <= a < 2 ^ 32 -> in_u32 (ceil_div a b) = true.
Proof.
  intros Hb Ha. pose proof (ceil_div_bounds a b Hb) as Hc.
  unfold in_u32. rewrite andb_true_iff, Z.leb_le, Z.ltb_lt. nia.
Qed.

Lemma dualGrid_in_range_nonneg v : dualGrid_in_range v -> 0 <= dualGridNumVoxels v.
Proof.
  unfold dualGrid_in_range, dualGridNumVoxels.
  destruct (dualGridDims v) as [[x y] z]. intros (Hx & Hy & Hz).
  apply Z.mul_nonneg_nonneg; [apply Z.mul_nonneg_nonneg|]; lia.
Qed.

Lemma computeActiveVoxels_no_active mc d :
  mc_valid mc d -> 2 <= ScanBlockSize -> dualGrid_in_range (volume mc) ->
  (forall i, 0 <= i < dualGridNumVoxels (volume mc) ->
     voxel_crosses (volume mc) (isovalue_word (bytes_at (memory d) (volumeInfo mc))) i = false) ->
  succeeds (computeActiveVoxels mc) d (fun av _ => count av = 0).
Proof.
  intros V HB Hr Hno. destruct V.
  pose proof (dualGrid_in_range_nonneg _ Hr) as Hn.
  assert (HB0 : 0 < ScanBlockSize) by lia.
  pose proof (getAlignedSize_ge (dualGridNumVoxels (volume mc)) HB0) as Hal.
  unfold computeActiveVoxels, dualGrid_in_range in *.
  destruct (dualGridDims (volume mc)) as [[g0 g1] g2]. destruct Hr as (Hg0 & Hg1 & Hg2).
  cbn [fst snd].
  apply succeeds_bind, succeeds_createBuffer; [done|done|intros d1 E M1].
  apply succeeds_bind, succeeds_submit.
  { cbn [forallb recordable GPUBuffer.size mkbuf].
    rewrite !ceil_div_in_u32 by lia. rewrite !andb_true_iff, !Z.leb_le. lia. }
  intros d2 E2 M2.
  apply succeeds_bind, succeeds_onSubmittedWorkDone; intros d3 E3 M3.
  assert (Hoffs : bytes_at (memory d2)
                    (mkbuf (length (memory d)) (GPUBuffer.size (voxelActive mc))
                       (Z.lor (Z.lor GPUBufferUsage.COPY_DST GPUBufferUsage.COPY_SRC)
                          GPUBufferUsage.STORAGE))
                  = replicate (Z.to_nat (GPUBuffer.size (voxelActive mc))) 0).
  { destruct (forallb command_valid _).
    - destruct (classify_memory mc (memory d) (memory d2) (ceil_div g0 4) (ceil_div g1 4)
                  (ceil_div g2 2) mv_activeBG0 mv_active_lt0) as [Hact Hoffs].
      { rewrite mv_infoBG0. simpl. lia. }
      { by rewrite M2, M1. }
      rewrite mv_infoBG0 in Hact. cbn [bg_texture bg_volumeInfo] in Hact.
      rewrite (zero_flags_buffer _ _ (Z.to_nat (dualGridNumVoxels (volume mc)))
                 (Z.to_nat (GPUBuffer.size (voxelActive mc)))) in Hact;
        [|by apply flag_words_zero|done|lia|done].
      by rewrite Hact, take_replicate, Nat.min_id, blit_zeros in Hoffs.
    - rewrite M2, M1. apply bytes_at_app_new. }
  join E E2. join E E3.
  destruct (scan_words_zeros (Z.to_nat (ExclusiveScan.getAlignedSize (dualGridNumVoxels (volume mc))))
              (dualGridNumVoxels (volume mc)) HB Hn (Nat.le_refl _)) as [out Hs].
  apply succeeds_bind. eapply (succeeds_scan _ _ _ out 0).
  { rewrite M3, Hoffs, mv_active_size0.
    replace (Z.to_nat (ExclusiveScan.getAlignedSize (dualGridNumVoxels (volume mc)) * 4))
      with (4 * Z.to_nat (ExclusiveScan.getAlignedSize (dualGridNumVoxels (volume mc))))%nat by lia.
    by rewrite words_of_bytes_zeros. }
  intros d4 E4. join E E4.
  apply succeeds_bind, succeeds_createBuffer; [rewrite (ev_max E); lia|done|intros d5 E5 _].
  join E E5.
  apply succeeds_bind, succeeds_compactActiveIDs; intros d6 E6. join E E6.
  apply succeeds_bind, succeeds_createBuffer; [rewrite (ev_max E); lia|done|intros d7 E7 _].
  join E E7.
  apply succeeds_bind, succeeds_createBuffer; [rewrite (ev_max E); lia|done|intros d8 E8 _].
  join E E8.
  apply succeeds_bind, succeeds_submit.
  { cbn [forallb recordable GPUBuffer.size mkbuf]. rewrite !andb_true_iff, !Z.leb_le. lia. }
  intros d9 E9 _. join E E9.
  apply succeeds_bind, succeeds_onSubmittedWorkDone; intros d10 E10 _. join E E10.
  apply succeeds_bind, succeeds_mapRead; intros ws1 d11 E11 _. join E E11.
  apply succeeds_bind, succeeds_mapRead; intros ws2 d12 E12 _. join E E12.
  apply succeeds_bind, succeeds_unmap; intros d12a E12a _. join E E12a.
  apply succeeds_bind, succeeds_unmap; intros d12b E12b _. join E E12b.
  apply succeeds_bind, succeeds_createBuffer; [rewrite (ev_max E); lia|done|intros d13 E13 _].
  join E E13.
  apply succeeds_bind, succeeds_submit.
  { cbn [forallb recordable GPUBuffer.size mkbuf]. rewrite !andb_true_iff, !Z.leb_le. lia. }
  intros d14 E14 _. join E E14.
  apply succeeds_bind, succeeds_onSubmittedWorkDone; intros d15 E15 _. join E E15.
  apply succeeds_bind, succeeds_mapRead; intros ws3 d16 E16 _. join E E16.
  apply succeeds_bind, succeeds_unmap; intros d17 E17 _.
  by apply succeeds_ret.
Qed.

Lemma scan_words_empty (buf : list Z) :
  0 < ScanBlockSize -> ExclusiveScan.scan_words buf 0 = Some (buf, 0).
Proof.
  intros HB. unfold ExclusiveScan.scan_words. rewrite getAlignedSize_0 by done.
  change (Z.to_nat 0) with O. rewrite take_0, drop_0.
  cbn [ExclusiveScan.scan_rec length].
  destruct (Z.leb_spec (Z.of_nat 0) ScanBlockSize); [|lia]. reflexivity.
Qed.

Lemma computeVertexOffsets_no_active mc av d :
  count av = 0 -> 0 < ScanBlockSize -> 0 <= maxBufferSize d ->
  0 < maxComputeWorkgroupsPerDimension d ->
  succeeds (computeVertexOffsets mc av) d (fun vo _ => count vo = 0).
Proof.
  intros Hc HB Hmax Hcap. unfold computeVertexOffsets. rewrite Hc.
  rewrite getAlignedSize_0 by done.
  apply succeeds_bind, succeeds_createBuffer; [lia|done|intros d1 E _].
  apply succeeds_bind, succeeds_createBindGroup; intros d1a E1a _. join E E1a.
  apply succeeds_bind. unfold PushConstants.new.
  apply succeeds_bind. eexists _, d1a. split; [reflexivity|]. cbn [fst snd].
  rewrite (ev_cap E), (ev_stride E).
  assert (Hnd : ceil_div (ceil_div 0 32) (maxComputeWorkgroupsPerDimension d) = 0).
  { unfold ceil_div. change ((0 + 32 - 1) / 32) with 0. apply Z.div_small. lia. }
  rewrite Hnd.
  apply succeeds_bind, succeeds_createBuffer; [rewrite (ev_max E); lia|done|intros d2 E2 _].
  join E E2.
  apply succeeds_bind, succeeds_setMappedRange; [simpl; lia|intros d3 E3]. join E E3.
  apply succeeds_ret.
  apply succeeds_bind, succeeds_createBindGroup; intros d3a E3a _. join E E3a.
  apply succeeds_bind, succeeds_submit.
  { unfold PushConstants.numDispatches.
    cbn [PushConstants.totalWorkGroups PushConstants.maxWorkgroupsPerDimension].
    by rewrite Hnd. }
  intros d4 E4 _. join E E4.
  apply succeeds_bind, succeeds_onSubmittedWorkDone; intros d5 E5 _. join E E5.
  apply succeeds_bind. eapply (succeeds_scan _ _ _ _ 0); [by apply scan_words_empty|].
  intros d6 E6. by apply succeeds_ret.
Qed.

Lemma computeSurface_no_active mc iso d :
  mc_valid mc d -> 2 <= ScanBlockSize -> 0 < maxComputeWorkgroupsPerDimension d ->
  dualGrid_in_range (volume mc) ->
  (forall i, 0 <= i < dualGridNumVoxels (volume mc) ->
     voxel_crosses (volume mc) (float32_bits iso mod 2 ^ 32) i = false) ->
  exists res d',
    computeSurface mc iso d = Ok (res, d')
    /\ count res = 0
    /\ buffer res = mkbuf (8 + length (memory d)) 0
                       (Z.lor GPUBufferUsage.STORAGE GPUBufferUsage.VERTEX)
    /\ log d' = log d
                ++ computeSurface_trace mc (length (memory d))
                     (maxComputeWorkgroupsPerDimension d)
                     (minUniformBufferOffsetAlignment d) 0 0.
Proof.
  intros V HB Hcap Hr Hno.
  pose proof (dualGrid_in_range_nonneg _ Hr) as Hn.
  assert (HB0 : 0 < ScanBlockSize) by lia.
  destruct (uploadIsovalue_valid mc iso d V) as (d1 & H1 & V1 & Hiso & Hmax1 & Hcap1).
  destruct (computeActiveVoxels_no_active mc d1 V1 HB Hr) as (av & d2 & H2 & Hav).
  { by rewrite Hiso. }
  pose proof H2 as E2. apply computeActiveVoxels_Ok in E2 as (_ & E2 & _).
  destruct (computeVertexOffsets_no_active mc av d2 Hav HB0) as (vo & d3 & H3 & Hvo).
  { rewrite (ev_max E2), Hmax1. destruct V. lia. }
  { by rewrite (ev_cap E2), Hcap1. }
  pose proof H3 as E3. apply computeVertexOffsets_Ok in E3 as (_ & E3 & _).
  destruct (createBuffer_total (count vo * 3 * 4)
              (Z.lor GPUBufferUsage.STORAGE GPUBufferUsage.VERTEX) false d3)
    as (vs & d4 & H4).
  { rewrite Hvo, (ev_max E3), (ev_max E2), Hmax1. destruct V. lia. }
  { done. }
  assert (H : computeSurface mc iso d
              = Ok ({| count := count vo; buffer := vs |}, d4)).
  { unfold computeSurface.
    eapply bind_intro; [exact H1|]. eapply bind_intro; [exact H2|].
    eapply bind_intro; [exact H3|]. eapply bind_intro; [|reflexivity].
    unfold computeVertices. eapply bind_intro; [exact H4|]. reflexivity. }
  eexists _, _. split; [exact H|].
  destruct (computeSurface_Ok _ _ _ _ _ H) as (nActive & Hbuf & E & _ & C).
  destruct (C V) as (_ & _ & out & Hscan). clear C.
  cbn [count buffer] in *. rewrite Hvo in *.
  assert (HnA : nActive = 0).
  { destruct V.
    pose proof (getAlignedSize_ge (dualGridNumVoxels (volume mc)) HB0) as Hal.
    rewrite isovalue_word_blit in Hscan by done.
    rewrite (zero_flags_buffer _ _ (Z.to_nat (dualGridNumVoxels (volume mc)))
               (Z.to_nat (GPUBuffer.size (voxelActive mc)))) in Hscan;
      [|by apply flag_words_zero|done|lia|done].
    rewrite take_replicate, Nat.min_id, blit_zeros, mv_active_size0 in Hscan.
    replace (Z.to_nat (ExclusiveScan.getAlignedSize (dualGridNumVoxels (volume mc)) * 4))
      with (4 * Z.to_nat (ExclusiveScan.getAlignedSize (dualGridNumVoxels (volume mc))))%nat
      in Hscan by lia.
    rewrite words_of_bytes_zeros in Hscan.
    destruct (scan_words_zeros
                (Z.to_nat (ExclusiveScan.getAlignedSize (dualGridNumVoxels (volume mc))))
                (dualGridNumVoxels (volume mc)) HB Hn (Nat.le_refl _)) as [out' Hs'].
    congruence. }
  subst nActive. split; [done|]. split; [exact Hbuf|]. apply (ev_log E).
Qed.

Lemma create_total v d0 :
  4 * Z.of_nat (length MC_CASE_TABLE) <= maxBufferSize d0 ->
  32 <= maxBufferSize d0 ->
  0 <= ExclusiveScan.getAlignedSize (dualGridNumVoxels v) * 4 <= maxBufferSize d0 ->
  exists mc d, create v d0 = Ok (mc, d).
Proof.
  intros Htab Hinfo Hact.
  assert (Hs : succeeds (create v) d0 (fun _ _ => True)).
  { unfold create.
    apply succeeds_bind, succeeds_createBuffer;
      [lia|by rewrite Z.mul_comm, Z.mod_mul|intros d1 E _].
    apply succeeds_bind, succeeds_setMappedRange;
      [rewrite length_bytes_of_words; simpl; lia|intros d2 E2]. join E E2.
    apply succeeds_bind, succeeds_createBuffer; [rewrite (ev_max E); lia|done|intros d3 E3 _].
    join E E3.
    apply succeeds_bind, succeeds_setMappedRange;
      [unfold dims_words; destruct (dims v) as [[x y] z]; simpl; lia|intros d4 E4]. join E E4.
    apply succeeds_bind, succeeds_createBuffer; [rewrite (ev_max E); lia|done|intros d5 E5 _].
    cbv zeta.
    apply succeeds_bind, succeeds_createBindGroup; intros d6 E6 _.
    apply succeeds_bind, succeeds_createBindGroup; intros d7 E7 _.
    by apply succeeds_ret. }
  destruct Hs as (mc & d & H & _). eauto.
Qed.

(** ** The events of one [computeSurface] call *)

Lemma trace_positions mc base cap stride nActive nVertices :
  let evs := computeSurface_trace mc base cap stride nActive nVertices in
  let n := dualGridNumVoxels (volume mc) in
  evs !! 3%nat = Some (EvCreateBuffer (offsets_of mc base) false)
  /\ evs !! 6%nat = Some (EvScan (offsets_of mc base) n nActive)
  /\ evs !! 7%nat = Some (EvCreateBuffer (ids_of base nActive) false)
  /\ evs !! 8%nat = Some (EvCompact (voxelActive mc) (offsets_of mc base) (ids_of base nActive) n)
  /\ evs !! 22%nat = Some (EvCreateBuffer (vertexOffsets_of base nActive) false)
  /\ evs !! 29%nat = Some (EvScan (vertexOffsets_of base nActive) nActive nVertices)
  /\ evs !! 30%nat = Some (EvCreateBuffer (vertices_of base nVertices) false)
  /\ length evs = 31%nat.
Proof. cbv zeta. split_and!; reflexivity. Qed.

Lemma not_mentions_dispatches (b : GPUBuffer.t) (f : Z -> Command) (l : list Z) :
  (forall i, GPUBuffer.id b ∉ map GPUBuffer.id (buffers_of_command (f i))) ->
  ~ mentions b (EvSubmit (map f l)).
Proof.
  intros Hf. unfold mentions. cbn [buffers_of_event].
  induction l as [|i l IH]; cbn [map concat]; [apply not_elem_of_nil|].
  rewrite map_app, not_elem_of_app. split; [apply Hf|apply IH].
Qed.

Lemma not_mentions_cons (b : GPUBuffer.t) (c : Command) (cmds : list Command) :
  GPUBuffer.id b ∉ map GPUBuffer.id (buffers_of_command c) ->
  ~ mentions b (EvSubmit cmds) -> ~ mentions b (EvSubmit (c :: cmds)).
Proof.
  unfold mentions. cbn [buffers_of_event map concat].
  rewrite map_app, not_elem_of_app. tauto.
Qed.

Ltac not_mentioned :=
  first
    [ apply not_mentions_dispatches; intros ?
    | apply not_mentions_cons;
      [|apply not_mentions_cons; [|apply not_mentions_dispatches; intros ?]]
    | unfold mentions ];
  cbn [buffers_of_event buffers_of_command map concat app GPUBuffer.id mkbuf
       bg_volumeInfo bg_caseTable bg_activeIDs bg_numVerts bg_pushConstants
       volumeInfoBG_entries computeNumVertsBG_entries pushConstantsBG_entries
       binding_buffer buffer
       offsets_of ids_of vertexOffsets_of vertices_of];
  rewrite ?not_elem_of_cons; split_and?; try lia; try apply not_elem_of_nil.

Lemma trace_not_mentioned mc d cap stride nActive nVertices :
  mc_valid mc d ->
  let base := length (memory d) in
  let evs := computeSurface_trace mc base cap stride nActive nVertices in
  (forall (k : nat) e, (k <= 6)%nat -> evs !! k = Some e ->
     ~ mentions (ids_of base nActive) e /\ ~ mentions (vertexOffsets_of base nActive) e)
  /\ (forall (k : nat) e, (k <= 29)%nat -> evs !! k = Some e ->
        ~ mentions (vertices_of base nVertices) e).
Proof.
  intros V. destruct V. cbv zeta.
  unfold computeSurface_trace, uploadIsovalue_trace, computeActiveVoxels_trace,
    computeVertexOffsets_trace.
  rewrite mv_infoBG0, mv_activeBG0. cbn [app].
  split.
  - intros k e Hk He.
    do 7 (destruct k as [|k]; [injection He as <-; split; not_mentioned|]). lia.
  - intros k e Hk He.
    do 30 (destruct k as [|k]; [injection He as <-; not_mentioned|]). lia.
Qed.

Lemma trace_creations mc base cap stride nActive nVertices b m :
  EvCreateBuffer b m ∈ computeSurface_trace mc base cap stride nActive nVertices ->
  (base <= GPUBuffer.id b)%nat.
Proof.
  unfold computeSurface_trace, uploadIsovalue_trace, computeActiveVoxels_trace,
    computeVertexOffsets_trace. cbn [app]. intros H.
  repeat (apply elem_of_cons in H as [H|H];
          [first [discriminate H | injection H as -> _; simpl; lia]|]).
  by apply elem_of_nil in H.
Qed.

(** ** What the vertex-count pass writes *)

Lemma blit_cons (off : nat) (data : list Z) (b : Z) (bs : list Z) :
  blit (S off) data (b :: bs) = b :: blit off data bs.
Proof. reflexivity. Qed.

Lemma words_of_bytes_blit (j : nat) (w : Z) (bs : list Z) :
  (4 * j + 4 <= length bs)%nat ->
  words_of_bytes (blit (4 * j) (u32_le w) bs) = <[j := w mod 2 ^ 32]> (words_of_bytes bs).
Proof.
  revert bs. induction j as [|j IH]; intros bs Hlen.
  - destruct bs as [|b0 [|b1 [|b2 [|b3 rest]]]]; simpl in Hlen; try lia.
    rewrite blit_fits by (simpl; lia).
    cbn [Nat.mul take app u32_le length Nat.add drop words_of_bytes].
    rewrite u32_of_le_le. reflexivity.
  - destruct bs as [|b0 [|b1 [|b2 [|b3 rest]]]]; simpl in Hlen; try lia.
    replace (4 * S j)%nat with (S (S (S (S (4 * j))))) by lia.
    rewrite !blit_cons. cbn [words_of_bytes]. rewrite IH by lia. reflexivity.
Qed.

Lemma words_of_bytes_app (ws : list Z) (rest : list Z) :
  words_of_bytes (bytes_of_words ws ++ rest)
  = map (fun w => w mod 2 ^ 32) ws ++ words_of_bytes rest.
Proof.
  unfold bytes_of_words. induction ws as [|w ws IH]; [done|].
  cbn [map concat u32_le app words_of_bytes]. by rewrite IH, u32_of_le_le.
Qed.

(** Words written one by one into a list of words. *)
Lemma length_foldl_insert (h : Z -> Z) (items : list Z) (ws : list Z) :
  length (foldl (fun ws j => <[Z.to_nat j := h j]> ws) ws items) = length ws.
Proof.
  revert ws. induction items as [|j items IH]; intros ws; [done|].
  cbn [foldl]. by rewrite IH, length_insert.
Qed.

Lemma lookup_foldl_insert (h : Z -> Z) (items : list Z) (ws : list Z) (k : nat) :
  Forall (fun j => 0 <= j) items ->
  (k < length ws)%nat ->
  foldl (fun ws j => <[Z.to_nat j := h j]> ws) ws items !! k
  = if decide (Z.of_nat k ∈ items) then Some (h (Z.of_nat k)) else ws !! k.
Proof.
  intros Hpos Hk. induction items as [|j items IH] using rev_ind.
  - cbn [foldl]. destruct (decide _) as [Hin|_]; [by apply elem_of_nil in Hin|done].
  - apply Forall_app in Hpos as [Hpos Hj]. apply Forall_inv in Hj.
    rewrite foldl_app. cbn [foldl].
    destruct (decide (Z.to_nat j = k)) as [Hjk|Hjk].
    + subst k. rewrite list_lookup_insert_eq by (rewrite length_foldl_insert; lia).
      rewrite Z2Nat.id by lia.
      destruct (decide (j ∈ items ++ [j])) as [_|Hn]; [done|]. exfalso. apply Hn.
      apply elem_of_app. right. left.
    + rewrite list_lookup_insert_ne by done. rewrite IH by done.
      destruct (decide (Z.of_nat k ∈ items)) as [Hin|Hin].
      * destruct (decide (Z.of_nat k ∈ items ++ [j])) as [_|Hn]; [done|]. exfalso. apply Hn.
        apply elem_of_app. by left.
      * destruct (decide (Z.of_nat k ∈ items ++ [j])) as [Hin'|_]; [|done]. exfalso.
        apply elem_of_app in Hin' as [Hin'|Hin']; [done|].
        apply list_elem_of_singleton in Hin'. lia.
Qed.

(** The writes of one chunk of the pass: item [j] gets the word [f j]. *)
Definition chunk_writes (vo : GPUBuffer.t) (f : Z -> Z) (mem : list (list Z)) (items : list Z)
  : list (list Z) :=
  foldl (fun m j => write_at m vo (4 * j) (u32_le (f j))) mem items.

Lemma chunk_writes_app vo f mem (a b : list Z) :
  chunk_writes vo f mem (a ++ b) = chunk_writes vo f (chunk_writes vo f mem a) b.
Proof. unfold chunk_writes. apply foldl_app. Qed.

Lemma bytes_at_chunk_writes_ne vo f mem items b :
  GPUBuffer.id b <> GPUBuffer.id vo ->
  bytes_at (chunk_writes vo f mem items) b = bytes_at mem b.
Proof.
  intros Hne. revert mem. induction items as [|j items IH]; intros mem; [done|].
  unfold chunk_writes in *. cbn [foldl]. rewrite IH. by apply bytes_at_write_at_ne.
Qed.

Lemma words_chunk_writes vo f mem items :
  Forall (fun j => 0 <= j /\ 4 * j + 4 <= Z.of_nat (length (bytes_at mem vo))) items ->
  words_of_bytes (bytes_at (chunk_writes vo f mem items) vo)
  = foldl (fun ws j => <[Z.to_nat j := f j mod 2 ^ 32]> ws)
          (words_of_bytes (bytes_at mem vo)) items.
Proof.
  revert mem. induction items as [|j items IH]; intros mem Hall; [done|].
  apply Forall_cons in Hall as [[Hj Hfit] Hall].
  unfold chunk_writes in *. cbn [foldl].
  assert (Hb : bytes_at (write_at mem vo (4 * j) (u32_le (f j))) vo
               = blit (4 * Z.to_nat j) (u32_le (f j)) (bytes_at mem vo)).
  { rewrite bytes_at_write_at by lia. f_equal. lia. }
  rewrite IH.
  - rewrite Hb, words_of_bytes_blit by lia. reflexivity.
  - rewrite Hb, length_blit. exact Hall.
Qed.

(** The dispatches of the pass, one after the other, write what the
    chunks list: the buffers they read are not the one they write. *)
Lemma foldl_exec_dispatches bg0 bg1 bg2 (off x : Z -> Z) (info idsb pcb : list Z)
    (l : list Z) mem :
  GPUBuffer.id (bg_volumeInfo bg0) <> GPUBuffer.id (bg_numVerts bg1) ->
  GPUBuffer.id (bg_activeIDs bg1) <> GPUBuffer.id (bg_numVerts bg1) ->
  GPUBuffer.id (bg_pushConstants bg2) <> GPUBuffer.id (bg_numVerts bg1) ->
  bytes_at mem (bg_volumeInfo bg0) = info ->
  bytes_at mem (bg_activeIDs bg1) = idsb ->
  bytes_at mem (bg_pushConstants bg2) = pcb ->
  foldl exec mem (map (fun i => dispatchComputeNumVerts bg0 bg1 bg2 (off i) (x i) 1 1) l)
  = chunk_writes (bg_numVerts bg1)
      (fun j => voxel_num_verts (bg_texture bg0) (isovalue_word info)
                  (default 0 (words_of_bytes idsb !! Z.to_nat j)))
      mem
      (concat (map (fun i => chunk_items pcb (off i) (x i)
                                (Z.of_nat (length (words_of_bytes idsb)))) l)).
Proof.
  intros Hinfo Hids Hpc. revert mem.
  induction l as [|a l IH]; intros mem Ei Ed Ep; [done|].
  cbn [map foldl concat]. rewrite chunk_writes_app.
  assert (Hstep : exec mem (dispatchComputeNumVerts bg0 bg1 bg2 (off a) (x a) 1 1)
                  = chunk_writes (bg_numVerts bg1)
                      (fun j => voxel_num_verts (bg_texture bg0) (isovalue_word info)
                                  (default 0 (words_of_bytes idsb !! Z.to_nat j)))
                      mem
                      (chunk_items pcb (off a) (x a)
                         (Z.of_nat (length (words_of_bytes idsb))))).
  { cbn [exec]. rewrite Ei, Ed, Ep. reflexivity. }
  rewrite Hstep. apply IH; rewrite bytes_at_chunk_writes_ne; done.
Qed.

Lemma length_block cap stride consts i :
  length (PushConstants.block cap stride consts i) = Z.to_nat stride.
Proof.
  unfold PushConstants.block.
  rewrite length_take, !length_app, length_replicate. lia.
Qed.

Lemma drop_concat_uniform {A} (ls : list (list A)) (s i : nat) :
  Forall (fun l => length l = s) ls -> drop (i * s) (concat ls) = concat (drop i ls).
Proof.
  revert ls. induction i as [|i IH]; intros ls Hls; [done|].
  destruct ls as [|l ls]; [cbn [concat]; by rewrite !drop_nil|].
  apply Forall_cons in Hls as [Hl Hls].
  cbn [concat drop]. rewrite <- (IH ls Hls).
  replace (S i * s)%nat with (length l + i * s)%nat by lia.
  by rewrite drop_app_add.
Qed.

(** The chunk that the dispatch at dynamic offset [i * stride] covers. *)
Lemma chunk_items_block cap stride consts nDispatches i x nIDs :
  4 <= stride -> 0 <= i < nDispatches ->
  chunk_items (concat (map (PushConstants.block cap stride consts) (seqZ 0 nDispatches)))
              (i * stride) x nIDs
  = filter (fun j => j < nIDs) (seqZ ((i * cap) mod 2 ^ 32 * 32) (x * 32)).
Proof.
  intros Hs Hi. unfold chunk_items.
  replace (Z.to_nat (i * stride)) with (Z.to_nat i * Z.to_nat stride)%nat by lia.
  rewrite drop_concat_uniform
    by (apply Forall_forall; intros b Hb;
        apply list_elem_of_fmap in Hb as (k & -> & _); apply length_block).
  assert (Hl : map (PushConstants.block cap stride consts) (seqZ 0 nDispatches) !! Z.to_nat i
               = Some (PushConstants.block cap stride consts i)).
  { rewrite list_lookup_fmap, lookup_seqZ_lt by lia. simpl. do 2 f_equal. lia. }
  rewrite (drop_S _ _ _ Hl). cbn [concat].
  unfold PushConstants.block at 1.
  destruct (Z.to_nat stride) as [|[|[|[|k]]]] eqn:Hk; try lia.
  cbn [u32_le app take]. rewrite u32_of_le_le. reflexivity.
Qed.

(** The chunks of the pass cover the items below the number of IDs, and
    nothing else. *)
Lemma chunks_cover (nA cap j : Z) :
  0 < cap -> 0 <= j < nA ->
  let pc := {| PushConstants.totalWorkGroups := ceil_div nA 32;
               PushConstants.maxWorkgroupsPerDimension := cap;
               PushConstants.stride := 0;
               PushConstants.pushConstantsBuffer := mkbuf 0 0 0 |} in
  exists i,
    0 <= i < PushConstants.numDispatches pc
    /\ i * cap * 32 <= j < i * cap * 32 + PushConstants.dispatchSize pc i * 32.
Proof.
  intros Hcap Hj. cbv zeta.
  unfold PushConstants.numDispatches, PushConstants.dispatchSize.
  cbn [PushConstants.totalWorkGroups PushConstants.maxWorkgroupsPerDimension].
  pose proof (ceil_div_bounds nA 32 ltac:(lia)) as HT.
  pose proof (ceil_div_bounds (ceil_div nA 32) cap Hcap) as HD.
  set (T := ceil_div nA 32) in *. set (D := ceil_div T cap) in *.
  pose proof (Z.div_mod j 32 ltac:(lia)) as Hq.
  pose proof (Z.mod_pos_bound j 32 ltac:(lia)) as Hqr.
  set (q := j / 32) in *.
  pose proof (Z.div_mod q cap ltac:(lia)) as Hi.
  pose proof (Z.mod_pos_bound q cap Hcap) as Hir.
  set (i := q / cap) in *.
  assert (Hq0 : 0 <= q) by (subst q; apply Z.div_pos; lia).
  assert (Hi0 : 0 <= i) by (subst i; apply Z.div_pos; lia).
  assert (HqT : q < T) by lia.
  assert (HiD : i < D) by nia.
  exists i. split; [lia|].
  change (PushConstants.numDispatches _) with D.
  destruct (Z.ltb_spec (i + 1) D); lia.
Qed.

Lemma elem_of_concat_map {A B} (F : A -> list B) (l : list A) (y : B) :
  y ∈ concat (map F l) <-> exists x, x ∈ l /\ y ∈ F x.
Proof.
  induction l as [|a l IH]; cbn [map concat].
  - split; [intros H; by apply elem_of_nil in H|intros (x & H & _); by apply elem_of_nil in H].
  - rewrite elem_of_app, IH. split.
    + intros [H|(x & Hx & H)]; [exists a; split; [left|done]|exists x; split; [by right|done]].
    + intros (x & Hx & H). apply elem_of_cons in Hx as [->|Hx]; [by left|right; eauto].
Qed.

Lemma length_concat_uniform {A} (ls : list (list A)) (s : nat) :
  Forall (fun l => length l = s) ls -> length (concat ls) = (length ls * s)%nat.
Proof.
  induction 1 as [|l ls Hl _ IH]; [done|].
  cbn [concat length]. rewrite length_app, IH, Hl. lia.
Qed.

(** The words of the vertex-count buffer when the dispatches of the pass
    have run on a device that holds the ID list, the fresh all-zero
    vertex-count buffer and the blocks of push constants: the vertex count
    of every listed voxel, in the order of the list, then zeros. *)
Lemma vertex_count_pass_words mc av (mem : list (list Z)) (cap stride : Z) :
  let nA := count av in
  let A := ExclusiveScan.getAlignedSize nA in
  let D := ceil_div (ceil_div nA 32) cap in
  let vob := mkbuf (length mem) (A * 4)
                   (Z.lor (Z.lor GPUBufferUsage.STORAGE GPUBufferUsage.COPY_DST)
                          GPUBufferUsage.COPY_SRC) in
  let pcb := mkbuf (S (length mem)) (D * stride) GPUBufferUsage.UNIFORM in
  let pc := {| PushConstants.totalWorkGroups := ceil_div nA 32;
               PushConstants.maxWorkgroupsPerDimension := cap;
               PushConstants.stride := stride;
               PushConstants.pushConstantsBuffer := pcb |} in
  let mem2 :=
    write_at ((mem ++ [replicate (Z.to_nat (A * 4)) 0])
              ++ [replicate (Z.to_nat (D * stride)) 0]) pcb 0
      (concat (map (PushConstants.block cap stride (u32_le nA)) (seqZ 0 D))) in
  let ids := words_of_bytes (bytes_at mem (buffer av)) in
  0 < ScanBlockSize -> 0 < cap -> 4 <= stride -> 0 <= nA < 2 ^ 32 ->
  (GPUBuffer.id (bg_volumeInfo (volumeInfoBG mc)) < length mem)%nat ->
  (GPUBuffer.id (buffer av) < length mem)%nat ->
  Z.of_nat (length ids) = nA ->
  words_of_bytes
    (bytes_at
       (foldl exec mem2
          (map (fun i =>
                  dispatchComputeNumVerts (volumeInfoBG mc)
                    {| bg_caseTable := triCaseTable mc;
                       bg_activeIDs := buffer av;
                       bg_numVerts := vob |}
                    {| bg_pushConstants := pcb; bg_size := 12 |}
                    (i * stride) (PushConstants.dispatchSize pc i) 1 1)
               (seqZ 0 D)))
       vob)
  = map (fun id =>
           voxel_num_verts (bg_texture (volumeInfoBG mc))
             (isovalue_word (bytes_at mem (bg_volumeInfo (volumeInfoBG mc)))) id
           mod 2 ^ 32) ids
    ++ replicate (Z.to_nat A - length ids) 0.
Proof.
  intros nA A D vob pcb pc mem2 ids HB Hcap Hs HnA Hinfo Hids Hlen.
  pose proof (getAlignedSize_ge nA HB) as HA.
  pose proof (ceil_div_bounds nA 32 ltac:(lia)) as HT.
  pose proof (ceil_div_bounds (ceil_div nA 32) cap Hcap) as HD.
  fold D in HD.
  assert (HD0 : 0 <= D) by nia.
  (* what the pass reads and the buffer it writes, before it runs *)
  assert (Ei : bytes_at mem2 (bg_volumeInfo (volumeInfoBG mc))
               = bytes_at mem (bg_volumeInfo (volumeInfoBG mc))).
  { subst mem2. rewrite bytes_at_write_at_ne by (subst pcb; simpl; lia).
    rewrite !bytes_at_app_old; [done|lia|rewrite length_app; simpl; lia]. }
  assert (Ed : bytes_at mem2 (buffer av) = bytes_at mem (buffer av)).
  { subst mem2. rewrite bytes_at_write_at_ne by (subst pcb; simpl; lia).
    rewrite !bytes_at_app_old; [done|lia|rewrite length_app; simpl; lia]. }
  assert (Lb : length (concat (map (PushConstants.block cap stride (u32_le nA)) (seqZ 0 D)))
               = Z.to_nat (D * stride)).
  { rewrite (length_concat_uniform _ (Z.to_nat stride)).
    - rewrite length_map, length_seqZ. lia.
    - apply Forall_forall. intros b Hb.
      apply list_elem_of_fmap in Hb as (k & -> & _). apply length_block. }
  assert (Ep : bytes_at mem2 pcb
               = concat (map (PushConstants.block cap stride (u32_le nA)) (seqZ 0 D))).
  { subst mem2. rewrite bytes_at_write_at by lia.
    replace pcb with (mkbuf (length (mem ++ [replicate (Z.to_nat (A * 4)) 0])) (D * stride)
                            GPUBufferUsage.UNIFORM)
      by (subst pcb; rewrite length_app; simpl; f_equal; lia).
    rewrite bytes_at_app_new. apply blit_all. by rewrite length_replicate. }
  assert (Ev : bytes_at mem2 vob = replicate (Z.to_nat (A * 4)) 0).
  { subst mem2. rewrite bytes_at_write_at_ne by (subst pcb vob; simpl; lia).
    rewrite bytes_at_app_old by (subst vob; rewrite length_app; simpl; lia).
    subst vob. apply bytes_at_app_new. }
  assert (N1 : GPUBuffer.id (bg_volumeInfo (volumeInfoBG mc)) <> GPUBuffer.id vob)
    by (subst vob; simpl; lia).
  assert (N2 : GPUBuffer.id (buffer av) <> GPUBuffer.id vob) by (subst vob; simpl; lia).
  assert (N3 : GPUBuffer.id pcb <> GPUBuffer.id vob) by (subst vob pcb; simpl; lia).
  rewrite (foldl_exec_dispatches (volumeInfoBG mc)
             {| bg_caseTable := triCaseTable mc; bg_activeIDs := buffer av;
                bg_numVerts := vob |}
             {| bg_pushConstants := pcb; bg_size := 12 |}
             (fun i => i * stride) (fun i => PushConstants.dispatchSize pc i)
             _ _ _ (seqZ 0 D) mem2 N1 N2 N3 Ei Ed Ep).
  cbn [bg_numVerts bg_texture].
  fold ids. rewrite Hlen.
  set (items := concat (map (fun i => chunk_items _ (i * stride)
                                        (PushConstants.dispatchSize pc i) nA) (seqZ 0 D))).
  (* the items of the chunks are the indices of the ID list *)
  assert (Hitems : forall j, j ∈ items <-> 0 <= j < nA).
  { intros j. subst items. rewrite elem_of_concat_map. split.
    - intros (i & Hi & Hj). apply elem_of_seqZ in Hi.
      rewrite chunk_items_block in Hj by lia.
      apply list_elem_of_filter in Hj as [Hlt Hj]. apply elem_of_seqZ in Hj.
      pose proof (Z.mod_pos_bound (i * cap) (2 ^ 32) ltac:(lia)). lia.
    - intros Hj.
      destruct (chunks_cover nA cap j Hcap Hj) as (i & Hi & Hin). cbv zeta in Hi, Hin.
      change (PushConstants.numDispatches _) with D in Hi.
      exists i. split; [apply elem_of_seqZ; lia|].
      rewrite chunk_items_block by lia.
      apply list_elem_of_filter. split; [lia|].
      rewrite Z.mod_small by nia. apply elem_of_seqZ.
      change (PushConstants.dispatchSize pc i)
        with (PushConstants.dispatchSize
                {| PushConstants.totalWorkGroups := ceil_div nA 32;
                   PushConstants.maxWorkgroupsPerDimension := cap;
                   PushConstants.stride := 0;
                   PushConstants.pushConstantsBuffer := mkbuf 0 0 0 |} i).
      lia. }
  rewrite words_chunk_writes.
  2: { apply Forall_forall. intros j Hj. apply Hitems in Hj.
       rewrite Ev, length_replicate. lia. }
  rewrite Ev.
  replace (Z.to_nat (A * 4)) with (4 * Z.to_nat A)%nat by lia.
  rewrite words_of_bytes_zeros.
  apply list_eq. intros k.
  destruct (decide (k < Z.to_nat A)%nat) as [Hk|Hk].
  - rewrite lookup_foldl_insert; [| |by rewrite length_replicate].
    2: { apply Forall_forall. intros j Hj. apply Hitems in Hj. lia. }
    destruct (decide (Z.of_nat k ∈ items)) as [Hin|Hin].
    + apply Hitems in Hin.
      rewrite lookup_app_l by (rewrite length_map; lia).
      rewrite list_lookup_fmap, Nat2Z.id.
      destruct (lookup_lt_is_Some_2 ids k ltac:(lia)) as [x Hx].
      rewrite Hx. reflexivity.
    + rewrite lookup_replicate_2 by done.
      assert (Hge : (length ids <= k)%nat).
      { destruct (decide (length ids <= k)%nat); [done|]. exfalso. apply Hin, Hitems. lia. }
      rewrite lookup_app_r by (rewrite length_map; lia).
      rewrite lookup_replicate_2; [done|]. rewrite length_map. lia.
  - rewrite !lookup_ge_None_2; [done| |].
    + rewrite length_app, length_map, length_replicate. lia.
    + rewrite length_foldl_insert, length_replicate. lia.
Qed.

(** The ID list when the classification stage returns: what the
    compaction scattered, through the scanned copy of the flags, into the
    fresh all-zero list. *)
Lemma computeActiveVoxels_ids mc d av d' :
  computeActiveVoxels mc d = Ok (av, d') ->
  markActiveBG mc = voxelActive mc ->
  (GPUBuffer.id (voxelActive mc) < length (memory d))%nat ->
  (GPUBuffer.id (bg_volumeInfo (volumeInfoBG mc)) < length (memory d))%nat ->
  let base := length (memory d) in
  let sz := Z.to_nat (GPUBuffer.size (voxelActive mc)) in
  let n := dualGridNumVoxels (volume mc) in
  let active := bytes_at (memory d') (voxelActive mc) in
  let offsets :=
    if classification_accepted mc base then blit 0 (take sz active) (replicate sz 0)
    else replicate sz 0 in
  exists out,
    ExclusiveScan.scan_words (words_of_bytes offsets) n = Some (out, count av)
    /\ bytes_at (memory d') (buffer av)
       = blit 0 (bytes_of_words
                   (StreamCompactIDs.compact_words (words_of_bytes active)
                      (words_of_bytes (blit 0 (bytes_of_words out) offsets))
                      (words_of_bytes (replicate (Z.to_nat (count av * 4)) 0))
                      (Z.to_nat n)))
              (replicate (Z.to_nat (count av * 4)) 0).
Proof.
  intros H Hbg Hva Hvi. cbv zeta.
  unfold computeActiveVoxels in H. unfold classification_accepted.
  destruct (dualGridDims (volume mc)) as [[g0 g1] g2].
  cbn [fst snd] in H.
  pose proof (evolves_refl d) as E.
  step H E. step H E.
  pose proof (evolves_refl d1) as R1.
  cbn [GPUBuffer.size mkbuf] in H.
  do 4 step H R1.
  pose proof (evolves_refl d5) as R2.
  do 13 step H R2. injection H as <- <-.
  cbn [count buffer]. cbn [fst snd Nat.add] in *.
  destruct M2 as (out & Hscan & M2). exists out.
  pose proof (ev_len E) as L1. pose proof (ev_len R1) as L5.
  assert (L3 : length (memory d3) = length (memory d1)).
  { by rewrite M2, length_write_at, M1. }
  assert (Fva : bytes_at (memory d18) (voxelActive mc) = bytes_at (memory d1) (voxelActive mc)).
  { rewrite (bytes_at_frame _ _ _ _ _ _ R2).
    - apply (bytes_at_frame _ _ _ _ _ _ R1); [|lia].
      cbn [GPUBuffer.id mkbuf]. rewrite !not_elem_of_cons.
      split_and!; [lia|lia|apply not_elem_of_nil].
    - cbn [GPUBuffer.id mkbuf]. rewrite !not_elem_of_cons.
      split_and!; [lia|lia|lia|apply not_elem_of_nil].
    - lia. }
  assert (Foffs :
    bytes_at (memory d1)
      (mkbuf (length (memory d)) (GPUBuffer.size (voxelActive mc))
         (Z.lor (Z.lor GPUBufferUsage.COPY_DST GPUBufferUsage.COPY_SRC)
            GPUBufferUsage.STORAGE))
    = if forallb command_valid
           [dispatchMarkActiveVoxel (volumeInfoBG mc) (markActiveBG mc)
              (ceil_div g0 4) (ceil_div g1 4) (ceil_div g2 2);
            copyBufferToBuffer (voxelActive mc) 0
              (mkbuf (length (memory d)) (GPUBuffer.size (voxelActive mc))
                 (Z.lor (Z.lor GPUBufferUsage.COPY_DST GPUBufferUsage.COPY_SRC)
                    GPUBufferUsage.STORAGE))
              0 (GPUBuffer.size (voxelActive mc))]
      then blit 0 (take (Z.to_nat (GPUBuffer.size (voxelActive mc)))
                     (bytes_at (memory d1) (voxelActive mc)))
                (replicate (Z.to_nat (GPUBuffer.size (voxelActive mc))) 0)
      else replicate (Z.to_nat (GPUBuffer.size (voxelActive mc))) 0).
  { destruct (forallb command_valid _) eqn:Hok.
    - destruct (classify_memory mc (memory d) (memory d1) (ceil_div g0 4) (ceil_div g1 4)
                  (ceil_div g2 2) Hbg Hva Hvi) as [_ Hoffs]; [by rewrite M0, M|].
      exact Hoffs.
    - rewrite M0, M. apply bytes_at_app_new. }
  split.
  - rewrite Fva, <- Foffs, <- M1. exact Hscan.
  - rewrite (bytes_at_frame _ _ _ _ _ _ R2).
    2: { cbn [GPUBuffer.id mkbuf]. rewrite !not_elem_of_cons.
         split_and!; [lia|lia|lia|apply not_elem_of_nil]. }
    2: { cbn [GPUBuffer.id mkbuf]. lia. }
    rewrite M4, bytes_at_write_at by lia. change (Z.to_nat 0) with 0%nat.
    rewrite M3, <- L3, bytes_at_app_new.
    rewrite !bytes_at_app_old by (cbn [GPUBuffer.id mkbuf]; lia).
    rewrite M2, bytes_at_write_at by lia. change (Z.to_nat 0) with 0%nat.
    rewrite bytes_at_write_at_ne by (cbn [GPUBuffer.id mkbuf]; lia).
    rewrite M1, Foffs, Fva. reflexivity.
Qed.

(** The vertex-offset stage on a device that holds the ID list: the total
    it returns is the sum, over the listed voxels, of the vertex counts
    that the pass stored as 32-bit words. *)
Lemma computeVertexOffsets_counts mc av d vo d' :
  computeVertexOffsets mc av d = Ok (vo, d') ->
  2 <= ScanBlockSize -> 0 < maxComputeWorkgroupsPerDimension d ->
  12 <= minUniformBufferOffsetAlignment d ->
  (GPUBuffer.id (bg_volumeInfo (volumeInfoBG mc)) < length (memory d))%nat ->
  (GPUBuffer.id (buffer av) < length (memory d))%nat ->
  forallb binding_valid (volumeInfoBG_entries (volumeInfoBG mc)) = true ->
  binding_valid {| binding_type := read_only_storage; binding_buffer := triCaseTable mc;
                   binding_size := None |} = true ->
  has_usage GPUBufferUsage.STORAGE (buffer av) = true ->
  GPUBuffer.size (buffer av) = count av * 4 ->
  count av < 2 ^ 32 ->
  let ids := words_of_bytes (bytes_at (memory d) (buffer av)) in
  Z.of_nat (length ids) = count av ->
  count vo
  = sumZ (map (fun id =>
                 voxel_num_verts (bg_texture (volumeInfoBG mc))
                   (isovalue_word (bytes_at (memory d) (bg_volumeInfo (volumeInfoBG mc))))
                   id mod 2 ^ 32) ids).
Proof.
  intros H HB Hcap Hstride Hinfo Hids Vinfo Vtab Uids Sids Hlt ids Hlen.
  unfold computeVertexOffsets in H.
  pose proof (evolves_refl d) as E.
  step H E. step H E.
  apply bind_Ok in H as (pc & d2 & Hp & H). unfold PushConstants.new in Hp.
  step Hp E. cbn [fst snd] in Hp. step Hp E. step Hp E. injection Hp as <- <-.
  cbn [PushConstants.pushConstantsBuffer PushConstants.stride] in H.
  step H E. step H E. step H E.
  apply bind_Ok in H as (nVertices & dlast & Hs & [= <- <-]).
  apply scan_Ok in Hs as (_ & out & Hscan & _).
  cbn [count]. cbn [Nat.add] in *.
  assert (HB0 : 0 < ScanBlockSize) by lia.
  assert (HnA : 0 <= count av) by lia.
  pose proof (getAlignedSize_ge (count av) HB0) as HA.
  set (g := fun id => voxel_num_verts (bg_texture (volumeInfoBG mc))
                        (isovalue_word (bytes_at (memory d) (bg_volumeInfo (volumeInfoBG mc))))
                        id mod 2 ^ 32).
  assert (HW : words_of_bytes
                 (bytes_at (memory d7)
                    (mkbuf (length (memory d)) (ExclusiveScan.getAlignedSize (count av) * 4)
                       (Z.lor (Z.lor GPUBufferUsage.STORAGE GPUBufferUsage.COPY_DST)
                          GPUBufferUsage.COPY_SRC)))
               = map g ids
                 ++ replicate (Z.to_nat (ExclusiveScan.getAlignedSize (count av)) - length ids) 0).
  { rewrite M6, M5, M4, M3, M2, M1, M0, M.
    destruct (forallb command_valid _) eqn:Hok.
    - cbn [foldl exec].
      apply (vertex_count_pass_words mc av (memory d)); try done; lia.
    - destruct (Z.eq_dec (count av) 0) as [Hz|Hnz].
      + rewrite bytes_at_write_at_ne by (simpl; lia).
        rewrite bytes_at_app_old by (rewrite length_app; simpl; lia).
        rewrite bytes_at_app_new, Hz, getAlignedSize_0 by done.
        rewrite (nil_length_inv ids) by lia. reflexivity.
      + exfalso. apply not_true_iff_false in Hok. apply Hok. clear Hok.
        pose proof (ceil_div_bounds (count av) 32 ltac:(lia)) as HT.
        pose proof (ceil_div_bounds (ceil_div (count av) 32)
                      (maxComputeWorkgroupsPerDimension d) Hcap) as HD.
        assert (Hb : forallb binding_valid
                       (computeNumVertsBG_entries
                          {| bg_caseTable := triCaseTable mc;
                             bg_activeIDs := buffer av;
                             bg_numVerts :=
                               mkbuf (length (memory d))
                                 (ExclusiveScan.getAlignedSize (count av) * 4)
                                 (Z.lor (Z.lor GPUBufferUsage.STORAGE GPUBufferUsage.COPY_DST)
                                        GPUBufferUsage.COPY_SRC) |}) = true).
        { cbn [computeNumVertsBG_entries forallb bg_caseTable bg_activeIDs bg_numVerts].
          rewrite Vtab. unfold binding_valid.
          cbn [binding_type binding_buffer binding_size default from_option id
               GPUBuffer.size mkbuf].
          rewrite Uids, Sids.
          change (has_usage GPUBufferUsage.STORAGE (mkbuf _ _ _)) with true.
          rewrite !Z.mod_mul by lia. cbn [andb Z.eqb].
          rewrite !andb_true_r, !andb_true_iff, !Z.ltb_lt, !Z.leb_le. lia. }
        cbn [forallb command_valid]. rewrite Vinfo, Hb. cbn [andb].
        apply forallb_forall. intros c Hc.
        apply in_map_iff in Hc as (i & <- & Hi).
        apply list_elem_of_In, elem_of_seqZ in Hi.
        unfold PushConstants.numDispatches in Hi.
        cbn [PushConstants.totalWorkGroups PushConstants.maxWorkgroupsPerDimension] in Hi.
        cbn [command_valid]. rewrite forallb_app, Vinfo, forallb_app, Hb.
        cbn [andb pushConstantsBG_entries forallb bg_pushConstants bg_size].
        unfold binding_valid.
        cbn [binding_type binding_buffer binding_size default from_option id
             GPUBuffer.size mkbuf].
        change (has_usage GPUBufferUsage.UNIFORM (mkbuf _ _ _)) with true.
        cbn [andb Z.ltb Z.compare].
        rewrite !andb_true_r, !andb_true_iff, !Z.leb_le. nia. }
  rewrite HW in Hscan.
  rewrite scan_words_eq in Hscan by done. cbv zeta in Hscan.
  injection Hscan as _ <-.
  rewrite take_ge by (rewrite length_app, length_map, length_replicate; lia).
  rewrite sumZ_app, sumZ_replicate_0. lia.
Qed.

Lemma flag_words_flags v iso : Forall StreamCompactIDs.is_flag (flag_words v iso).
Proof.
  unfold flag_words. apply Forall_forall. intros x Hx.
  apply list_elem_of_fmap in Hx as (i & -> & _).
  destruct (voxel_crosses v iso i); [by right|by left].
Qed.

Lemma sumZ_flags_le (l : list Z) :
  Forall StreamCompactIDs.is_flag l -> sumZ l <= Z.of_nat (length l).
Proof. induction 1 as [|x l [->| ->] _ IH]; simpl; lia. Qed.

Lemma active_ids_upper (l : list Z) (i : nat) :
  Forall (fun x => x < Z.of_nat (i + length l)) (StreamCompactIDs.active_ids i l).
Proof.
  revert i; induction l as [|x l IH]; intros i; simpl; [constructor|].
  assert (Forall (fun x => x < Z.of_nat (i + S (length l)))
            (StreamCompactIDs.active_ids (S i) l)).
  { eapply Forall_impl; [apply IH|]. simpl. intros; lia. }
  destruct (x =? 0); [done|]. constructor; [lia|done].
Qed.

Lemma map_mod_small (l : list Z) :
  Forall (fun x => 0 <= x < 2 ^ 32) l -> map (fun w => w mod 2 ^ 32) l = l.
Proof.
  induction 1 as [|x l Hx _ IH]; [done|].
  cbn [map]. rewrite IH, Z.mod_small by done. reflexivity.
Qed.

(** A call on an orchestrator made by [create], on a device whose limits
    let the vertex-count pass run: the ID list holds the voxels that the
    surface at the uploaded isovalue crosses, in ascending order, and the
    total that the scan of the vertex counts hands back is the sum of
    their vertex counts, as the pass stored them in 32-bit words. *)
Lemma computeSurface_vertex_total mc iso d res d' d1 av d2 :
  mc_valid mc d -> computeSurface mc iso d = Ok (res, d') ->
  uploadIsovalue mc iso d = Ok (tt, d1) -> computeActiveVoxels mc d1 = Ok (av, d2) ->
  2 <= ScanBlockSize -> 0 < maxComputeWorkgroupsPerDimension d ->
  12 <= minUniformBufferOffsetAlignment d ->
  MC_CASE_TABLE <> [] -> dualGridNumVoxels (volume mc) < 2 ^ 32 ->
  let w := float32_bits iso mod 2 ^ 32 in
  let ids := StreamCompactIDs.active_ids 0 (flag_words (volume mc) w) in
  count av = Z.of_nat (length ids)
  /\ words_of_bytes (bytes_at (memory d') (buffer av)) = ids
  /\ count res = sumZ (map (fun id => voxel_num_verts (volume mc) w id mod 2 ^ 32) ids).
Proof.
  intros V H G1 G2 HB Hcap Hstr Htab Hn w ids.
  assert (HB0 : 0 < ScanBlockSize) by lia.
  destruct (computeSurface_Ok _ _ _ _ _ H) as (nActive & _ & _ & _ & C).
  destruct (C V) as (Hinfo' & Hact' & _). clear C.
  apply computeSurface_stages in H as (d1' & av' & d2' & vo & d3 & H1 & H2 & H3 & H4 & Hc).
  rewrite G1 in H1. injection H1 as <-.
  rewrite G2 in H2. injection H2 as <- <-.
  rename G1 into H1. rename G2 into H2.
  pose proof (uploadIsovalue_Ok _ _ _ _ _ H1) as (E1 & _).
  pose proof (computeActiveVoxels_Ok _ _ _ _ H2) as (Hav & E2 & _).
  pose proof (computeVertexOffsets_Ok _ _ _ _ _ H3) as (_ & E3 & _).
  pose proof (computeVertices_Ok _ _ _ _ _ _ H4) as (_ & _ & E4 & _).
  pose proof (computeActiveVoxels_sizes _ _ _ _ H2) as (_ & HnA0 & Hn0).
  pose proof (ev_len E1) as L1. pose proof (ev_len E2) as L2. pose proof (ev_len E3) as L3.
  pose proof (classification_accepted_valid mc d (length (memory d1)) V ltac:(lia)) as Hacc.
  pose proof (getAlignedSize_ge (dualGridNumVoxels (volume mc)) HB0) as Hal.
  destruct V as [(b0 & Hmc & Hb0) Hbg0 Hbg1 Htl Hil Hal' Hdist Hdims Hilen Hsz Hfits Hmax Hlen Hpad].
  rewrite isovalue_word_blit in Hact' by done. fold w in Hact'.
  set (n := dualGridNumVoxels (volume mc)) in *.
  set (flags := flag_words (volume mc) w) in *.
  set (A := ExclusiveScan.getAlignedSize n) in *.
  set (sz := Z.to_nat (GPUBuffer.size (voxelActive mc))) in *.
  assert (Lf : length flags = Z.to_nat n) by apply length_flag_words.
  assert (Ff : Forall StreamCompactIDs.is_flag flags) by apply flag_words_flags.
  assert (Hn1 : 0 <= n) by lia.
  set (W := flags ++ replicate (Z.to_nat A - length flags) 0).
  assert (LW : length W = Z.to_nat A).
  { subst W. rewrite length_app, length_replicate. lia. }
  assert (FW : Forall StreamCompactIDs.is_flag W).
  { subst W. apply Forall_app. split; [done|].
    apply Forall_forall. intros x Hx. apply elem_of_replicate in Hx as [-> _]. by left. }
  (* the flag buffer when the call returns, in words *)
  assert (Lact : length (bytes_at (memory d') (voxelActive mc)) = sz).
  { by rewrite Hact', length_blit. }
  assert (HW : words_of_bytes (bytes_at (memory d') (voxelActive mc)) = W).
  { rewrite Hact', blit_fits by (rewrite length_bytes_of_words, Hlen; lia).
    rewrite take_0, Nat.add_0_l, app_nil_l.
    rewrite length_bytes_of_words, drop_zero_tail, Hlen
      by (intros i x Hi; apply Hpad; lia).
    replace (sz - 4 * length flags)%nat
      with (4 * (Z.to_nat A - length flags))%nat by (subst sz; lia).
    rewrite words_of_bytes_app, words_of_bytes_zeros, map_mod_small; [done|].
    eapply Forall_impl; [exact Ff|]. intros x [->| ->]; lia. }
  (* nothing after the classification stage writes a buffer it left *)
  assert (F2 : forall b, (GPUBuffer.id b < length (memory d2))%nat ->
                 bytes_at (memory d') b = bytes_at (memory d2) b).
  { intros b Hb.
    rewrite (bytes_at_frame _ _ _ _ _ _ E4) by (try apply not_elem_of_nil; lia).
    apply (bytes_at_frame _ _ _ _ _ _ E3); [apply not_elem_of_nil|done]. }
  pose proof (computeActiveVoxels_ids mc d1 av d2 H2 Hbg1 ltac:(lia)
                ltac:(rewrite Hbg0; simpl; lia)) as X.
  cbv zeta in X. destruct X as (out & Hscan & Hids).
  rewrite Hacc in Hscan, Hids.
  rewrite <- (F2 (voxelActive mc)) in Hscan, Hids by lia.
  rewrite <- (F2 (buffer av)) in Hids by (rewrite Hav; simpl; lia).
  assert (Hoffs : (if 0 <? GPUBuffer.size (voxelActive mc)
                   then blit 0 (take sz (bytes_at (memory d') (voxelActive mc)))
                          (replicate sz 0)
                   else replicate sz 0)
                  = bytes_at (memory d') (voxelActive mc)).
  { destruct (Z.ltb_spec 0 (GPUBuffer.size (voxelActive mc))).
    - rewrite take_ge by lia. apply blit_all. rewrite length_replicate. lia.
    - replace sz with 0%nat by lia. symmetry. apply nil_length_inv. lia. }
  fold sz in Hscan, Hids. rewrite Hoffs in Hscan, Hids. rewrite HW in Hscan, Hids.
  rewrite scan_words_eq in Hscan by done. cbv zeta in Hscan.
  change (ExclusiveScan.getAlignedSize (dualGridNumVoxels (volume mc))) with A in Hscan.
  change (dualGridNumVoxels (volume mc)) with n in Hids.
  rewrite <- LW, firstn_all, drop_all, app_nil_r in Hscan.
  injection Hscan as Hout HnA.
  assert (HsW : sumZ W = sumZ flags).
  { subst W. rewrite sumZ_app, sumZ_replicate_0. lia. }
  assert (Lids : Z.of_nat (length ids) = sumZ flags) by (by apply active_ids_length).
  assert (Hcnt : count av = Z.of_nat (length ids)) by lia.
  pose proof (sumZ_flags_le flags Ff) as Hle.
  assert (Lout : length out = length W).
  { by rewrite <- Hout, block_scan_length. }
  (* the scanned offsets, read back as words *)
  assert (Hoffw : words_of_bytes
                    (blit 0 (bytes_of_words out) (bytes_at (memory d') (voxelActive mc)))
                  = map (fun x => x mod 2 ^ 32) out).
  { rewrite blit_all by (rewrite length_bytes_of_words, Lact, Lout, LW; subst sz; lia).
    apply words_of_bytes_of_words. }
  rewrite Hoffw in Hids.
  replace (Z.to_nat (count av * 4)) with (4 * Z.to_nat (count av))%nat in Hids by lia.
  rewrite words_of_bytes_zeros in Hids.
  assert (Htake : take (Z.to_nat n) W = flags).
  { subst W. by rewrite take_app_length' by lia. }
  rewrite compact_words_prefix in Hids; try done.
  2: { intros i Hi. rewrite list_lookup_fmap, <- Hout.
       pose proof (scan_prefix_lookup W (length W) i ltac:(lia) ltac:(lia)) as Hl.
       rewrite firstn_all, drop_all, app_nil_r in Hl. rewrite Hl. cbn [fmap option_fmap option_map].
       f_equal. apply Z.mod_small.
       pose proof (sumZ_flags_nonneg (take i W) (Forall_take _ _ _ FW)).
       pose proof (sumZ_flags_le (take i W) (Forall_take _ _ _ FW)) as Hi'.
       rewrite length_take in Hi'. lia. }
  2: lia.
  2: { rewrite Htake. lia. }
  rewrite Htake in Hids. fold ids in Hids.
  replace (Z.to_nat (count av) - length ids)%nat with 0%nat in Hids by lia.
  cbn [replicate] in Hids. rewrite app_nil_r in Hids.
  rewrite blit_all in Hids by (rewrite length_bytes_of_words, length_replicate; lia).
  assert (Hsmall : Forall (fun x => 0 <= x < 2 ^ 32) ids).
  { pose proof (active_ids_lower flags 0) as Hlo.
    pose proof (active_ids_upper flags 0) as Hup.
    apply Forall_forall. intros x Hx.
    pose proof (proj1 (Forall_forall _ _) Hlo x Hx).
    pose proof (proj1 (Forall_forall _ _) Hup x Hx). simpl in *. lia. }
  assert (Hwords : words_of_bytes (bytes_at (memory d') (buffer av)) = ids).
  { by rewrite Hids, words_of_bytes_of_words, map_mod_small. }
  split; [exact Hcnt|]. split; [exact Hwords|].
  - rewrite Hc.
    rewrite (computeVertexOffsets_counts mc av d2 vo d3 H3 HB).
    + rewrite Hbg0. cbn [bg_texture bg_volumeInfo].
      rewrite <- (F2 (volumeInfo mc)), <- (F2 (buffer av)), Hinfo', Hwords
        by (rewrite ?Hav; simpl; lia).
      rewrite isovalue_word_blit by done. reflexivity.
    + by rewrite (ev_cap E2), (ev_cap E1).
    + by rewrite (ev_stride E2), (ev_stride E1).
    + rewrite Hbg0. simpl. lia.
    + rewrite Hav. simpl. lia.
    + rewrite Hmc. reflexivity.
    + rewrite Hmc. unfold binding_valid, created_at.
      cbn [binding_type binding_buffer binding_size default from_option id triCaseTable
           GPUBuffer.size mkbuf].
      change (has_usage GPUBufferUsage.STORAGE (mkbuf _ _ _)) with true.
      rewrite (Z.mul_comm 4), Z.mod_mul by lia.
      destruct MC_CASE_TABLE as [|t ts]; [done|].
      cbn [andb Z.eqb]. rewrite !andb_true_r, andb_true_iff, Z.ltb_lt, Z.leb_le.
      simpl length. lia.
    + rewrite Hav. reflexivity.
    + rewrite Hav. reflexivity.
    + lia.
    + rewrite <- (F2 (buffer av)) by (rewrite Hav; simpl; lia).
      rewrite Hwords. lia.
Qed.

(** ** The result of [computeSurface] *)

(** C1: the buffer [computeSurface] returns is only allocated by the final
    stage: when the call returns, every byte of the buffer is the zero it was
    created with, and its creation is the last thing the call did on the
    device, so no dispatch or copy that could write it follows. *)
Theorem computeSurface_vertices_only_allocated mc iso d res d' :
  computeSurface mc iso d = Ok (res, d') ->
  bytes_at (memory d') (buffer res) = replicate (Z.to_nat (count res * 3 * 4)) 0
  /\ last (log d') = Some (EvCreateBuffer (buffer res) false).
Proof.
  intros H. destruct (computeSurface_Ok _ _ _ _ _ H) as (nActive & Hbuf & E & Hz & _).
  split; [exact Hz|].
  rewrite (ev_log E), Hbuf. unfold computeSurface_trace.
  rewrite !app_assoc. apply last_snoc.
Qed.


(** C8: the draw of the application fetches 16 bytes per vertex from a
    buffer that [computeVertices] sized at 12 bytes per vertex: for every
    result with a positive count the fetch runs past the end of the buffer. *)
Theorem draw_reads_past_vertex_buffer mc iso d res d' :
  computeSurface mc iso d = Ok (res, d') -> 0 < count res ->
  GPUBuffer.size (buffer res) = count res * 12
  /\ App.draw_reads res = count res * 16
  /\ ~ App.draw_in_bounds res.
Proof.
  intros H Hpos. destruct (computeSurface_Ok _ _ _ _ _ H) as (nActive & Hbuf & _).
  assert (Hr : App.draw_reads res = count res * 16).
  { unfold App.draw_reads, App.bytes_fetched. cbn.
    destruct (Z.leb_spec (count res) 0); lia. }
  split; [rewrite Hbuf; simpl; lia|]. split; [done|].
  unfold App.draw_in_bounds. rewrite Hr, Hbuf. simpl. lia.
Qed.

(** C10: on an orchestrator made by [create], a call changes the volume-info
    block in the four bytes from offset 16 only, which then hold the
    isovalue as a little-endian 32-bit word; the first 16 bytes are still the
    dims that [create] uploaded, followed by four zero bytes. *)
Theorem uploadIsovalue_writes_bytes_16_to_20 mc iso d res d' :
  reachable mc d -> computeSurface mc iso d = Ok (res, d') ->
  let old := bytes_at (memory d) (volumeInfo mc) in
  let new := bytes_at (memory d') (volumeInfo mc) in
  new = take 16 old ++ u32_le (float32_bits iso) ++ drop 20 old
  /\ take 16 new = take 16 old
  /\ take 16 new = bytes_of_words (dims_words (volume mc)) ++ [0; 0; 0; 0].
Proof.
  intros R H. cbv zeta. apply reachable_valid in R.
  destruct (computeSurface_Ok _ _ _ _ _ H) as (nActive & _ & _ & _ & C).
  destruct (C R) as (Hinfo & _). destruct R.
  rewrite Hinfo. split_and!.
  - apply blit_fits. simpl. lia.
  - apply take_blit.
  - by rewrite take_blit.
Qed.

(** C7: in the events of a call, the ID list is created right after the
    scan of the flags has handed back the total that sizes it, and the vertex
    buffer right after the scan of the vertex counts has; the buffer of the
    vertex counts, sized by the active count, is created later than the flag
    scan too.  No event up to a readback involves a buffer that the readback
    sizes, and the compaction, the first stage to use the ID list, follows
    its creation. *)
Theorem allocation_follows_readback mc iso d res d' :
  reachable mc d -> computeSurface mc iso d = Ok (res, d') ->
  exists evs offs ids vo nActive (i j k : nat),
    log d' = log d ++ evs
    /\ evs !! i = Some (EvScan offs (dualGridNumVoxels (volume mc)) nActive)
    /\ evs !! S i = Some (EvCreateBuffer ids false)
    /\ GPUBuffer.size ids = nActive * 4
    /\ evs !! S (S i) = Some (EvCompact (voxelActive mc) offs ids (dualGridNumVoxels (volume mc)))
    /\ (i < k)%nat /\ evs !! k = Some (EvCreateBuffer vo false)
    /\ GPUBuffer.size vo = ExclusiveScan.getAlignedSize nActive * 4
    /\ evs !! j = Some (EvScan vo nActive (count res))
    /\ evs !! S j = Some (EvCreateBuffer (buffer res) false)
    /\ GPUBuffer.size (buffer res) = count res * 3 * 4
    /\ (forall (p : nat) e, (p <= i)%nat -> evs !! p = Some e ->
          ~ mentions ids e /\ ~ mentions vo e)
    /\ (forall (p : nat) e, (p <= j)%nat -> evs !! p = Some e ->
          ~ mentions (buffer res) e).
Proof.
  intros R H. apply reachable_valid in R.
  destruct (computeSurface_Ok _ _ _ _ _ H) as (nActive & Hbuf & E & _).
  pose proof (trace_positions mc (length (memory d)) (maxComputeWorkgroupsPerDimension d)
                (minUniformBufferOffsetAlignment d) nActive (count res)) as T.
  cbv zeta in T. destruct T as (_ & T6 & T7 & T8 & T19 & T24 & T25 & _).
  destruct (trace_not_mentioned mc d (maxComputeWorkgroupsPerDimension d)
              (minUniformBufferOffsetAlignment d) nActive (count res) R) as [N6 N24].
  eexists _, (offsets_of mc (length (memory d))), (ids_of (length (memory d)) nActive),
    (vertexOffsets_of (length (memory d)) nActive), nActive, 6%nat, 29%nat, 22%nat.
  split; [apply (ev_log E)|].
  rewrite Hbuf. split_and!; try done. lia.
Qed.

(** C3, as the code has it: the scanned offsets, the ID list and the buffer
    of vertex counts and offsets are created by the call that uses them, as
    is the vertex buffer, the only one of them that the call returns; every
    buffer a call creates is new on the device.  The flag buffer is not: the
    call compacts the flags of the orchestrator's [voxelActive], which was
    on the device before the call and which no call creates. *)
Theorem intermediate_buffers_of_a_call mc iso d res d' :
  reachable mc d -> computeSurface mc iso d = Ok (res, d') ->
  exists evs offs ids vo nActive,
    log d' = log d ++ evs
    /\ EvScan offs (dualGridNumVoxels (volume mc)) nActive ∈ evs
    /\ EvCompact (voxelActive mc) offs ids (dualGridNumVoxels (volume mc)) ∈ evs
    /\ EvScan vo nActive (count res) ∈ evs
    /\ EvCreateBuffer offs false ∈ evs
    /\ EvCreateBuffer ids false ∈ evs
    /\ EvCreateBuffer vo false ∈ evs
    /\ EvCreateBuffer (buffer res) false ∈ evs
    /\ (forall b m, EvCreateBuffer b m ∈ evs -> (length (memory d) <= GPUBuffer.id b)%nat)
    /\ (GPUBuffer.id (voxelActive mc) < length (memory d))%nat
    /\ (forall m, EvCreateBuffer (voxelActive mc) m ∉ evs)
    /\ NoDup [GPUBuffer.id (voxelActive mc); GPUBuffer.id offs; GPUBuffer.id ids;
              GPUBuffer.id vo; GPUBuffer.id (buffer res)].
Proof.
  intros R H. apply reachable_valid in R.
  destruct (computeSurface_Ok _ _ _ _ _ H) as (nActive & Hbuf & E & _).
  pose proof (trace_positions mc (length (memory d)) (maxComputeWorkgroupsPerDimension d)
                (minUniformBufferOffsetAlignment d) nActive (count res)) as T.
  cbv zeta in T. destruct T as (T3 & T6 & T7 & T8 & T19 & T24 & T25 & _).
  eexists _, (offsets_of mc (length (memory d))), (ids_of (length (memory d)) nActive),
    (vertexOffsets_of (length (memory d)) nActive), nActive.
  split; [apply (ev_log E)|].
  rewrite Hbuf. destruct R.
  split_and!; try (eapply list_elem_of_lookup_2; eassumption).
  - intros b m. apply trace_creations.
  - done.
  - intros m Hin. apply trace_creations in Hin. lia.
  - cbn [GPUBuffer.id mkbuf offsets_of ids_of vertexOffsets_of].
    repeat (apply NoDup_cons; split;
            [rewrite ?not_elem_of_cons; split_and?; try lia; apply not_elem_of_nil|]).
    apply NoDup_nil_2.
Qed.


(** C4, as the code has it: neither [create] nor [computeSurface] looks at
    the shape of the volume.  For a volume whose dual grid has no voxel
    (an axis of 0 voxels, the others in range), [create] returns an
    orchestrator on a device that can hold the case table and the info
    block; what it gets from the device is a validation error, out of
    band, for the bind group over the empty flag buffer.  Every call on
    the orchestrator then goes through all its stages, the device
    rejecting the submission of the classification, and returns count 0
    and an empty vertex buffer. *)
Theorem create_accepts_empty_dual_grid v d0 :
  dualGrid_in_range v -> dualGridNumVoxels v = 0 -> 2 <= ScanBlockSize ->
  4 * Z.of_nat (length MC_CASE_TABLE) <= maxBufferSize d0 -> 32 <= maxBufferSize d0 ->
  exists mc d,
    create v d0 = Ok (mc, d)
    /\ last (log d) = Some (EvCreateBindGroup (markActiveBG_entries (voxelActive mc)))
    /\ forallb binding_valid (markActiveBG_entries (voxelActive mc)) = false
    /\ forall d1 iso,
         reachable mc d1 -> 0 < maxComputeWorkgroupsPerDimension d1 ->
         exists res d2,
           computeSurface mc iso d1 = Ok (res, d2)
           /\ count res = 0
           /\ GPUBuffer.size (buffer res) = 0
           /\ log d2 = log d1
                       ++ computeSurface_trace mc (length (memory d1))
                            (maxComputeWorkgroupsPerDimension d1)
                            (minUniformBufferOffsetAlignment d1) 0 0
           /\ classification_accepted mc (1 + length (memory d1)) = false.
Proof.
  intros Hr Hn HB Htab Hinfo.
  assert (HB0 : 0 < ScanBlockSize) by lia.
  destruct (create_total v d0 Htab Hinfo) as (mc & d & Hc).
  { rewrite Hn, getAlignedSize_0 by done. lia. }
  exists mc, d. split; [exact Hc|].
  pose proof Hc as Hlog. apply create_log in Hlog as (Hmc & Hlog).
  assert (Hsz : GPUBuffer.size (voxelActive mc) = 0).
  { rewrite Hmc. cbn [created_at voxelActive GPUBuffer.size mkbuf].
    rewrite Hn, getAlignedSize_0 by done. lia. }
  split; [rewrite Hlog, app_assoc; apply last_snoc|].
  split.
  { cbn [markActiveBG_entries forallb]. unfold binding_valid.
    cbn [binding_buffer binding_size default from_option id]. rewrite Hsz.
    by rewrite !andb_false_r. }
  intros d1 iso R Hcap.
  apply create_valid in Hc as (_ & Hv & _). apply reachable_valid in R.
  destruct (computeSurface_no_active mc iso d1 R HB Hcap) as (res & d' & H & Hcnt & Hbuf & Hlog').
  - by rewrite Hv.
  - intros i Hi. rewrite Hv, Hn in Hi. lia.
  - exists res, d'. split; [exact H|]. split; [exact Hcnt|]. split; [by rewrite Hbuf|].
    split; [exact Hlog'|].
    rewrite (classification_accepted_valid mc d1) by (done || lia).
    rewrite Hsz. reflexivity.
Qed.

(** ** What [create] leaves on the device *)

Lemma write_at_app_new mem x i s u data :
  i = length mem -> write_at (mem ++ [x]) (mkbuf i s u) 0 data = mem ++ [blit 0 data x].
Proof.
  intros ->. unfold write_at. cbn [Z.ltb Z.compare GPUBuffer.id mkbuf].
  replace (length mem) with (length mem + 0)%nat at 1 by lia.
  by rewrite alter_app_r.
Qed.

Lemma create_Ok v d0 mc d :
  create v d0 = Ok (mc, d) ->
  mc = created_at v (length (memory d0))
  /\ memory d
     = memory d0
       ++ [ bytes_of_words MC_CASE_TABLE;
            bytes_of_words (dims_words v) ++ replicate 20 0;
            replicate (Z.to_nat (ExclusiveScan.getAlignedSize (dualGridNumVoxels v) * 4)) 0 ].
Proof.
  unfold create. intros H. cbv zeta.
  pose proof (evolves_refl d0) as E.
  do 5 step H E. cbv zeta in H. do 2 step H E. injection H as <- <-.
  split; [reflexivity|]. rewrite M5, M4.
  rewrite M in M0. rewrite write_at_app_new in M0 by lia.
  rewrite M0 in M1. rewrite M1 in M2.
  rewrite write_at_app_new in M2 by (rewrite length_app; simpl; lia).
  rewrite M3, M2.
  rewrite <- !app_assoc. cbn [app]. do 2 f_equal.
  - apply blit_all. rewrite length_bytes_of_words, length_replicate. lia.
  - f_equal. unfold dims_words. by destruct (dims v) as [[x y] z].
Qed.

Lemma bytes_at_app_nth mem (l : list (list Z)) (k i : nat) s u :
  i = (k + length mem)%nat -> bytes_at (mem ++ l) (mkbuf i s u) = default [] (l !! k).
Proof.
  intros ->. unfold bytes_at. cbn [GPUBuffer.id mkbuf].
  rewrite lookup_app_r by lia. do 2 f_equal. lia.
Qed.

(** An orchestrator on a device it lives on: it is the record [create]
    built, its three buffers are on the device, the case table is as
    uploaded, and the info block ends in 12 zero bytes. *)
Lemma reachable_created mc d :
  reachable mc d ->
  exists v b0,
    mc = created_at v b0
    /\ (3 + b0 <= length (memory d))%nat
    /\ bytes_at (memory d) (triCaseTable mc) = bytes_of_words MC_CASE_TABLE
    /\ drop 20 (bytes_at (memory d) (volumeInfo mc)) = replicate 12 0.
Proof.
  induction 1 as [v d0 d Hc|iso d res d' R IH Hs].
  - apply create_Ok in Hc as [-> M]. exists v, (length (memory d0)).
    split; [done|]. rewrite M. split; [rewrite length_app; simpl; lia|].
    unfold created_at. cbn [triCaseTable volumeInfo].
    rewrite (bytes_at_app_nth _ _ 0) by done.
    rewrite (bytes_at_app_nth _ _ 1) by done.
    split; [done|]. cbn [lookup list_lookup default].
    unfold dims_words. by destruct (dims v) as [[x y] z].
  - destruct IH as (v & b0 & -> & Hlen & Htab & Hinfo). exists v, b0.
    apply reachable_valid in R.
    destruct (computeSurface_Ok _ _ _ _ _ Hs) as (nActive & _ & E & _ & C).
    destruct (C R) as (Hi & _). clear C.
    split; [done|]. split; [rewrite (ev_len E); lia|]. split.
    + rewrite <- Htab. eapply bytes_at_frame; [exact E| |simpl; lia].
      cbn [created_at triCaseTable volumeInfo markActiveBG GPUBuffer.id mkbuf].
      rewrite !not_elem_of_cons. split_and!; try lia. apply not_elem_of_nil.
    + rewrite Hi, <- Hinfo. apply (drop_blit 16 (u32_le _)).
Qed.

(** X1: [create] adds three buffers to the device and changes no other.
    When it returns, the case-table buffer holds the whole table, four
    bytes per entry; the 32-byte info block holds the dims followed by 20
    zero bytes, so the isovalue a kernel would read from it is 0; and the
    flag buffer, of the aligned size, is all zero. *)
Theorem create_initial_state v d0 mc d :
  create v d0 = Ok (mc, d) ->
  length (memory d) = (3 + length (memory d0))%nat
  /\ (forall j : nat, (j < length (memory d0))%nat -> memory d !! j = memory d0 !! j)
  /\ map GPUBuffer.id [triCaseTable mc; volumeInfo mc; voxelActive mc]
     = seq (length (memory d0)) 3
  /\ GPUBuffer.size (triCaseTable mc) = 4 * Z.of_nat (length MC_CASE_TABLE)
  /\ bytes_at (memory d) (triCaseTable mc) = bytes_of_words MC_CASE_TABLE
  /\ GPUBuffer.size (volumeInfo mc) = 32
  /\ bytes_at (memory d) (volumeInfo mc) = bytes_of_words (dims_words v) ++ replicate 20 0
  /\ isovalue_word (bytes_at (memory d) (volumeInfo mc)) = 0
  /\ GPUBuffer.size (voxelActive mc)
     = ExclusiveScan.getAlignedSize (dualGridNumVoxels v) * 4
  /\ bytes_at (memory d) (voxelActive mc)
     = replicate (Z.to_nat (GPUBuffer.size (voxelActive mc))) 0.
Proof.
  intros H. apply create_Ok in H as [-> M]. rewrite M.
  unfold created_at. cbn [triCaseTable volumeInfo voxelActive GPUBuffer.size mkbuf].
  rewrite (bytes_at_app_nth _ _ 0) by done.
  rewrite (bytes_at_app_nth _ _ 1) by done.
  rewrite (bytes_at_app_nth _ _ 2) by done.
  split_and!; try done.
  - rewrite length_app. simpl. lia.
  - intros j Hj. by apply lookup_app_l.
  - unfold dims_words. by destruct (dims v) as [[x y] z].
Qed.

(** X2: no [computeSurface] call writes the case table: on every device an
    orchestrator lives on, the case-table buffer holds the table as
    [create] uploaded it, and its words are the entries modulo [2^32]. *)
Theorem case_table_never_modified mc d :
  reachable mc d ->
  bytes_at (memory d) (triCaseTable mc) = bytes_of_words MC_CASE_TABLE
  /\ words_of_bytes (bytes_at (memory d) (triCaseTable mc))
     = map (fun w => w mod 2 ^ 32) MC_CASE_TABLE
  /\ GPUBuffer.id (triCaseTable mc) <> GPUBuffer.id (volumeInfo mc)
  /\ GPUBuffer.id (triCaseTable mc) <> GPUBuffer.id (voxelActive mc).
Proof.
  intros R. apply reachable_created in R as (v & b0 & -> & _ & Htab & _).
  rewrite Htab. split; [done|].
  split; [apply words_of_bytes_of_words|].
  simpl. lia.
Qed.

Lemma follows_frame mc d k d' :
  reachable mc d -> follows mc d k d' ->
  reachable mc d'
  /\ length (memory d') = (9 * k + length (memory d))%nat
  /\ forall j : nat,
       (j < length (memory d))%nat ->
       j <> GPUBuffer.id (volumeInfo mc) -> j <> GPUBuffer.id (voxelActive mc) ->
       memory d' !! j = memory d !! j.
Proof.
  intros R. induction 1 as [|iso k d1 res d2 _ IH Hs].
  - split; [done|]. split; [lia|]. done.
  - destruct IH as (R1 & L & Fr).
    destruct (computeSurface_Ok _ _ _ _ _ Hs) as (nActive & _ & E & _).
    pose proof (reachable_valid _ _ R1) as V.
    split; [by eapply reach_surface|].
    split; [rewrite (ev_len E); lia|].
    intros j Hj Hvi Hva. rewrite <- Fr by done.
    apply (ev_frame E); [|lia].
    rewrite (mv_activeBG _ _ V), !not_elem_of_cons.
    split_and!; try done; try lia. apply not_elem_of_nil.
Qed.

(** X3: [computeSurface] never releases a buffer and writes only its own:
    after [k] calls on an orchestrator the device holds 9 buffers more per
    call, and every buffer that was on the device before, other than the
    info block and the flag buffer of the orchestrator, holds what it
    held. *)
Theorem calls_allocate_and_leave_the_rest mc d k d' :
  reachable mc d -> follows mc d k d' ->
  length (memory d') = (9 * k + length (memory d))%nat
  /\ forall b,
       (GPUBuffer.id b < length (memory d))%nat ->
       GPUBuffer.id b <> GPUBuffer.id (volumeInfo mc) ->
       GPUBuffer.id b <> GPUBuffer.id (voxelActive mc) ->
       bytes_at (memory d') b = bytes_at (memory d) b.
Proof.
  intros R F. destruct (follows_frame _ _ _ _ R F) as (_ & L & Fr).
  split; [exact L|].
  intros b Hb Hvi Hva. unfold bytes_at. by rewrite Fr.
Qed.

(** X4: the vertex buffer a call returned is a buffer of its own: after
    any number of further calls it still holds what it held when it was
    returned, and a later call returns a buffer with another handle. *)
Theorem later_calls_keep_earlier_results mc d iso1 res1 d1 k d2 iso2 res2 d3 :
  reachable mc d ->
  computeSurface mc iso1 d = Ok (res1, d1) ->
  follows mc d1 k d2 ->
  computeSurface mc iso2 d2 = Ok (res2, d3) ->
  bytes_at (memory d3) (buffer res1) = bytes_at (memory d1) (buffer res1)
  /\ (GPUBuffer.id (buffer res1) < GPUBuffer.id (buffer res2))%nat.
Proof.
  intros R H1 F H2.
  assert (R1 : reachable mc d1) by (by eapply reach_surface).
  assert (F3 : follows mc d1 (S k) d3) by (by eapply follows_call).
  destruct (follows_frame _ _ _ _ R1 F) as (_ & L2 & _).
  destruct (follows_frame _ _ _ _ R1 F3) as (_ & _ & Fr).
  destruct (computeSurface_Ok _ _ _ _ _ H1) as (n1 & Hb1 & E1 & _).
  destruct (computeSurface_Ok _ _ _ _ _ H2) as (n2 & Hb2 & _).
  pose proof (reachable_valid _ _ R) as V. destruct V.
  pose proof (ev_len E1) as L1.
  split.
  - unfold bytes_at. apply (f_equal (default [])). apply Fr; rewrite Hb1; simpl; lia.
  - rewrite Hb1, Hb2. simpl. lia.
Qed.

(** X5: after a call on an orchestrator made by [create] the info block
    is, in full, the dims, four zero bytes, the isovalue and 12 zero
    bytes; read as eight 32-bit words it is the dims modulo [2^32], 0, the
    bit pattern of the isovalue as a 32-bit float, and three zeros.
    Whatever an earlier call uploaded is gone. *)
Theorem volume_info_after_call mc iso d res d' :
  reachable mc d -> computeSurface mc iso d = Ok (res, d') ->
  let info := bytes_at (memory d') (volumeInfo mc) in
  info = bytes_of_words (dims_words (volume mc)) ++ [0; 0; 0; 0]
         ++ u32_le (float32_bits iso) ++ replicate 12 0
  /\ words_of_bytes info
     = map (fun w => w mod 2 ^ 32) (dims_words (volume mc))
       ++ [0; float32_bits iso mod 2 ^ 32; 0; 0; 0].
Proof.
  intros R H. cbv zeta.
  destruct (reachable_created _ _ R) as (v & b0 & Hmc & _ & _ & Htail).
  apply reachable_valid in R.
  destruct (computeSurface_Ok _ _ _ _ _ H) as (nActive & _ & _ & _ & C).
  destruct (C R) as (Hinfo & _). destruct R.
  assert (Hbytes : bytes_at (memory d') (volumeInfo mc)
                   = bytes_of_words (dims_words (volume mc)) ++ [0; 0; 0; 0]
                     ++ u32_le (float32_bits iso) ++ replicate 12 0).
  { rewrite Hinfo, blit_fits by (simpl; lia).
    change (16 + length (u32_le (float32_bits iso)))%nat with 20%nat.
    by rewrite mv_info_dims0, Htail, <- app_assoc. }
  split; [exact Hbytes|]. rewrite Hbytes.
  unfold dims_words. destruct (dims (volume mc)) as [[x y] z].
  cbn [bytes_of_words map concat u32_le app replicate words_of_bytes].
  by rewrite !u32_of_le_le.
Qed.

(** ** Sizes and commands of a call *)

Lemma computeSurface_counts mc iso d res d' nActive :
  computeSurface mc iso d = Ok (res, d') ->
  log d' = log d ++ computeSurface_trace mc (length (memory d))
                      (maxComputeWorkgroupsPerDimension d)
                      (minUniformBufferOffsetAlignment d) nActive (count res) ->
  0 <= dualGridNumVoxels (volume mc) /\ 0 <= nActive /\ 0 <= count res.
Proof.
  intros H Hlog.
  apply computeSurface_stages in H as (d1 & av & d2 & vo & d3 & H1 & H2 & H3 & H4 & Hc).
  pose proof (computeActiveVoxels_sizes _ _ _ _ H2) as (_ & Hav & Hn).
  apply uploadIsovalue_Ok in H1 as (E1 & _).
  apply computeActiveVoxels_Ok in H2 as (_ & E2 & _).
  apply computeVertexOffsets_Ok in H3 as (_ & E3 & _).
  apply computeVertices_Ok in H4 as (_ & Hvs & E4 & _).
  rewrite (ev_log E4), (ev_log E3), (ev_log E2), (ev_log E1), <- !app_assoc in Hlog.
  apply app_inv_head in Hlog.
  apply (f_equal (fun l => l !! 6%nat)) in Hlog.
  injection Hlog as _ Hlog. lia.
Qed.


Lemma forallb_dispatches (f : Z -> Command) (l : list Z) :
  (forall i, copy_valid (f i) = true) -> forallb copy_valid (map f l) = true.
Proof.
  intros Hf. induction l as [|i l IH]; [done|]. cbn [map forallb]. by rewrite Hf, IH.
Qed.

(** X7: every copy that a call on an orchestrator made by [create]
    records is one WebGPU accepts: the source has [COPY_SRC], the
    destination [COPY_DST], offsets and size are multiples of 4 and the
    range lies within both buffers, which differ; and every buffer the call
    maps for reading has [MAP_READ]. *)
Theorem call_records_valid_copies mc iso d res d' :
  reachable mc d -> 0 < ScanBlockSize -> computeSurface mc iso d = Ok (res, d') ->
  exists evs,
    log d' = log d ++ evs
    /\ forall e, e ∈ evs -> transfers_valid e = true.
Proof.
  intros R HB H.
  destruct (reachable_created _ _ R) as (v & b0 & -> & Hb0 & _).
  destruct (computeSurface_Ok _ _ _ _ _ H) as (nActive & _ & E & _).
  destruct (computeSurface_counts _ _ _ _ _ _ H (ev_log E)) as (Hn & HnA & Hc).
  pose proof (getAlignedSize_ge (dualGridNumVoxels v) HB) as Hal.
  cbn [created_at volume] in Hn.
  eexists. split; [apply (ev_log E)|].
  unfold computeSurface_trace, uploadIsovalue_trace, computeActiveVoxels_trace,
    computeVertexOffsets_trace, created_at.
  cbn [app volume volumeInfo voxelActive markActiveBG volumeInfoBG triCaseTable].
  intros e He.
  repeat (apply elem_of_cons in He as [->|He];
          [first [ reflexivity
                 | apply forallb_dispatches; reflexivity
                 | idtac ]|]); [..|by apply elem_of_nil in He].
  all: cbn [transfers_valid forallb copy_valid GPUBuffer.size GPUBuffer.id GPUBuffer.usage mkbuf].
  all: rewrite ?Z.add_0_l, ?Z.mod_mul by lia.
  all: repeat match goal with
         | |- context [has_usage ?f (mkbuf ?i ?s ?u)] =>
             change (has_usage f (mkbuf i s u)) with true
         end.
  all: cbn [andb].
  all: rewrite ?andb_true_r, ?andb_true_iff, ?Z.leb_le, ?Z.eqb_eq, ?negb_true_iff,
         ?Nat.eqb_neq.
  all: split_and?; try reflexivity; try lia.
Qed.

(** X8: a call dispatches the classification once, in its second
    submission, and the workgroup counts are the least that cover the dual
    grid at the 4, 4 and 2 voxels per workgroup that the source divides by:
    along every axis the count times the divisor reaches the number of
    voxels and exceeds it by less than the divisor. *)
Theorem classification_dispatch_covers_grid mc iso d res d' :
  computeSurface mc iso d = Ok (res, d') ->
  exists evs x y z c,
    log d' = log d ++ evs
    /\ evs !! 4%nat
       = Some (EvSubmit [dispatchMarkActiveVoxel (volumeInfoBG mc) (markActiveBG mc) x y z; c])
    /\ (forall (i : nat) cmds bg0 bg1 x' y' z',
          evs !! i = Some (EvSubmit cmds) ->
          dispatchMarkActiveVoxel bg0 bg1 x' y' z' ∈ cmds -> i = 4%nat)
    /\ let '(g0, g1, g2) := dualGridDims (volume mc) in
       g0 <= 4 * x < g0 + 4 /\ g1 <= 4 * y < g1 + 4 /\ g2 <= 2 * z < g2 + 2.
Proof.
  intros H. destruct (computeSurface_Ok _ _ _ _ _ H) as (nActive & _ & E & _).
  eexists _, _, _, _, _. split; [apply (ev_log E)|]. split; [reflexivity|]. split.
  - intros i cmds bg0 bg1 x' y' z' Hi Hin.
    unfold computeSurface_trace, uploadIsovalue_trace, computeActiveVoxels_trace,
      computeVertexOffsets_trace in Hi. cbn [app] in Hi.
    do 31 (destruct i as [|i];
           [try discriminate Hi; injection Hi as <-;
            first [ reflexivity
                  | exfalso;
                    repeat (apply elem_of_cons in Hin as [Hin|Hin]; [discriminate Hin|]);
                    first [ by apply elem_of_nil in Hin
                          | apply list_elem_of_fmap in Hin as (j & Hj & _); discriminate Hj ] ]|]).
    discriminate Hi.
  - destruct (dualGridDims (volume mc)) as [[g0 g1] g2]. cbn [fst snd].
    pose proof (ceil_div_bounds g0 4). pose proof (ceil_div_bounds g1 4).
    pose proof (ceil_div_bounds g2 2). lia.
Qed.

(** X9: a call that completes has counted: the number of dual-grid voxels
    and the number of vertices it returns are not negative, and neither is
    the total that the flag scan of the call handed back; the ID list,
    which the call creates right after that scan and compacts into right
    after creating it, is requested with four bytes for each voxel of that
    total, and the vertex buffer with twelve bytes per vertex. *)
Theorem completed_call_counts mc iso d res d' :
  computeSurface mc iso d = Ok (res, d') ->
  0 <= dualGridNumVoxels (volume mc)
  /\ 0 <= count res
  /\ GPUBuffer.size (buffer res) = 12 * count res
  /\ exists evs (nActive : Z) ids,
       log d' = log d ++ evs
       /\ evs !! 6%nat
          = Some (EvScan (offsets_of mc (length (memory d)))
                    (dualGridNumVoxels (volume mc)) nActive)
       /\ evs !! 7%nat = Some (EvCreateBuffer ids false)
       /\ evs !! 8%nat
          = Some (EvCompact (voxelActive mc) (offsets_of mc (length (memory d))) ids
                    (dualGridNumVoxels (volume mc)))
       /\ 0 <= nActive
       /\ GPUBuffer.size ids = 4 * nActive.
Proof.
  intros H. destruct (computeSurface_Ok _ _ _ _ _ H) as (nActive & Hbuf & E & _).
  destruct (computeSurface_counts _ _ _ _ _ _ H (ev_log E)) as (Hn & HnA & Hc).
  split; [exact Hn|]. split; [exact Hc|].
  split; [rewrite Hbuf; simpl; lia|].
  eexists _, nActive, (ids_of (length (memory d)) nActive).
  split; [apply (ev_log E)|].
  split; [reflexivity|]. split; [reflexivity|]. split; [reflexivity|].
  split; [exact HnA|]. simpl. lia.
Qed.

(** X13: the draw of the application stays within the vertex buffer of a
    completed call exactly when the surface is empty: with no vertex the
    draw fetches nothing, with any vertex it fetches 16 bytes for each from
    a buffer of 12 bytes for each. *)
Theorem draw_in_bounds_iff_empty mc iso d res d' :
  computeSurface mc iso d = Ok (res, d') ->
  (App.draw_in_bounds res <-> count res = 0)
  /\ App.draw_reads res - GPUBuffer.size (buffer res) = 4 * count res.
Proof.
  intros H. destruct (computeSurface_Ok _ _ _ _ _ H) as (nActive & Hbuf & E & _).
  destruct (computeSurface_counts _ _ _ _ _ _ H (ev_log E)) as (_ & _ & Hc).
  assert (Hr : App.draw_reads res = 16 * count res).
  { unfold App.draw_reads, App.bytes_fetched. cbn.
    destruct (Z.leb_spec (count res) 0); lia. }
  unfold App.draw_in_bounds. rewrite Hr, Hbuf. cbn [GPUBuffer.size mkbuf].
  split; [split|]; lia.
Qed.

(** X14: what each stage of a call writes.  Of the buffers that are on the
    device when it starts, the isovalue upload changes at most the info
    block and the classification stage at most the buffer of its bind
    group 1 (the flag buffer); the vertex-offset stage and the vertex stage
    change none, so the ID list handed to them is left as compacted.  The
    four stages create 1, 5, 2 and 1 buffers. *)
Theorem stages_write_their_own mc iso d res d' :
  computeSurface mc iso d = Ok (res, d') ->
  exists d1 av d2 vo d3,
    uploadIsovalue mc iso d = Ok (tt, d1)
    /\ computeActiveVoxels mc d1 = Ok (av, d2)
    /\ computeVertexOffsets mc av d2 = Ok (vo, d3)
    /\ computeVertices mc av vo d3 = Ok (buffer res, d')
    /\ map (fun x => length (memory x)) [d1; d2; d3; d']
       = map (fun k => (k + length (memory d))%nat) [1; 6; 8; 9]%nat
    /\ (forall b, (GPUBuffer.id b < length (memory d))%nat ->
          GPUBuffer.id b <> GPUBuffer.id (volumeInfo mc) ->
          bytes_at (memory d1) b = bytes_at (memory d) b)
    /\ (forall b, (GPUBuffer.id b < length (memory d1))%nat ->
          GPUBuffer.id b <> GPUBuffer.id (markActiveBG mc) ->
          bytes_at (memory d2) b = bytes_at (memory d1) b)
    /\ (forall b, (GPUBuffer.id b < length (memory d2))%nat ->
          bytes_at (memory d') b = bytes_at (memory d2) b)
    /\ bytes_at (memory d') (buffer av) = bytes_at (memory d2) (buffer av).
Proof.
  intros H.
  apply computeSurface_stages in H as (d1 & av & d2 & vo & d3 & H1 & H2 & H3 & H4 & Hc).
  exists d1, av, d2, vo, d3. do 4 (split; [done|]).
  apply uploadIsovalue_Ok in H1 as (E1 & _).
  apply computeActiveVoxels_Ok in H2 as (Hav & E2 & _).
  apply computeVertexOffsets_Ok in H3 as (_ & E3 & _).
  apply computeVertices_Ok in H4 as (_ & _ & E4 & _).
  pose proof (ev_len E1) as L1. pose proof (ev_len E2) as L2.
  pose proof (ev_len E3) as L3. pose proof (ev_len E4) as L4.
  assert (F34 : forall b, (GPUBuffer.id b < length (memory d2))%nat ->
                  bytes_at (memory d') b = bytes_at (memory d2) b).
  { intros b Hb.
    rewrite (bytes_at_frame _ _ _ _ _ _ E4) by (try apply not_elem_of_nil; lia).
    apply (bytes_at_frame _ _ _ _ _ _ E3); [apply not_elem_of_nil|done]. }
  split_and!.
  - cbn [map]. rewrite L4, L3, L2, L1. repeat f_equal; lia.
  - intros b Hb Hvi. apply (bytes_at_frame _ _ _ _ _ _ E1); [|done].
    rewrite !not_elem_of_cons. split_and!; [lia|done|apply not_elem_of_nil].
  - intros b Hb Hva. apply (bytes_at_frame _ _ _ _ _ _ E2); [|done].
    rewrite not_elem_of_cons. split; [done|apply not_elem_of_nil].
  - exact F34.
  - apply F34. rewrite Hav, L2. simpl. lia.
Qed.

(** X15: the stages of a call are wired to each other.  The vertex-count
    pass is one submission, made after the compaction: it sets the bind
    groups of the info block and of the three buffers of the pass, then
    dispatches; each of its
    dispatches runs with the orchestrator's info block and case table,
    reads the ID list that the call compacted and writes the buffer that
    the call scans, once the submitted work is done, for the vertex total
    it returns; every such dispatch is one-dimensional and has a 12-byte
    block of push constants.  The dispatches and the bind group created
    for them name the same three buffers. *)
Theorem vertex_count_pass_wiring mc iso d res d' :
  computeSurface mc iso d = Ok (res, d') ->
  exists pre post flags offs ids vo n nActive dispatches,
    let bindGroup :=
      {| bg_caseTable := triCaseTable mc; bg_activeIDs := ids; bg_numVerts := vo |} in
    log d'
    = log d ++ pre
      ++ [ EvSubmit (setBindGroup 0 (volumeInfoBG_entries (volumeInfoBG mc))
                     :: setBindGroup 1 (computeNumVertsBG_entries bindGroup)
                     :: dispatches);
           EvWorkDone;
           EvScan vo nActive (count res) ]
      ++ post
    /\ EvCompact flags offs ids n ∈ pre
    /\ EvCreateBindGroup (computeNumVertsBG_entries bindGroup) ∈ pre
    /\ GPUBuffer.size ids = nActive * 4
    /\ GPUBuffer.id ids <> GPUBuffer.id vo
    /\ forall c, c ∈ dispatches ->
         exists bg2 dynamicOffset x,
           c = dispatchComputeNumVerts (volumeInfoBG mc) bindGroup bg2 dynamicOffset x 1 1
           /\ bg_size bg2 = 12.
Proof.
  intros H. destruct (computeSurface_Ok _ _ _ _ _ H) as (nActive & _ & E & _).
  set (evs := computeSurface_trace mc (length (memory d)) (maxComputeWorkgroupsPerDimension d)
                (minUniformBufferOffsetAlignment d) nActive (count res)) in E.
  exists (take 27 evs), (drop 30 evs). eexists _, _, _, _, _, _, _. cbv zeta.
  split; [rewrite (ev_log E); reflexivity|].
  split; [apply (list_elem_of_lookup_2 _ 8%nat); reflexivity|].
  split; [apply (list_elem_of_lookup_2 _ 23%nat); reflexivity|].
  split; [reflexivity|]. split; [simpl; lia|].
  intros c Hc. apply list_elem_of_fmap in Hc as (i & -> & _).
  eexists _, _, _. split; reflexivity.
Qed.

(** ** The render loop *)

Section RenderProperties.
Import Render.

Lemma length_float32_bytes (xs : list number) :
  length (float32_bytes xs) = (4 * length xs)%nat.
Proof. unfold float32_bytes. by rewrite length_bytes_of_words, length_map. Qed.

Lemma length_dims_bytes (v : Volume) : length (bytes_of_words (dims_words v)) = 12%nat.
Proof. unfold dims_words. by destruct (dims v) as [[x y] z]. Qed.

Lemma frame_Ok vp v isosurface projView d u d' :
  frame vp v isosurface projView d = Ok (u, d') ->
  length (memory d') = length (memory d)
  /\ (forall j : nat,
        j <> GPUBuffer.id (uploadBuffer vp) -> j <> GPUBuffer.id (viewParamsBuffer vp) ->
        memory d' !! j = memory d !! j)
  /\ (frame_accepted vp isosurface = false ->
      forall j : nat, j <> GPUBuffer.id (uploadBuffer vp) -> memory d' !! j = memory d !! j)
  /\ length (log d') = (2 + length (log d))%nat.
Proof.
  unfold frame, bind, setMappedView, unmap, submit, frame_accepted.
  destruct (_ <? _); [done|]. destruct (_ <? _); [done|]. cbn [memory update].
  destruct (_ <? _); [done|]. destruct (_ <? _); [done|]. cbn [memory update log].
  destruct (negb _); [done|].
  destruct (forallb command_valid _); intros [= <- <-];
    cbn [memory log update foldl exec]; split_and!.
  - by rewrite !length_write_at.
  - intros j Hup Hvp. by rewrite !lookup_write_at_ne.
  - done.
  - rewrite !length_app. simpl. lia.
  - by rewrite !length_write_at.
  - intros j Hup Hvp. by rewrite !lookup_write_at_ne.
  - intros _ j Hup. by rewrite !lookup_write_at_ne.
  - rewrite !length_app. simpl. lia.
Qed.

Lemma renderLoop_Ok vp v isosurface frames d u d' :
  renderLoop vp v isosurface frames d = Ok (u, d') ->
  length (memory d') = length (memory d)
  /\ (forall j : nat,
        j <> GPUBuffer.id (uploadBuffer vp) -> j <> GPUBuffer.id (viewParamsBuffer vp) ->
        memory d' !! j = memory d !! j)
  /\ (frame_accepted vp isosurface = false ->
      forall j : nat, j <> GPUBuffer.id (uploadBuffer vp) -> memory d' !! j = memory d !! j)
  /\ length (log d') = (2 * length frames + length (log d))%nat.
Proof.
  revert d. induction frames as [|projView rest IH]; intros d H.
  - injection H as <- <-. split_and!; [done|done|done|simpl; lia].
  - cbn [renderLoop] in H. apply bind_Ok in H as ([] & d1 & H1 & H).
    apply frame_Ok in H1 as (L1 & F1 & R1 & G1).
    apply IH in H as (L & F & R & G). split_and!.
    + lia.
    + intros j Hup Hvp. by rewrite F, F1.
    + intros Hrej j Hup. by rewrite R, R1.
    + rewrite G, G1. simpl. lia.
Qed.

(** The vertex fetch of the draw decides whether a frame is accepted. *)
Lemma frame_accepted_iff vp isosurface d :
  view_params_on vp d ->
  frame_accepted vp isosurface = true
  <-> has_usage GPUBufferUsage.VERTEX (buffer isosurface) = true
      /\ App.draw_in_bounds isosurface.
Proof.
  intros [Hne Hsz Hus Hu Huu Hl Hul].
  unfold frame_accepted, App.draw_in_bounds, App.draw_reads.
  cbn [forallb command_valid]. unfold copy_valid, binding_valid, has_usage.
  cbn [binding_type binding_buffer binding_size default from_option id].
  rewrite Hsz, Hus, Hu, Huu.
  apply Nat.eqb_neq in Hne. rewrite Hne.
  change (Z.land (Z.lor GPUBufferUsage.MAP_WRITE GPUBufferUsage.COPY_SRC)
            GPUBufferUsage.COPY_SRC =? GPUBufferUsage.COPY_SRC) with true.
  change (Z.land (Z.lor GPUBufferUsage.UNIFORM GPUBufferUsage.COPY_DST)
            GPUBufferUsage.COPY_DST =? GPUBufferUsage.COPY_DST) with true.
  change (Z.land (Z.lor GPUBufferUsage.UNIFORM GPUBufferUsage.COPY_DST)
            GPUBufferUsage.UNIFORM =? GPUBufferUsage.UNIFORM) with true.
  cbn [andb negb Z.leb Z.ltb Z.compare Z.add Z.modulo Z.div_eucl Z.eqb Pos.compare
       Pos.compare_cont Pos.eqb].
  change (0 mod 4 =? 0) with true. change (80 mod 4 =? 0) with true.
  change (0 + 80 <=? 80) with true. cbn [andb].
  rewrite andb_true_r, andb_true_iff, Z.leb_le. reflexivity.
Qed.

Lemma frame_memory vp v isosurface projView d :
  view_params_on vp d -> length projView = 16%nat -> 0 <= count isosurface < 2 ^ 32 ->
  exists d',
    frame vp v isosurface projView d = Ok (tt, d')
    /\ bytes_at (memory d') (uploadBuffer vp)
       = float32_bytes projView ++ bytes_of_words (dims_words v)
         ++ drop 76 (bytes_at (memory d) (uploadBuffer vp))
    /\ bytes_at (memory d') (viewParamsBuffer vp)
       = if frame_accepted vp isosurface then bytes_at (memory d') (uploadBuffer vp)
         else bytes_at (memory d) (viewParamsBuffer vp).
Proof.
  intros [Hne Hsz Hus Hu Huu Hl Hul] Hpv Hcnt.
  pose proof (length_float32_bytes projView) as Lm. rewrite Hpv in Lm.
  pose proof (length_dims_bytes v) as Ld.
  unfold frame, bind, setMappedView, unmap, submit, frame_accepted. rewrite Hus, Hsz, Lm, Ld.
  cbn [Z.ltb Z.compare Z.add Z.mul Z.of_nat Pos.of_succ_nat Pos.succ Pos.mul Pos.add
       Pos.compare Pos.compare_cont Nat.mul Nat.add memory update].
  assert (Hrec : forallb recordable
                   [copyBufferToBuffer (uploadBuffer vp) 0 (viewParamsBuffer vp) 0 80;
                    draw (viewParamsBuffer vp) (buffer isosurface) (count isosurface) 1 0 0]
                 = true).
  { cbn [forallb recordable]. unfold in_u32.
    destruct (Z.leb_spec 0 (count isosurface)); [|lia].
    destruct (Z.ltb_spec (count isosurface) (2 ^ 32)); [|lia]. reflexivity. }
  rewrite Hrec. cbn [negb].
  assert (Hup : bytes_at (write_at (write_at (memory d) (uploadBuffer vp) 0
                                      (float32_bytes projView))
                            (uploadBuffer vp) (16 * 4) (bytes_of_words (dims_words v)))
                  (uploadBuffer vp)
                = float32_bytes projView ++ bytes_of_words (dims_words v)
                  ++ drop 76 (bytes_at (memory d) (uploadBuffer vp))).
  { rewrite !bytes_at_write_at by lia.
    change (Z.to_nat (16 * 4)) with 64%nat. change (Z.to_nat 0) with 0%nat.
    rewrite (blit_fits 0) by lia. rewrite take_0, app_nil_l, Nat.add_0_l, Lm.
    rewrite blit_fits by (rewrite length_app, length_drop; lia).
    rewrite take_app_length' by lia. rewrite Ld.
    rewrite drop_app_ge by lia. rewrite Lm, drop_drop. done. }
  destruct (forallb command_valid _).
  - eexists. split; [reflexivity|]. cbn [memory update foldl exec]. split.
    + rewrite bytes_at_write_at_ne by done. exact Hup.
    + rewrite (bytes_at_write_at_ne _ (viewParamsBuffer vp) (uploadBuffer vp)) by done.
      rewrite bytes_at_write_at by lia. rewrite Hup.
      rewrite !bytes_at_write_at_ne by congruence.
      change (Z.to_nat 0) with 0%nat. rewrite drop_0.
      assert (L : length (float32_bytes projView ++ bytes_of_words (dims_words v)
                          ++ drop 76 (bytes_at (memory d) (uploadBuffer vp))) = 80%nat).
      { rewrite !length_app, length_drop. lia. }
      rewrite take_ge by lia. apply blit_all. lia.
  - eexists. split; [reflexivity|]. cbn [memory update]. split; [exact Hup|].
    by rewrite !bytes_at_write_at_ne by congruence.
Qed.

(** X10: one iteration of the render loop with a 4 x 4 matrix, for a
    surface whose count is an unsigned 32-bit integer, does not throw.
    Afterwards the upload buffer holds the 16 floats of the matrix, then
    the three dims of the volume from byte 64 on, then the four bytes it
    held before at its end, which no frame writes.  The copy to the
    uniform buffer of the vertex shader is recorded in the command buffer
    of the draw: when the device accepts that submission, which it does
    exactly when the vertex buffer has [VERTEX] and the draw stays inside
    it, the uniform buffer is a copy of the upload buffer; otherwise it
    holds what it held.  The two buffers are still the 80-byte buffers
    they were. *)
Theorem frame_uploads_view_parameters vp v isosurface projView d :
  view_params_on vp d -> length projView = 16%nat -> 0 <= count isosurface < 2 ^ 32 ->
  exists d',
    frame vp v isosurface projView d = Ok (tt, d')
    /\ bytes_at (memory d') (uploadBuffer vp)
       = float32_bytes projView ++ bytes_of_words (dims_words v)
         ++ drop 76 (bytes_at (memory d) (uploadBuffer vp))
    /\ take 12 (drop 64 (bytes_at (memory d') (uploadBuffer vp)))
       = bytes_of_words (dims_words v)
    /\ bytes_at (memory d') (viewParamsBuffer vp)
       = (if frame_accepted vp isosurface then bytes_at (memory d') (uploadBuffer vp)
          else bytes_at (memory d) (viewParamsBuffer vp))
    /\ (frame_accepted vp isosurface = true
        <-> has_usage GPUBufferUsage.VERTEX (buffer isosurface) = true
            /\ App.draw_in_bounds isosurface)
    /\ last (log d')
       = Some (EvSubmit
                 [ copyBufferToBuffer (uploadBuffer vp) 0 (viewParamsBuffer vp) 0 80;
                   draw (viewParamsBuffer vp) (buffer isosurface) (count isosurface) 1 0 0 ])
    /\ view_params_on vp d'.
Proof.
  intros V Hpv Hcnt.
  destruct (frame_memory vp v isosurface projView d V Hpv Hcnt) as (d' & H & Hup & Hvp).
  pose proof (length_float32_bytes projView) as Lm. rewrite Hpv in Lm.
  pose proof (length_dims_bytes v) as Ld.
  exists d'. split; [exact H|]. split; [exact Hup|]. split.
  { rewrite Hup, drop_app_length' by lia. rewrite take_app_length' by lia. done. }
  split; [exact Hvp|]. split; [by eapply frame_accepted_iff|].
  split.
  { revert H. unfold frame, bind, setMappedView, unmap, submit.
    destruct (_ <? _); [done|]. destruct (_ <? _); [done|]. cbn [memory update].
    destruct (_ <? _); [done|]. destruct (_ <? _); [done|]. cbn [memory update log].
    destruct (negb _); [done|].
    rewrite (vp_size _ _ V).
    destruct (forallb command_valid _); intros [= <-];
      cbn [log update]; apply last_snoc. }
  destruct V as [Hne Hsz Hus Hu Huu Hl Hul].
  split; try done.
  - rewrite Hvp. destruct (frame_accepted vp isosurface); [|done].
    rewrite Hup, !length_app, length_drop. lia.
  - rewrite Hup, !length_app, length_drop. lia.
Qed.

Lemma createViewParams_Ok d0 vp d :
  createViewParams d0 = Ok (vp, d) ->
  vp = {| viewParamsBuffer :=
            mkbuf (length (memory d0)) ((4 * 4 + 4) * 4)
                  (Z.lor GPUBufferUsage.UNIFORM GPUBufferUsage.COPY_DST);
          uploadBuffer :=
            mkbuf (1 + length (memory d0)) ((4 * 4 + 4) * 4)
                  (Z.lor GPUBufferUsage.MAP_WRITE GPUBufferUsage.COPY_SRC) |}
  /\ memory d = memory d0 ++ [replicate 80 0; replicate 80 0]
  /\ length (log d) = (3 + length (log d0))%nat.
Proof.
  unfold createViewParams. intros H.
  pose proof (evolves_refl d0) as E.
  do 3 step H E. injection H as <- <-.
  split; [reflexivity|]. split.
  - rewrite M1, M0, M, <- app_assoc. reflexivity.
  - rewrite (ev_log E), length_app. simpl. lia.
Qed.

(** X11: in the application a surface with vertices is never drawn, and
    the view parameters never reach the vertex shader.  When the one
    [computeSurface] call returned a positive count, the submission of
    every frame is invalid, because its draw fetches 16 bytes per vertex
    from the buffer of 12 bytes per vertex, and the copy recorded in the
    same command buffer does not run: after any number of frames the
    uniform buffer holds the 80 zero bytes it was created with. *)
Theorem surface_with_vertices_blocks_every_frame v iso frames d0 isosurface vp d :
  run v iso frames d0 = Ok ((isosurface, vp), d) ->
  0 < count isosurface ->
  frame_accepted vp isosurface = false
  /\ ~ App.draw_in_bounds isosurface
  /\ GPUBuffer.size (viewParamsBuffer vp) = 80
  /\ bytes_at (memory d) (viewParamsBuffer vp) = replicate 80 0.
Proof.
  unfold run. intros H Hpos.
  apply bind_Ok in H as (mc & d1 & Hc & H).
  apply bind_Ok in H as (res & d2 & Hs & H).
  apply bind_Ok in H as (vp' & d3 & Hv & H).
  apply bind_Ok in H as ([] & d4 & Hl & [= <- <- <-]).
  apply createViewParams_Ok in Hv as (-> & M3 & G3).
  destruct (computeSurface_Ok _ _ _ _ _ Hs) as (nActive & Hbuf & E & _).
  assert (Hout : ~ App.draw_in_bounds res).
  { unfold App.draw_in_bounds, App.draw_reads, App.bytes_fetched. rewrite Hbuf. cbn.
    destruct (Z.leb_spec (count res) 0); lia. }
  assert (Hrej : frame_accepted
                   {| viewParamsBuffer :=
                        mkbuf (length (memory d2)) ((4 * 4 + 4) * 4)
                              (Z.lor GPUBufferUsage.UNIFORM GPUBufferUsage.COPY_DST);
                      uploadBuffer :=
                        mkbuf (1 + length (memory d2)) ((4 * 4 + 4) * 4)
                              (Z.lor GPUBufferUsage.MAP_WRITE GPUBufferUsage.COPY_SRC) |}
                   res = false).
  { apply not_true_is_false. intros Hacc. apply Hout.
    unfold frame_accepted in Hacc. cbn [forallb command_valid] in Hacc.
    rewrite !andb_true_iff in Hacc. destruct Hacc as (_ & ((_ & _) & Hacc) & _).
    unfold App.draw_in_bounds, App.draw_reads. by apply Z.leb_le. }
  split; [exact Hrej|]. split; [exact Hout|]. split; [reflexivity|].
  apply renderLoop_Ok in Hl as (_ & _ & R4 & _).
  unfold bytes_at. cbn [viewParamsBuffer uploadBuffer GPUBuffer.id mkbuf] in *.
  rewrite (R4 Hrej) by lia. rewrite M3.
  rewrite lookup_app_r by lia. rewrite Nat.sub_diag. reflexivity.
Qed.


End RenderProperties.

End DeviceProperties.


(** ** The model run on the small platform *)

Example scan_two_blocks :
  ExclusiveScan.scan_words (P := demo_platform) [1; 0; 1; 1; 0; 1; 0; 0] 6
  = Some ([0; 1; 1; 2; 3; 3; 4; 4], 4).
Proof. reflexivity. Qed.

Example scan_three_levels :
  ExclusiveScan.scan_rec (P := demo_platform) 18
    [3; 0; 2; 5; 1; 0; 0; 4; 2; 2; 0; 1; 6; 0; 0; 3; 7]
  = Some ([0; 3; 3; 5; 10; 11; 11; 11; 15; 17; 19; 19; 20; 26; 26; 26; 29], 36).
Proof. reflexivity. Qed.

Example compact_two_of_four :
  StreamCompactIDs.compact_words [0; 1; 0; 1] [0; 0; 1; 1] [0; 0] 4 = [1; 3].
Proof. reflexivity. Qed.

Example expand_two_of_four : StreamCompactIDs.expand [1; 3] 4 = [0; 1; 0; 1].
Proof. reflexivity. Qed.

Example aligned_size_of_6 : ExclusiveScan.getAlignedSize (P := demo_platform) 6 = 8.
Proof. reflexivity. Qed.

Example demo_surface_result :
  demo_surface.1 = {| count := 12; buffer := mkbuf 11 144 160 |}.
Proof. reflexivity. Qed.

Example demo_flags_and_ids :
  words_of_bytes (bytes_at (memory demo_surface.2) (voxelActive demo_mc)) = [0; 1; 0; 1]
  /\ words_of_bytes (bytes_at (memory demo_surface.2) (mkbuf 5 8 132)) = [1; 3]
  /\ words_of_bytes (bytes_at (memory demo_surface.2) (mkbuf 9 16 140)) = [0; 6; 12; 12].
Proof. repeat split. Qed.

Example demo_draw : App.draw_reads demo_surface.1 = 192.
Proof. reflexivity. Qed.

Lemma demo_reachable : reachable (P := demo_platform) demo_mc demo_d1.
Proof.
  apply (reach_create (P := demo_platform) demo_mc demo_volume demo_device).
  vm_compute. reflexivity.
Defined.

Lemma scan_exclusive_prefix_sums_witness :
  exists out,
    ExclusiveScan.scan_words (P := demo_platform) [1; 0; 1; 1; 0; 1; 0; 0] 6
    = Some (out, sumZ (take 6 [1; 0; 1; 1; 0; 1; 0; 0]))
    /\ length out = 8%nat
    /\ forall i, (i < 6)%nat -> out !! i = Some (sumZ (take i [1; 0; 1; 1; 0; 1; 0; 0])).
Proof.
  apply (scan_exclusive_prefix_sums (P := demo_platform) [1; 0; 1; 1; 0; 1; 0; 0] 6).
  - simpl. lia.
  - vm_compute. lia.
  - intros i x Hi Hx.
    do 6 (destruct i as [|i]; [lia|]).
    destruct i as [|i]; [by injection Hx as <-|].
    destruct i as [|i]; [by injection Hx as <-|].
    discriminate Hx.
Defined.

Lemma compaction_sorted_and_roundtrip_witness :
  exists offs total,
    ExclusiveScan.scan_words (P := demo_platform) [0; 1; 0; 1] 4 = Some (offs, total)
    /\ let ids := StreamCompactIDs.compact_words [0; 1; 0; 1] offs
                    (replicate (Z.to_nat total) 0) 4 in
       StronglySorted Z.lt ids
       /\ Z.of_nat (length ids) = total
       /\ StreamCompactIDs.expand ids 4 = [0; 1; 0; 1].
Proof.
  apply (compaction_sorted_and_roundtrip (P := demo_platform) [0; 1; 0; 1] 4).
  - simpl. lia.
  - vm_compute. lia.
  - repeat first [apply Forall_nil_2 | apply Forall_cons_2; [first [by left | by right]|]].
  - intros i x Hi Hx.
    do 4 (destruct i as [|i]; [lia|]). discriminate Hx.
Defined.

Lemma computeSurface_vertices_only_allocated_witness :
  bytes_at (memory demo_surface.2) (buffer demo_surface.1)
  = replicate (Z.to_nat (count demo_surface.1 * 3 * 4)) 0
  /\ last (log demo_surface.2) = Some (EvCreateBuffer (buffer demo_surface.1) false).
Proof.
  apply (computeSurface_vertices_only_allocated (P := demo_platform)
           demo_mc 3 demo_d1 demo_surface.1 demo_surface.2).
  vm_compute. reflexivity.
Defined.


(** The run above in numbers: voxels 1 and 3 are active and emit 6
    vertices each. *)
Example demo_vertex_total :
  StreamCompactIDs.active_ids 0 (flag_words (P := demo_platform) demo_volume 3) = [1; 3]
  /\ map (voxel_num_verts (Platform := demo_platform) demo_volume 3) [1; 3] = [6; 6]
  /\ count demo_surface.1 = 12.
Proof. repeat split. Qed.

Lemma draw_reads_past_vertex_buffer_witness :
  0 < count demo_surface.1
  /\ GPUBuffer.size (buffer demo_surface.1) = count demo_surface.1 * 12
  /\ App.draw_reads demo_surface.1 = count demo_surface.1 * 16
  /\ ~ App.draw_in_bounds demo_surface.1.
Proof.
  split; [vm_compute; reflexivity|].
  apply (draw_reads_past_vertex_buffer (P := demo_platform)
           demo_mc 3 demo_d1 demo_surface.1 demo_surface.2).
  - vm_compute. reflexivity.
  - vm_compute. reflexivity.
Defined.

Lemma uploadIsovalue_writes_bytes_16_to_20_witness :
  let old := bytes_at (memory demo_d1) (volumeInfo demo_mc) in
  let new := bytes_at (memory demo_surface.2) (volumeInfo demo_mc) in
  new = take 16 old ++ u32_le 3 ++ drop 20 old
  /\ take 16 new = take 16 old
  /\ take 16 new = bytes_of_words (dims_words demo_volume) ++ [0; 0; 0; 0].
Proof.
  apply (uploadIsovalue_writes_bytes_16_to_20 (P := demo_platform)
           demo_mc 3 demo_d1 demo_surface.1 demo_surface.2).
  - exact demo_reachable.
  - vm_compute. reflexivity.
Defined.

Lemma allocation_follows_readback_witness :
  exists evs offs ids vo nActive (i j k : nat),
    log demo_surface.2 = log demo_d1 ++ evs
    /\ evs !! i = Some (EvScan offs 4 nActive)
    /\ evs !! S i = Some (EvCreateBuffer ids false)
    /\ GPUBuffer.size ids = nActive * 4
    /\ evs !! S (S i) = Some (EvCompact (voxelActive demo_mc) offs ids 4)
    /\ (i < k)%nat /\ evs !! k = Some (EvCreateBuffer vo false)
    /\ GPUBuffer.size vo = ExclusiveScan.getAlignedSize (P := demo_platform) nActive * 4
    /\ evs !! j = Some (EvScan vo nActive (count demo_surface.1))
    /\ evs !! S j = Some (EvCreateBuffer (buffer demo_surface.1) false)
    /\ GPUBuffer.size (buffer demo_surface.1) = count demo_surface.1 * 3 * 4
    /\ (forall (p : nat) e, (p <= i)%nat -> evs !! p = Some e ->
          ~ mentions ids e /\ ~ mentions vo e)
    /\ (forall (p : nat) e, (p <= j)%nat -> evs !! p = Some e ->
          ~ mentions (buffer demo_surface.1) e).
Proof.
  apply (allocation_follows_readback (P := demo_platform)
           demo_mc 3 demo_d1 demo_surface.1 demo_surface.2).
  - exact demo_reachable.
  - vm_compute. reflexivity.
Defined.

Lemma intermediate_buffers_of_a_call_witness :
  exists evs offs ids vo nActive,
    log demo_surface.2 = log demo_d1 ++ evs
    /\ EvScan offs 4 nActive ∈ evs
    /\ EvCompact (voxelActive demo_mc) offs ids 4 ∈ evs
    /\ EvScan vo nActive (count demo_surface.1) ∈ evs
    /\ EvCreateBuffer offs false ∈ evs
    /\ EvCreateBuffer ids false ∈ evs
    /\ EvCreateBuffer vo false ∈ evs
    /\ EvCreateBuffer (buffer demo_surface.1) false ∈ evs
    /\ (forall b m, EvCreateBuffer b m ∈ evs -> (length (memory demo_d1) <= GPUBuffer.id b)%nat)
    /\ (GPUBuffer.id (voxelActive demo_mc) < length (memory demo_d1))%nat
    /\ (forall m, EvCreateBuffer (voxelActive demo_mc) m ∉ evs)
    /\ NoDup [GPUBuffer.id (voxelActive demo_mc); GPUBuffer.id offs; GPUBuffer.id ids;
              GPUBuffer.id vo; GPUBuffer.id (buffer demo_surface.1)].
Proof.
  apply (intermediate_buffers_of_a_call (P := demo_platform)
           demo_mc 3 demo_d1 demo_surface.1 demo_surface.2).
  - exact demo_reachable.
  - vm_compute. reflexivity.
Defined.

(** C3 as the spec states it fails: the flag buffer that the call of the run
    above compacts was created by [create], before the call, and the call
    creates no buffer with its handle. *)
Lemma flag_buffer_created_before_call :
  let evs := drop (length (log demo_d1)) (log demo_surface.2) in
  log demo_surface.2 = log demo_d1 ++ evs
  /\ (exists offs ids n, evs !! 8%nat = Some (EvCompact (voxelActive demo_mc) offs ids n))
  /\ log demo_d1 !! 4%nat = Some (EvCreateBuffer (voxelActive demo_mc) false)
  /\ ~ (exists m, EvCreateBuffer (voxelActive demo_mc) m ∈ evs).
Proof.
  cbv zeta. split; [vm_compute; reflexivity|].
  split; [eexists _, _, _; vm_compute; reflexivity|].
  split; [vm_compute; reflexivity|].
  intros [m Hin]. apply list_elem_of_In in Hin. vm_compute in Hin.
  repeat (destruct Hin as [Hin|Hin]; [discriminate Hin|]). exact Hin.
Defined.



Lemma create_accepts_empty_dual_grid_witness :
  exists mc d,
    create (P := demo_platform) flat_volume demo_device = Ok (mc, d)
    /\ last (log d) = Some (EvCreateBindGroup (markActiveBG_entries (voxelActive mc)))
    /\ forallb binding_valid (markActiveBG_entries (voxelActive mc)) = false
    /\ forall d1 iso,
         reachable (P := demo_platform) mc d1 -> 0 < maxComputeWorkgroupsPerDimension d1 ->
         exists res d2,
           computeSurface (P := demo_platform) mc iso d1 = Ok (res, d2)
           /\ count res = 0
           /\ GPUBuffer.size (buffer res) = 0
           /\ log d2 = log d1
                       ++ computeSurface_trace (P := demo_platform) mc (length (memory d1))
                            (maxComputeWorkgroupsPerDimension d1)
                            (minUniformBufferOffsetAlignment d1) 0 0
           /\ classification_accepted mc (1 + length (memory d1)) = false.
Proof.
  apply (create_accepts_empty_dual_grid (P := demo_platform) flat_volume demo_device).
  - vm_compute. repeat split; (discriminate || reflexivity).
  - reflexivity.
  - simpl. lia.
  - simpl. lia.
  - simpl. lia.
Defined.

(** C4 as the spec states it fails: the dual grid of [flat_volume] has no
    voxel along x, yet [create] returns an orchestrator for it and a
    [computeSurface] call on it goes through all its stages, up to the
    creation of the vertex buffer it returns. *)
Lemma flat_volume_not_rejected :
  (dualGridDims flat_volume).1.1 < 1
  /\ exists mc d res d',
       create (P := demo_platform) flat_volume demo_device = Ok (mc, d)
       /\ computeSurface (P := demo_platform) mc 3 d = Ok (res, d')
       /\ log d' = log d
                   ++ computeSurface_trace (P := demo_platform) mc (length (memory d))
                        (maxComputeWorkgroupsPerDimension d)
                        (minUniformBufferOffsetAlignment d) 0 0
       /\ last (log d') = Some (EvCreateBuffer (buffer res) false).
Proof.
  split; [vm_compute; reflexivity|].
  eexists _, _, _, _.
  split; [vm_compute; reflexivity|].
  split; [vm_compute; reflexivity|].
  split; vm_compute; reflexivity.
Defined.

(** ** The further properties on the small platform *)

Lemma demo_follows : follows (P := demo_platform) demo_mc demo_d1 2 demo_surface_again.2.
Proof.
  apply (follows_call (P := demo_platform) demo_mc demo_d1 6 1 demo_surface.2
           demo_surface_again.1 demo_surface_again.2).
  - apply (follows_call (P := demo_platform) demo_mc demo_d1 3 0 demo_d1
             demo_surface.1 demo_surface.2).
    + apply follows_now.
    + vm_compute. reflexivity.
  - vm_compute. reflexivity.
Defined.

Lemma create_initial_state_witness :
  length (memory demo_d1) = (3 + length (memory demo_device))%nat
  /\ (forall j : nat, (j < length (memory demo_device))%nat ->
        memory demo_d1 !! j = memory demo_device !! j)
  /\ map GPUBuffer.id [triCaseTable demo_mc; volumeInfo demo_mc; voxelActive demo_mc]
     = seq (length (memory demo_device)) 3
  /\ GPUBuffer.size (triCaseTable demo_mc)
     = 4 * Z.of_nat (length (MC_CASE_TABLE (Platform := demo_platform)))
  /\ bytes_at (memory demo_d1) (triCaseTable demo_mc)
     = bytes_of_words (MC_CASE_TABLE (Platform := demo_platform))
  /\ GPUBuffer.size (volumeInfo demo_mc) = 32
  /\ bytes_at (memory demo_d1) (volumeInfo demo_mc)
     = bytes_of_words (dims_words demo_volume) ++ replicate 20 0
  /\ isovalue_word (bytes_at (memory demo_d1) (volumeInfo demo_mc)) = 0
  /\ GPUBuffer.size (voxelActive demo_mc)
     = ExclusiveScan.getAlignedSize (P := demo_platform) (dualGridNumVoxels demo_volume) * 4
  /\ bytes_at (memory demo_d1) (voxelActive demo_mc)
     = replicate (Z.to_nat (GPUBuffer.size (voxelActive demo_mc))) 0.
Proof.
  apply (create_initial_state (P := demo_platform) demo_volume demo_device demo_mc demo_d1).
  vm_compute. reflexivity.
Defined.

Lemma case_table_never_modified_witness :
  bytes_at (memory demo_surface.2) (triCaseTable demo_mc)
  = bytes_of_words (MC_CASE_TABLE (Platform := demo_platform))
  /\ words_of_bytes (bytes_at (memory demo_surface.2) (triCaseTable demo_mc))
     = map (fun w => w mod 2 ^ 32) (MC_CASE_TABLE (Platform := demo_platform))
  /\ GPUBuffer.id (triCaseTable demo_mc) <> GPUBuffer.id (volumeInfo demo_mc)
  /\ GPUBuffer.id (triCaseTable demo_mc) <> GPUBuffer.id (voxelActive demo_mc).
Proof.
  apply (case_table_never_modified (P := demo_platform) demo_mc demo_surface.2).
  apply (reach_surface (P := demo_platform) demo_mc 3 demo_d1 demo_surface.1 demo_surface.2).
  - exact demo_reachable.
  - vm_compute. reflexivity.
Defined.

Lemma calls_allocate_and_leave_the_rest_witness :
  length (memory demo_surface_again.2) = (9 * 2 + length (memory demo_d1))%nat
  /\ forall b,
       (GPUBuffer.id b < length (memory demo_d1))%nat ->
       GPUBuffer.id b <> GPUBuffer.id (volumeInfo demo_mc) ->
       GPUBuffer.id b <> GPUBuffer.id (voxelActive demo_mc) ->
       bytes_at (memory demo_surface_again.2) b = bytes_at (memory demo_d1) b.
Proof.
  apply (calls_allocate_and_leave_the_rest (P := demo_platform) demo_mc demo_d1 2
           demo_surface_again.2).
  - exact demo_reachable.
  - exact demo_follows.
Defined.

Lemma later_calls_keep_earlier_results_witness :
  bytes_at (memory demo_surface_again.2) (buffer demo_surface.1)
  = bytes_at (memory demo_surface.2) (buffer demo_surface.1)
  /\ (GPUBuffer.id (buffer demo_surface.1) < GPUBuffer.id (buffer demo_surface_again.1))%nat.
Proof.
  apply (later_calls_keep_earlier_results (P := demo_platform) demo_mc demo_d1 3
           demo_surface.1 demo_surface.2 0 demo_surface.2 6 demo_surface_again.1
           demo_surface_again.2).
  - exact demo_reachable.
  - vm_compute. reflexivity.
  - apply follows_now.
  - vm_compute. reflexivity.
Defined.

Lemma volume_info_after_call_witness :
  let info := bytes_at (memory demo_surface_again.2) (volumeInfo demo_mc) in
  info = bytes_of_words (dims_words (volume demo_mc)) ++ [0; 0; 0; 0]
         ++ u32_le 6 ++ replicate 12 0
  /\ words_of_bytes info
     = map (fun w => w mod 2 ^ 32) (dims_words (volume demo_mc)) ++ [0; 6 mod 2 ^ 32; 0; 0; 0].
Proof.
  apply (volume_info_after_call (P := demo_platform) demo_mc 6 demo_surface.2
           demo_surface_again.1 demo_surface_again.2).
  - apply (reach_surface (P := demo_platform) demo_mc 3 demo_d1 demo_surface.1 demo_surface.2).
    + exact demo_reachable.
    + vm_compute. reflexivity.
  - vm_compute. reflexivity.
Defined.


Lemma call_records_valid_copies_witness :
  exists evs,
    log demo_surface.2 = log demo_d1 ++ evs
    /\ forall e, e ∈ evs -> transfers_valid e = true.
Proof.
  apply (call_records_valid_copies (P := demo_platform) demo_mc 3 demo_d1
           demo_surface.1 demo_surface.2).
  - exact demo_reachable.
  - simpl. lia.
  - vm_compute. reflexivity.
Defined.

Lemma classification_dispatch_covers_grid_witness :
  exists evs x y z c,
    log demo_surface.2 = log demo_d1 ++ evs
    /\ evs !! 4%nat
       = Some (EvSubmit [dispatchMarkActiveVoxel (volumeInfoBG demo_mc) (markActiveBG demo_mc)
                           x y z; c])
    /\ (forall (i : nat) cmds bg0 bg1 x' y' z',
          evs !! i = Some (EvSubmit cmds) ->
          dispatchMarkActiveVoxel bg0 bg1 x' y' z' ∈ cmds -> i = 4%nat)
    /\ let '(g0, g1, g2) := dualGridDims (volume demo_mc) in
       g0 <= 4 * x < g0 + 4 /\ g1 <= 4 * y < g1 + 4 /\ g2 <= 2 * z < g2 + 2.
Proof.
  apply (classification_dispatch_covers_grid (P := demo_platform) demo_mc 3 demo_d1
           demo_surface.1 demo_surface.2).
  vm_compute. reflexivity.
Defined.

Lemma completed_call_counts_witness :
  0 <= dualGridNumVoxels (volume demo_mc)
  /\ 0 <= count demo_surface.1
  /\ GPUBuffer.size (buffer demo_surface.1) = 12 * count demo_surface.1
  /\ exists evs (nActive : Z) ids,
       log demo_surface.2 = log demo_d1 ++ evs
       /\ evs !! 6%nat
          = Some (EvScan (offsets_of demo_mc (length (memory demo_d1)))
                    (dualGridNumVoxels (volume demo_mc)) nActive)
       /\ evs !! 7%nat = Some (EvCreateBuffer ids false)
       /\ evs !! 8%nat
          = Some (EvCompact (voxelActive demo_mc)
                    (offsets_of demo_mc (length (memory demo_d1))) ids
                    (dualGridNumVoxels (volume demo_mc)))
       /\ 0 <= nActive
       /\ GPUBuffer.size ids = 4 * nActive.
Proof.
  apply (completed_call_counts (P := demo_platform) demo_mc 3 demo_d1
           demo_surface.1 demo_surface.2).
  vm_compute. reflexivity.
Defined.

Lemma draw_in_bounds_iff_empty_witness :
  (App.draw_in_bounds demo_surface.1 <-> count demo_surface.1 = 0)
  /\ App.draw_reads demo_surface.1 - GPUBuffer.size (buffer demo_surface.1)
     = 4 * count demo_surface.1.
Proof.
  apply (draw_in_bounds_iff_empty (P := demo_platform) demo_mc 3 demo_d1
           demo_surface.1 demo_surface.2).
  vm_compute. reflexivity.
Defined.

Lemma demo_view_params : Render.view_params_on demo_run.1.2 demo_run.2.
Proof. split; vm_compute; first [reflexivity | lia]. Defined.

(** The surface of the run has 12 vertices: the submission of a further
    frame is rejected and the uniform buffer stays as it is. *)
Lemma frame_uploads_view_parameters_witness :
  exists d',
    Render.frame (P := demo_platform) demo_run.1.2 demo_volume demo_run.1.1
      [5; 0; 0; 0; 0; 5; 0; 0; 0; 0; 5; 0; 1; 2; 3; 1] demo_run.2 = Ok (tt, d')
    /\ bytes_at (memory d') (Render.uploadBuffer demo_run.1.2)
       = Render.float32_bytes (P := demo_platform)
           [5; 0; 0; 0; 0; 5; 0; 0; 0; 0; 5; 0; 1; 2; 3; 1]
         ++ bytes_of_words (dims_words demo_volume)
         ++ drop 76 (bytes_at (memory demo_run.2) (Render.uploadBuffer demo_run.1.2))
    /\ take 12 (drop 64 (bytes_at (memory d') (Render.uploadBuffer demo_run.1.2)))
       = bytes_of_words (dims_words demo_volume)
    /\ bytes_at (memory d') (Render.viewParamsBuffer demo_run.1.2)
       = (if Render.frame_accepted demo_run.1.2 demo_run.1.1
          then bytes_at (memory d') (Render.uploadBuffer demo_run.1.2)
          else bytes_at (memory demo_run.2) (Render.viewParamsBuffer demo_run.1.2))
    /\ (Render.frame_accepted demo_run.1.2 demo_run.1.1 = true
        <-> has_usage GPUBufferUsage.VERTEX (buffer demo_run.1.1) = true
            /\ App.draw_in_bounds demo_run.1.1)
    /\ last (log d')
       = Some (EvSubmit
                 [ copyBufferToBuffer (Render.uploadBuffer demo_run.1.2) 0
                     (Render.viewParamsBuffer demo_run.1.2) 0 80;
                   draw (Render.viewParamsBuffer demo_run.1.2) (buffer demo_run.1.1)
                     (count demo_run.1.1) 1 0 0 ])
    /\ Render.view_params_on demo_run.1.2 d'.
Proof.
  apply (frame_uploads_view_parameters (P := demo_platform) demo_run.1.2 demo_volume
           demo_run.1.1 [5; 0; 0; 0; 0; 5; 0; 0; 0; 0; 5; 0; 1; 2; 3; 1] demo_run.2).
  - exact demo_view_params.
  - reflexivity.
  - vm_compute. split; [discriminate|reflexivity].
Defined.

(** With an empty surface the submission of a frame is accepted and the
    uniform buffer gets the matrix and the dims. *)
Example frame_with_empty_surface :
  Render.frame_accepted demo_run.1.2 {| count := 0; buffer := mkbuf 11 0 160 |} = true
  /\ exists d',
       Render.frame (P := demo_platform) demo_run.1.2 demo_volume
         {| count := 0; buffer := mkbuf 11 0 160 |}
         [5; 0; 0; 0; 0; 5; 0; 0; 0; 0; 5; 0; 1; 2; 3; 1] demo_run.2 = Ok (tt, d')
       /\ words_of_bytes (bytes_at (memory d') (Render.viewParamsBuffer demo_run.1.2))
          = [5; 0; 0; 0; 0; 5; 0; 0; 0; 0; 5; 0; 1; 2; 3; 1; 3; 3; 2; 0].
Proof. split; [reflexivity|]. eexists. split; vm_compute; reflexivity. Qed.

Lemma surface_with_vertices_blocks_every_frame_witness :
  Render.frame_accepted demo_run.1.2 demo_run.1.1 = false
  /\ ~ App.draw_in_bounds demo_run.1.1
  /\ GPUBuffer.size (Render.viewParamsBuffer demo_run.1.2) = 80
  /\ bytes_at (memory demo_run.2) (Render.viewParamsBuffer demo_run.1.2) = replicate 80 0.
Proof.
  apply (surface_with_vertices_blocks_every_frame (P := demo_platform) demo_volume 3
           demo_frames demo_device demo_run.1.1 demo_run.1.2 demo_run.2).
  - vm_compute. reflexivity.
  - vm_compute. reflexivity.
Defined.


Lemma stages_write_their_own_witness :
  exists d1 av d2 vo d3,
    uploadIsovalue (P := demo_platform) demo_mc 3 demo_d1 = Ok (tt, d1)
    /\ computeActiveVoxels (P := demo_platform) demo_mc d1 = Ok (av, d2)
    /\ computeVertexOffsets (P := demo_platform) demo_mc av d2 = Ok (vo, d3)
    /\ computeVertices demo_mc av vo d3 = Ok (buffer demo_surface.1, demo_surface.2)
    /\ map (fun x => length (memory x)) [d1; d2; d3; demo_surface.2]
       = map (fun k => (k + length (memory demo_d1))%nat) [1; 6; 8; 9]%nat
    /\ (forall b, (GPUBuffer.id b < length (memory demo_d1))%nat ->
          GPUBuffer.id b <> GPUBuffer.id (volumeInfo demo_mc) ->
          bytes_at (memory d1) b = bytes_at (memory demo_d1) b)
    /\ (forall b, (GPUBuffer.id b < length (memory d1))%nat ->
          GPUBuffer.id b <> GPUBuffer.id (markActiveBG demo_mc) ->
          bytes_at (memory d2) b = bytes_at (memory d1) b)
    /\ (forall b, (GPUBuffer.id b < length (memory d2))%nat ->
          bytes_at (memory demo_surface.2) b = bytes_at (memory d2) b)
    /\ bytes_at (memory demo_surface.2) (buffer av) = bytes_at (memory d2) (buffer av).
Proof.
  apply (stages_write_their_own (P := demo_platform) demo_mc 3 demo_d1).
  vm_compute. reflexivity.
Defined.

Lemma vertex_count_pass_wiring_witness :
  exists pre post flags offs ids vo n nActive dispatches,
    let bindGroup :=
      {| bg_caseTable := triCaseTable demo_mc; bg_activeIDs := ids; bg_numVerts := vo |} in
    log demo_surface.2
    = log demo_d1 ++ pre
      ++ [ EvSubmit (setBindGroup 0 (volumeInfoBG_entries (volumeInfoBG demo_mc))
                     :: setBindGroup 1 (computeNumVertsBG_entries bindGroup)
                     :: dispatches);
           EvWorkDone;
           EvScan vo nActive (count demo_surface.1) ]
      ++ post
    /\ EvCompact flags offs ids n ∈ pre
    /\ EvCreateBindGroup (computeNumVertsBG_entries bindGroup) ∈ pre
    /\ GPUBuffer.size ids = nActive * 4
    /\ GPUBuffer.id ids <> GPUBuffer.id vo
    /\ forall c, c ∈ dispatches ->
         exists bg2 dynamicOffset x,
           c = dispatchComputeNumVerts (volumeInfoBG demo_mc) bindGroup bg2 dynamicOffset x 1 1
           /\ bg_size bg2 = 12.
Proof.
  apply (vertex_count_pass_wiring (P := demo_platform) demo_mc 3 demo_d1
           demo_surface.1 demo_surface.2).
  vm_compute. reflexivity.
Defined.
